(** * Health and Food Access Dashboard: the aggregation code of [dashboard.py]

    The script loads one table of per-state rows ([merged_map]), shows a
    top-10 ranking and summary statistics of a selected metric, and computes
    an aggregate "priority" score by min-max normalising five metrics.

    The table is a pandas [DataFrame] of [float64] columns in which a missing
    value is NaN.  The arithmetic is kept behind the interface [Num], with two
    instances: [binary64], the IEEE-754 doubles the script runs on, and
    [exact], rational numbers without rounding.  Structural facts are proved
    for every instance; facts about the order of computed numbers are proved
    for the exact instance, and the rounding of the doubles is shown where it
    changes the outcome. *)

From Stdlib Require Import QArith Lqa Floats.
From stdpp Require Import base list strings gmap sorting.

(** ** Numbers

    A cell of a float column is an [option N], [None] being NaN, and a cell
    [Some x] holds a number [x] of the carrier [N] that is not a NaN (on
    doubles: [leb x x = true], see [numbers] below).  Division is the one
    operation of the script whose result is kept as a cell, so it returns a
    cell: NaN, which it gives for [0/0], is [None]. *)

Class Num (N : Type) := {
  zero : N;
  add : N → N → N;
  sub : N → N → N;
  mul : N → N → N;
  div : N → N → option N;
  half : N;
  leb : N → N → bool;
  of_nat : nat → N
}.

(** Exact rationals.  A quotient by zero is NaN; the script divides by zero
    only where the dividend is zero as well (lemma [zero_range_zero_offset]
    below), which is [0/0 = NaN] on doubles too. *)
#[export] Instance exact : Num Q := {|
  zero := 0%Q;
  add := Qplus;
  sub := Qminus;
  mul := Qmult;
  div := λ a b, if Qeq_bool b 0 then None else Some (a / b)%Q;
  half := (1 # 2)%Q;
  leb := Qle_bool;
  of_nat := λ n, inject_Z (Z.of_nat n)
|}.

Fixpoint float_of_nat (n : nat) : float :=
  match n with
  | O => 0%float
  | S k => (float_of_nat k + 1)%float
  end.

(** IEEE-754 binary64, the [float64] of numpy. *)
#[export] Instance binary64 : Num float := {|
  zero := 0%float;
  add := PrimFloat.add;
  sub := PrimFloat.sub;
  mul := PrimFloat.mul;
  div := λ a b,
    let r := PrimFloat.div a b in
    if PrimFloat.is_nan r then None else Some r;
  half := 0x1p-1%float;
  leb := PrimFloat.leb;
  of_nat := float_of_nat
|}.

(** ** Series: the reductions and element-wise operations of pandas *)

Section series.
Context {N : Type} `{Num N}.

Definition cell_sub (a b : option N) : option N :=
  match a, b with
  | Some x, Some y => Some (sub x y)
  | _, _ => None
  end.

Definition cell_div (a b : option N) : option N :=
  match a, b with
  | Some x, Some y => div x y
  | _, _ => None
  end.

(** The values of a series that are not NaN, in row order. *)
Definition dropna (s : list (option N)) : list N := omap id s.

Definition nmin (a b : N) : N := if leb b a then b else a.
Definition nmax (a b : N) : N := if leb a b then b else a.

(** [Series.min()] and [Series.max()]: NaN is skipped ([skipna=True]), and
    a series with no value gives NaN. *)
Definition series_min (s : list (option N)) : option N :=
  match dropna s with
  | [] => None
  | x :: r => Some (foldl nmin x r)
  end.

Definition series_max (s : list (option N)) : option N :=
  match dropna s with
  | [] => None
  | x :: r => Some (foldl nmax x r)
  end.

(** The sum of the values, from the first to the last.  On exact numbers
    the order does not matter.  On doubles this is the order in which numpy
    adds fewer than eight values; it adds eight values or more pairwise,
    which can round differently, so what is evaluated on [binary64] in this
    file has fewer than eight values. *)
Definition nsum (l : list N) : N := foldl add zero l.

(** [Series.mean()], and one row of [DataFrame.mean(axis=1)]: the sum of the
    values that are not NaN over their count; [0/0], NaN, when there is
    none. *)
Definition nanmean (s : list (option N)) : option N :=
  let v := dropna s in div (nsum v) (of_nat (length v)).

Fixpoint insert_sorted (x : N) (l : list N) : list N :=
  match l with
  | [] => [x]
  | y :: r => if leb x y then x :: l else y :: insert_sorted x r
  end.

Definition sorted_values (l : list N) : list N := foldr insert_sorted [] l.

(** numpy's linear interpolation at [t = 1/2]: [b - (b - a) * (1 - t)]. *)
Definition lerp_half (a b : N) : N := sub b (mul (sub b a) half).

(** The 50th percentile of [describe()]: the middle order statistic of the
    values that are not NaN, or the interpolation of the two middle ones. *)
Definition quantile50 (s : list (option N)) : option N :=
  let v := sorted_values (dropna s) in
  let n := length v in
  let k := (n - 1) / 2 in
  if Nat.even n
  then match v !! k, v !! S k with
       | Some a, Some b => Some (lerp_half a b)
       | _, _ => None
       end
  else v !! k.

(** [(data[m] - data[m].min()) / (data[m].max() - data[m].min())] *)
Definition normalize (c : list (option N)) : list (option N) :=
  let lo := series_min c in
  let hi := series_max c in
  (λ x, cell_div (cell_sub x lo) (cell_sub hi lo)) <$> c.
End series.

(** ** Data frames *)

(** A frame has the text column [STATE] and named float columns, in column
    order.  The geometry of the GeoJSON file is read by none of the modelled
    statements and is left out; metric names range over the float columns. *)
Record DataFrame (N : Type) := {
  STATE : list string;
  cols : list (string * list (option N))
}.
Arguments STATE {N} _.
Arguments cols {N} _.

(** The entries of [describe()] that the script reads. *)
Record Summary (N : Type) := {
  s_mean : option N;
  s_p50 : option N;
  s_max : option N;
  s_min : option N
}.
Arguments s_mean {N} _.
Arguments s_p50 {N} _.
Arguments s_max {N} _.
Arguments s_min {N} _.

Inductive exn :=
  | KeyError (key : string).

Inductive result (A : Type) :=
  | Ok (a : A)
  | Raise (e : exn).
Arguments Ok {A} _.
Arguments Raise {A} _.

Section frames.
Context {N : Type} `{Num N}.

Definition columns := list (string * list (option N)).

(** [df[name]] *)
Fixpoint get_col (name : string) (cs : columns) : option (list (option N)) :=
  match cs with
  | [] => None
  | (k, c) :: r => if String.eqb k name then Some c else get_col name r
  end.

(** [df[name] = c]: an existing column is replaced where it stands, a new
    one is added last. *)
Fixpoint set_col (name : string) (c : list (option N)) (cs : columns) : columns :=
  match cs with
  | [] => [(name, c)]
  | (k, v) :: r =>
      if String.eqb k name then (name, c) :: r else (k, v) :: set_col name c r
  end.

Definition nrows (d : DataFrame N) : nat := length (STATE d).

(** Every column has one cell per row. *)
Definition well_formed (d : DataFrame N) : Prop :=
  Forall (λ kc, length kc.2 = nrows d) (cols d).

(** The cells of row [i], in column order. *)
Definition row_values (cs : columns) (i : nat) : list (option N) :=
  (λ kc, default None (kc.2 !! i)) <$> cs.

(** [normalized_scores.mean(axis=1)] aligned on the [n] rows of [data]. *)
Definition mean_axis1 (n : nat) (cs : columns) : list (option N) :=
  (λ i, nanmean (row_values cs i)) <$> seq 0 n.

(** [df.take(indexer)] *)
Definition take_rows (ix : list nat) (d : DataFrame N) : DataFrame N :=
  {| STATE := (λ i, default EmptyString (STATE d !! i)) <$> ix;
     cols := (λ kc, (kc.1, (λ i, default None (kc.2 !! i)) <$> ix)) <$> cols d |}.

(** [df.head(n)] *)
Definition head (n : nat) (d : DataFrame N) : DataFrame N :=
  {| STATE := take n (STATE d);
     cols := (λ kc, (kc.1, take n kc.2)) <$> cols d |}.

(** The (state, value) pairs of a frame for one of its columns. *)
Definition pairs (name : string) (d : DataFrame N) : list (string * option N) :=
  zip (STATE d) (default [] (get_col name (cols d))).

(** [Series.describe()], restricted to the entries read. *)
Definition describe (c : list (option N)) : Summary N :=
  {| s_mean := nanmean c;
     s_p50 := quantile50 c;
     s_max := series_max c;
     s_min := series_min c |}.
End frames.

(** ** Sorting

    [DataFrame.sort_values(by, ascending=False)] is called with the default
    [kind='quicksort'] and [na_position='last'].  pandas computes the row
    order in [nargsort]: the NaN rows are set apart, the other values are
    reversed, sorted in ascending order by numpy's [argsort], and the order
    found is reversed again; the NaN rows follow in row order.

    numpy's [argsort] is a parameter: pandas documents that only
    [kind='mergesort'] and [kind='stable'] are stable, so the order of equal
    values under the default kind is whatever the algorithm gives.  What is
    known of it is [argsort_ok], on the lists that pandas passes to it, which
    hold no NaN; [stable] is the further property of a stable kind, and
    [stable_argsort] is one such algorithm. *)

Section sorting.
Context {N : Type} `{Num N}.

Definition cell_at (items : list (option N)) (i : nat) : option N :=
  default None (items !! i).

Definition key_leb (l : list N) (i j : nat) : bool :=
  match l !! i, l !! j with
  | Some a, Some b => leb a b
  | _, _ => false
  end.

(** [x] is ordered with itself: every exact number is, and every double but
    the NaN, which no comparison holds of. *)
Definition number (x : N) : Prop := leb x x = true.

(** The column holds no NaN as a number: its NaN cells are [None]. *)
Definition numbers (c : list (option N)) : Prop := Forall number (dropna c).

(** The indices of [l], each once, their values in ascending order, when
    [l] holds no NaN. *)
Definition argsort_ok (argsort : list N → list nat) : Prop :=
  ∀ l, Forall number l →
       argsort l ≡ₚ seq 0 (length l) ∧
       StronglySorted (λ i j, key_leb l i j = true) (argsort l).

(** Equal values keep the order of their indices. *)
Definition stable (argsort : list N → list nat) : Prop :=
  ∀ l, StronglySorted (λ i j, key_leb l j i = true → i < j) (argsort l).

Fixpoint insert_idx (l : list N) (i : nat) (ix : list nat) : list nat :=
  match ix with
  | [] => [i]
  | j :: r => if key_leb l i j then i :: ix else j :: insert_idx l i r
  end.

(** Insertion sort of the indices, from the last to the first. *)
Definition stable_argsort (l : list N) : list nat :=
  foldr (insert_idx l) [] (seq 0 (length l)).

(** The rows that have a value, and those that have none, in row order. *)
Definition non_nan_rows (items : list (option N)) : list nat :=
  filter (λ i, is_Some (cell_at items i)) (seq 0 (length items)).

Definition nan_rows (items : list (option N)) : list nat :=
  filter (λ i, ¬ is_Some (cell_at items i)) (seq 0 (length items)).

(** The order of two cells, false when one is NaN. *)
Definition cell_leb (a b : option N) : bool :=
  match a, b with
  | Some x, Some y => leb x y
  | _, _ => false
  end.

(** Row [i] of a table as a (state, value) pair for the column [c]. *)
Definition row_pair (d : DataFrame N) (c : list (option N)) (i : nat)
    : string * option N :=
  (default EmptyString (STATE d !! i), cell_at c i).

Variable argsort : list N → list nat.

Definition nargsort_desc (items : list (option N)) : list nat :=
  let non_nans := reverse (dropna items) in
  let non_nan_idx := reverse (non_nan_rows items) in
  let nan_idx := nan_rows items in
  let indexer := (λ k, default 0 (non_nan_idx !! k)) <$> argsort non_nans in
  reverse indexer ++ nan_idx.

(** [df.sort_values(by=name, ascending=False)] *)
Definition sort_values (name : string) (d : DataFrame N) : result (DataFrame N) :=
  match get_col name (cols d) with
  | None => Raise (KeyError name)
  | Some c => Ok (take_rows (nargsort_desc c) d)
  end.
End sorting.

(** ** The statements of the script

    The table is one object: [merged_map] at top level is the object that
    [get_priority_states] receives as [data], so a computation is a function
    of the state of that object, returning its state afterwards and a value
    or the exception raised.  Frames built by a statement are new values. *)

Section script.
Context {N : Type} `{Num N}.
Variable argsort : list N → list nat.

Definition M (A : Type) : Type := DataFrame N → DataFrame N * result A.

Definition ret {A} (a : A) : M A := λ d, (d, Ok a).

Definition raise {A} (e : exn) : M A := λ d, (d, Raise e).

Definition bind {A B} (c : M A) (k : A → M B) : M B :=
  λ d, match c d with
       | (d', Ok a) => k a d'
       | (d', Raise e) => (d', Raise e)
       end.

Notation "'let!' x ':=' c 'in' k" := (bind c (λ x, k))
  (at level 10, x name, c at level 100, k at level 200, only parsing).

Definition lift {A} (r : result A) : M A := λ d, (d, r).

(** [data[name]] for the name of a metric: a [KeyError] when there is no such
    column.  The other columns of the table ([STATE], the geometry, text) are
    no metrics: see [describe_loaded] for the table as loaded. *)
Definition getitem (name : string) : M (list (option N)) :=
  λ d, match get_col name (cols d) with
       | Some c => (d, Ok c)
       | None => (d, Raise (KeyError name))
       end.

(** [data[name] = c]: the object is updated in place. *)
Definition setitem (name : string) (c : list (option N)) : M unit :=
  λ d, ({| STATE := STATE d; cols := set_col name c (cols d) |}, Ok tt).

Definition index : M nat := λ d, (d, Ok (nrows d)).

(** [data[['STATE', name]]]: a new frame of the two columns. *)
Definition select (name : string) : M (DataFrame N) :=
  λ d, match get_col name (cols d) with
       | Some c => (d, Ok {| STATE := STATE d; cols := [(name, c)] |})
       | None => (d, Raise (KeyError name))
       end.

(** [data[['STATE', name]].sort_values(by=name, ascending=False).head(n)] *)
Definition top_by (n : nat) (name : string) : M (DataFrame N) :=
  let! sel := select name in
  let! sorted := lift (sort_values argsort name sel) in
  ret (head n sorted).

(** Lines 73-76. *)
Definition rankings (metric : string) : M (DataFrame N) := top_by 10 metric.

(** Line 82. *)
Definition stats (metric : string) : M (Summary N) :=
  let! c := getitem metric in
  ret (describe c).

(** The loop of lines 105-106, on the local frame [normalized_scores]. *)
Fixpoint normalize_each (metrics : list string) (normalized_scores : @columns N)
    : M (@columns N) :=
  match metrics with
  | [] => ret normalized_scores
  | m :: rest =>
      let! c := getitem m in
      normalize_each rest (set_col m (normalize c) normalized_scores)
  end.

(** Lines 102-112. *)
Definition get_priority_states (metrics : list string) : M (DataFrame N) :=
  let! normalized_scores := normalize_each metrics [] in
  let! n := index in
  let! _ := setitem "aggregate_score" (mean_axis1 n normalized_scores) in
  top_by 5 "aggregate_score".

(** Line 98. *)
Definition metrics_list : list string :=
  ["OBESITY_CrudePrev"; "DIABETES_CrudePrev"; "BPHIGH_CrudePrev";
   "PCT_LACCESS_POP15"; "PCT_LACCESS_SNAP15"].

(** Line 138: [data[data['STATE'].isin([...])]]. *)
Definition impact_states : list string := ["MS"; "WV"; "LA"; "DE"; "AL"].

Definition isin_rows (d : DataFrame N) : list nat :=
  filter (λ i, default EmptyString (STATE d !! i) ∈ impact_states) (seq 0 (nrows d)).

Definition impact_cohort : M (DataFrame N) :=
  λ d, (d, Ok (take_rows (isin_rows d) d)).
End script.

(** ** The aggregate score, row by row

    The score as the specification words it, to be compared with the
    column-wise computation of [get_priority_states]: the normalised value of
    a row for a metric, the normalised values a row has, and their mean. *)

Section row_wise.
Context {N : Type} `{Num N}.

(** [(value(row, m) - min_m) / (max_m - min_m)], the minimum and maximum
    taken over the rows that have a value; NaN when the row has none, and
    when the quotient is NaN. *)
Definition spec_normalized (c : list (option N)) (i : nat) : option N :=
  match cell_at c i, series_min c, series_max c with
  | Some v, Some lo, Some hi => div (sub v lo) (sub hi lo)
  | _, _, _ => None
  end.

(** The normalised values of row [i] that are numbers, in metric order. *)
Definition spec_available (d : DataFrame N) (metrics : list string) (i : nat)
    : list N :=
  omap (λ m, get_col m (cols d) ≫= λ c, spec_normalized c i) metrics.

(** Their arithmetic mean, NaN when there is none. *)
Definition spec_score (d : DataFrame N) (metrics : list string) (i : nat)
    : option N :=
  let terms := spec_available d metrics i in
  div (nsum terms) (of_nat (length terms)).

Definition spec_aggregateScore (d : DataFrame N) (metrics : list string)
    : list (option N) :=
  (λ i, spec_score d metrics i) <$> seq 0 (nrows d).

(** The number of the metrics for which row [i] has a value. *)
Definition defined_count (d : DataFrame N) (metrics : list string) (i : nat)
    : nat :=
  length (filter (λ m, is_Some (get_col m (cols d) ≫= λ c, cell_at c i)) metrics).

(** The score column of a frame. *)
Definition aggregate_score (d : DataFrame N) : option (list (option N)) :=
  get_col "aggregate_score" (cols d).
End row_wise.

(** ** The state left by [get_priority_states] *)

Section effect.
Context {N : Type} `{Num N}.

(** [m] is a column of [d]. *)
Definition present (d : DataFrame N) (m : string) : Prop :=
  is_Some (get_col m (cols d)).

(** The frame [normalized_scores] after the loop over [metrics], started
    from [ns]. *)
Definition loop_result (d : DataFrame N) (metrics : list string) (ns : @columns N)
    : @columns N :=
  foldl (λ acc m, set_col m (normalize (default [] (get_col m (cols d)))) acc)
        ns metrics.

(** The table after line 107. *)
Definition with_scores (d : DataFrame N) (metrics : list string) : DataFrame N :=
  {| STATE := STATE d;
     cols := set_col "aggregate_score"
               (mean_axis1 (nrows d) (loop_result d metrics [])) (cols d) |}.
End effect.

(** ** The aggregate score in exact arithmetic, as the specification words it *)

(** [min_m] and [max_m]: the least and the greatest of the values of the
    rows that have one. *)
Definition least (c : list (option Q)) (lo : Q) : Prop :=
  Some lo ∈ c ∧ ∀ v, Some v ∈ c → (lo <= v)%Q.

Definition greatest (c : list (option Q)) (hi : Q) : Prop :=
  Some hi ∈ c ∧ ∀ v, Some v ∈ c → (v <= hi)%Q.

(** What the metric of column [c] gives to the mean of row [i]: the term
    [(value - min) / (max - min)] when the row has a value and the maximum
    differs from the minimum, and no term otherwise. *)
Inductive term_of (c : list (option Q)) (i : nat) : option Q → Prop :=
  | term_value v lo hi t :
      c !! i = Some (Some v) → least c lo → greatest c hi → ¬ (lo == hi)%Q →
      (t == (v - lo) / (hi - lo))%Q → term_of c i (Some t)
  | term_no_value :
      c !! i = Some None → term_of c i None
  | term_no_range v lo hi :
      c !! i = Some (Some v) → least c lo → greatest c hi → (lo == hi)%Q →
      term_of c i None.

(** The terms of row [i], one for each metric, in the order of the metrics. *)
Definition terms_of (d : DataFrame Q) (metrics : list string) (i : nat)
    (terms : list (option Q)) : Prop :=
  Forall2 (λ m t, ∃ c, get_col m (cols d) = Some c ∧ term_of c i t) metrics terms.

Definition Qsum (l : list Q) : Q := foldr Qplus 0%Q l.

(** The arithmetic mean of the terms that are numbers, NaN when there is
    none. *)
Definition mean_of (terms : list (option Q)) (score : option Q) : Prop :=
  match omap id terms with
  | [] => score = None
  | ts => ∃ s, score = Some s ∧
               (s == Qsum ts / inject_Z (Z.of_nat (length ts)))%Q
  end.

(** The metric has a value in row [i]. *)
Definition defined (d : DataFrame Q) (i : nat) (m : string) : Prop :=
  ∃ c v, get_col m (cols d) = Some c ∧ c !! i = Some (Some v).

(** The maximum of the metric differs from its minimum. *)
Definition has_range (d : DataFrame Q) (m : string) : Prop :=
  ∃ c lo hi, get_col m (cols d) = Some c ∧ least c lo ∧ greatest c hi ∧
             ¬ (lo == hi)%Q.

(** ** Tables used as examples *)

(** Three rows with one metric. *)
Definition three_rows : DataFrame Q :=
  {| STATE := ["A"; "B"; "C"];
     cols := [("metric1", [Some 10%Q; Some 20%Q; Some 30%Q])] |}.

(** A metric without any value. *)
Definition no_data : DataFrame Q :=
  {| STATE := ["A"; "B"];
     cols := [("m1", [None; None])] |}.

(** Three rows of the double nearest to 0.1. *)
Definition tenths : DataFrame float :=
  {| STATE := ["A"; "B"; "C"];
     cols := [("m1", [Some 0x1.999999999999ap-4%float;
                      Some 0x1.999999999999ap-4%float;
                      Some 0x1.999999999999ap-4%float])] |}.

(** Two rows, two metrics in opposite order. *)
Definition crossed : DataFrame Q :=
  {| STATE := ["A"; "B"];
     cols := [("m1", [Some 0%Q; Some 100%Q]); ("m2", [Some 100%Q; Some 0%Q])] |}.

(** Two rows with the same value for [m1] and different values for [m2]. *)
Definition flat_metric : DataFrame Q :=
  {| STATE := ["A"; "B"];
     cols := [("m1", [Some 5%Q; Some 5%Q]); ("m2", [Some 0%Q; Some 1%Q])] |}.

(** A table that has a column named [aggregate_score]. *)
Definition rescored : DataFrame Q :=
  {| STATE := ["A"; "B"; "C"];
     cols := [("aggregate_score", [Some 0%Q; Some 10%Q; Some 5%Q]);
              ("m2", [Some 0%Q; Some 5%Q; Some 10%Q])] |}.

(** The value returned, when there is one. *)
Definition result_value {A : Type} (r : result A) : option A :=
  match r with
  | Ok a => Some a
  | Raise _ => None
  end.

(** A table of exact numbers with every fraction in lowest terms, to display
    computed tables. *)
Definition reduced (d : DataFrame Q) : DataFrame Q :=
  {| STATE := STATE d;
     cols := (λ kc : string * list (option Q),
                (kc.1, (λ x : option Q, Qred <$> x) <$> kc.2)) <$> cols d |}.

(** Three rows of doubles. *)
Definition three_doubles : DataFrame float :=
  {| STATE := ["A"; "B"; "C"];
     cols := [("metric1", [Some 10%float; Some 20%float; Some 30%float])] |}.

(** Two rows of doubles whose difference overflows: 1e308 and its
    opposite. *)
Definition overflowing : DataFrame float :=
  {| STATE := ["A"; "B"];
     cols := [("m1", [Some (-0x1.1ccf385ebc8a0p+1023)%float;
                      Some 0x1.1ccf385ebc8a0p+1023%float])] |}.

(** Two rows, the second without a value. *)
Definition with_gap : DataFrame Q :=
  {| STATE := ["A"; "B"];
     cols := [("m1", [Some 1%Q; None])] |}.

(** Six states with the five metrics of [metrics_list], in per cent. *)
Definition six_states : DataFrame Q :=
  {| STATE := ["MS"; "WV"; "LA"; "DE"; "AL"; "KY"];
     cols :=
       [("OBESITY_CrudePrev",
         [Some 40%Q; Some 39%Q; Some 38%Q; Some 34%Q; Some 37%Q; Some 41%Q]);
        ("DIABETES_CrudePrev",
         [Some 15%Q; Some 16%Q; Some 14%Q; Some 12%Q; Some 13%Q; Some 14%Q]);
        ("BPHIGH_CrudePrev",
         [Some 44%Q; Some 43%Q; Some 40%Q; Some 36%Q; Some 42%Q; Some 41%Q]);
        ("PCT_LACCESS_POP15",
         [Some 27%Q; Some 19%Q; Some 26%Q; Some 20%Q; Some 24%Q; Some 22%Q]);
        ("PCT_LACCESS_SNAP15",
         [Some 5%Q; Some 4%Q; Some 6%Q; Some 2%Q; Some 3%Q; Some 4%Q])] |}.

(** No two indices of [l] have equal values. *)
Definition distinct_keys {N : Type} `{Num N} (l : list N) : bool :=
  forallb
    (λ i, forallb (λ j, Nat.eqb i j || negb (key_leb l i j && key_leb l j i))
            (seq 0 (length l)))
    (seq 0 (length l)).

(** ** The names of the script

    [dashboard.py] is one module whose statements run top to bottom in one
    namespace.  Which names a statement reads, in which order, and which it
    binds is what the script says; what the operations on the values do (a
    call, an attribute, a subscript, an operator) is left to an oracle, which
    also tells the outcome of a test and the length of an iteration.  A name
    that is read and not bound raises [NameError]. *)

#[local] Set Warnings "-register-all".

Inductive expr :=
  | Name (id : string)
  | Const
  | Attribute (value : expr) (attr : string)
  | Subscript (value : expr) (key : expr)
  | Call (func : expr) (args : list expr)
  | Op (operands : list expr).

Inductive stmt :=
  | Import (name : string)
  | Def (name : string)
  | Assign (targets : list string) (value : expr)
  | Store (value : expr) (target : expr) (key : expr)
  | ExprStmt (value : expr)
  | With (context : expr) (body : list (nat * stmt))
  | For (targets : list string) (iter : expr) (body : list (nat * stmt))
  | If (test : expr) (body : list (nat * stmt)) (orelse : list (nat * stmt)).

(** [OtherException] is whatever an operation raises. *)
Inductive exception :=
  | NameError (id : string)
  | OtherException.

Inductive outcome :=
  | Finished (ns : list string)
  | Raised (line : nat) (e : exception).

Record oracle := {
  fails : nat → expr → bool;
  truth : nat → expr → bool;
  iterations : nat → expr → nat
}.

Definition bound (id : string) (ns : list string) : bool :=
  existsb (String.eqb id) ns.

(** Python evaluates the function before the arguments, the arguments from
    left to right, and a subscripted value before its key. *)
Fixpoint eval (o : oracle) (ns : list string) (line : nat) (e : expr)
    : option exception :=
  let eval_all :=
    fix eval_all (es : list expr) : option exception :=
      match es with
      | [] => None
      | e' :: rest =>
          match eval o ns line e' with
          | Some x => Some x
          | None => eval_all rest
          end
      end in
  let operation := if fails o line e then Some OtherException else None in
  match e with
  | Name id => if bound id ns then None else Some (NameError id)
  | Const => None
  | Attribute value _ =>
      match eval o ns line value with
      | Some x => Some x
      | None => operation
      end
  | Subscript value key =>
      match eval_all [value; key] with
      | Some x => Some x
      | None => operation
      end
  | Call func args =>
      match eval_all (func :: args) with
      | Some x => Some x
      | None => operation
      end
  | Op operands =>
      match eval_all operands with
      | Some x => Some x
      | None => operation
      end
  end.

(** Unpacking a value into several targets is an operation of its own. *)
Definition unpacked (targets : list string) (value : expr) : expr :=
  match targets with
  | [_] => value
  | _ => Op [value]
  end.

(** Entering a [with] block, iterating and testing a value are operations
    too.  An exception raised in the body of a [with] or a [for] leaves the
    block: the containers of streamlit do not suppress it. *)
Fixpoint exec (o : oracle) (ns : list string) (line : nat) (s : stmt) : outcome :=
  let block :=
    fix block (ns : list string) (body : list (nat * stmt)) : outcome :=
      match body with
      | [] => Finished ns
      | (l, s') :: rest =>
          match exec o ns l s' with
          | Finished ns' => block ns' rest
          | Raised l' x => Raised l' x
          end
      end in
  let after (e : expr) (k : outcome) : outcome :=
    match eval o ns line e with
    | Some x => Raised line x
    | None => k
    end in
  match s with
  | Import name =>
      if fails o line Const then Raised line OtherException
      else Finished (name :: ns)
  | Def name => Finished (name :: ns)
  | Assign targets value => after (unpacked targets value) (Finished (targets ++ ns))
  | Store value target key => after (Op [value; target; key]) (Finished ns)
  | ExprStmt value => after value (Finished ns)
  | With context body => after (Op [context]) (block ns body)
  | For targets iter body =>
      after (Op [iter])
        ((fix rounds (n : nat) (ns : list string) : outcome :=
            match n with
            | O => Finished ns
            | S n' =>
                match block (targets ++ ns) body with
                | Finished ns' => rounds n' ns'
                | Raised l' x => Raised l' x
                end
            end) (iterations o line iter) ns)
  | If test body orelse =>
      after (Op [test])
        (if truth o line test then block ns body else block ns orelse)
  end.

Fixpoint run (o : oracle) (ns : list string) (program : list (nat * stmt)) : outcome :=
  match program with
  | [] => Finished ns
  | (line, s) :: rest =>
      match exec o ns line s with
      | Finished ns' => run o ns' rest
      | Raised l x => Raised l x
      end
  end.

(** The names a statement can bind. *)
Fixpoint binds (s : stmt) : list string :=
  let all :=
    fix all (body : list (nat * stmt)) : list string :=
      match body with
      | [] => []
      | (_, s') :: rest => binds s' ++ all rest
      end in
  match s with
  | Import name | Def name => [name]
  | Assign targets _ => targets
  | Store _ _ _ | ExprStmt _ => []
  | With _ body => all body
  | For targets _ body => targets ++ all body
  | If _ body orelse => all body ++ all orelse
  end.

Definition bound_names (program : list (nat * stmt)) : list string :=
  concat ((λ ls, binds ls.2) <$> program).

Definition method (value : expr) (name : string) (args : list expr) : expr :=
  Call (Attribute value name) args.

(** [st.metric(label, f"{stats[key]:.1f}%")] in a column. *)
Definition show_stat (line : nat) (column : string) : nat * stmt :=
  (line, With (Name column)
     [(S line, ExprStmt (method (Name "st") "metric"
                           [Const; Op [Subscript (Name "stats") Const]]))]).

(** A dictionary of the means of columns of [priority_states]. *)
Definition means_of (columns : nat) : expr :=
  Op (replicate columns
        (method (Subscript (Name "priority_states") Const) "mean" [])).

(** [for a, b in d.items(): st.metric(a, f"{b:.1f}%")] *)
Definition show_items (line : nat) (a b d : string) : nat * stmt :=
  (line, For [a; b] (method (Name d) "items" [])
     [(S line, ExprStmt (method (Name "st") "metric"
                           [Name a; Op [Name b]]))]).

(** The builtins that the script reads. *)
Definition builtins : list string := ["list"; "str"; "Exception"].

Definition line_114 : stmt :=
  Assign ["priority_states"]
    (Call (Name "get_priority_states")
       [Name "merged_map_extended"; Name "metrics_list"]).

Definition line_138 : stmt :=
  Assign ["priority_states"]
    (Subscript (Name "merged_map_extended")
       (method (Subscript (Name "merged_map_extended") Const) "isin" [Const])).

(** Lines 1-112. *)
Definition before_priority_states : list (nat * stmt) :=
  [(1, Import "st"); (2, Import "components"); (3, Import "gpd");
   (4, Import "pd"); (5, Import "boto3"); (6, Import "Config");
   (8, Assign ["AWS_ACCESS_KEY"]
         (Subscript (Attribute (Name "st") "secrets") Const));
   (9, Assign ["AWS_SECRET_KEY"]
         (Subscript (Attribute (Name "st") "secrets") Const));
   (10, Assign ["BUCKET_NAME"]
          (Subscript (Attribute (Name "st") "secrets") Const));
   (12, Assign ["s3"]
          (method (Name "boto3") "client"
             [Const; Name "AWS_ACCESS_KEY"; Name "AWS_SECRET_KEY";
              Call (Name "Config") [Const]]));
   (18, Def "load_map_from_s3");
   (28, Def "load_data_from_s3");
   (39, ExprStmt (method (Name "st") "set_page_config" [Const]));
   (40, ExprStmt (method (Name "st") "title" [Const]));
   (43, Assign ["merged_map"] (Call (Name "load_data_from_s3") []));
   (45, Assign ["metrics"] Const);
   (54, Assign ["col1"; "col2"] (method (Name "st") "columns" [Const]));
   (56, With (Name "col1")
      [(57, Assign ["metric"]
              (method (Name "st") "selectbox"
                 [Const;
                  Call (Name "list") [method (Name "metrics") "keys" []];
                  Const]));
       (64, Assign ["html_data"] (Call (Name "load_map_from_s3") [Name "metric"]));
       (65, If (Name "html_data")
              [(66, ExprStmt (method (Name "components") "html"
                                [Name "html_data"; Const]))]
              [(68, ExprStmt (method (Name "st") "error" [Const]))])]);
   (70, With (Name "col2")
      [(72, ExprStmt (method (Name "st") "header" [Const]));
       (73, Assign ["rankings"]
              (method
                 (method (Subscript (Name "merged_map") (Op [Const; Name "metric"]))
                    "sort_values" [Name "metric"; Const])
                 "head" [Const]));
       (77, Store
              (Op [method
                     (method (Subscript (Name "rankings") (Name "metric"))
                        "round" [Const])
                     "astype" [Name "str"];
                   Const])
              (Name "rankings") (Name "metric"));
       (78, ExprStmt (method (Name "st") "dataframe" [Name "rankings"; Const]));
       (81, ExprStmt (method (Name "st") "header" [Const]));
       (82, Assign ["stats"]
              (method (Subscript (Name "merged_map") (Name "metric"))
                 "describe" []));
       (83, Assign ["col2_1"; "col2_2"; "col2_3"; "col2_4"]
              (method (Name "st") "columns" [Const]));
       show_stat 84 "col2_1"; show_stat 86 "col2_2";
       show_stat 88 "col2_3"; show_stat 90 "col2_4"]);
   (94, ExprStmt (method (Name "st") "markdown" [Const]));
   (95, ExprStmt (method (Name "st") "header" [Const]));
   (98, Assign ["metrics_list"] Const);
   (102, Def "get_priority_states")].

(** Lines 117-125. *)
Definition priority_section : list (nat * stmt) :=
  [(117, Assign ["col_p1"; "col_p2"] (method (Name "st") "columns" [Const]));
   (118, With (Name "col_p1")
      [(119, ExprStmt (method (Name "st") "subheader" [Const]));
       (120, Assign ["priority_df"] (method (Name "priority_states") "copy" []));
       (121, Store
               (Op [method
                      (method (Op [Subscript (Name "priority_df") Const; Const])
                         "round" [Const])
                      "astype" [Name "str"];
                    Const])
               (Name "priority_df") Const);
       (122, ExprStmt (method (Name "st") "dataframe"
                         [Name "priority_df"; Const]))]);
   (123, With (Name "col_p2")
      [(124, ExprStmt (method (Name "st") "subheader" [Const]));
       (125, ExprStmt (method (Name "st") "write" [Const]))])].

(** Lines 130-174. *)
Definition impact_section : list (nat * stmt) :=
  [(130, ExprStmt (method (Name "st") "markdown" [Const]));
   (131, ExprStmt (method (Name "st") "header" [Const]));
   (134, Assign ["impact_col1"; "impact_col2"; "impact_col3"]
           (method (Name "st") "columns" [Const]));
   (136, With (Name "impact_col1")
      [(137, ExprStmt (method (Name "st") "subheader" [Const]));
       (138, line_138);
       (141, Assign ["food_metrics"] (means_of 3));
       show_items 146 "metric" "value" "food_metrics"]);
   (149, With (Name "impact_col2")
      [(150, ExprStmt (method (Name "st") "subheader" [Const]));
       (151, Assign ["demographics"] (means_of 6));
       show_items 159 "group" "value" "demographics"]);
   (163, With (Name "impact_col3")
      [(164, ExprStmt (method (Name "st") "subheader" [Const]));
       (165, Assign ["health_metrics"] (means_of 3));
       show_items 170 "metric" "value" "health_metrics"]);
   (174, ExprStmt (method (Name "st") "markdown" [Const]))].

Definition dashboard : list (nat * stmt) :=
  before_priority_states ++ [(114, line_114)] ++ priority_section
    ++ impact_section.

(** The oracle under which every operation succeeds, the map is shown and
    every dictionary has one item. *)
Definition quiet : oracle :=
  {| fails := λ _ _, false; truth := λ _ _, true; iterations := λ _ _, 1 |}.

(** Every name bound before the impact analysis, had the statements before it
    all run. *)
Definition names_before_impact : list string :=
  bound_names (before_priority_states ++ [(114, line_114)] ++ priority_section)
    ++ builtins.

(** Splits on the outcome of each operation that the run of a program
    reaches, in the order in which it reaches them. *)
Ltac oracle_cases f t :=
  repeat (lazy head;
          match goal with
          | |- context [f ?l ?e] => destruct (f l e)
          | |- context [t ?l ?e] => destruct (t l e)
          end).

(** ** The table as it is loaded

    [gpd.read_file] types a property of the GeoJSON file by its values.  A
    property that has numbers is a float64 column, in which a feature
    without a value has NaN.  A property that is null in every feature is,
    like a text property, a column of dtype object: it holds no number, and
    pandas does not treat it as a float column of NaN.  [floats] is the frame
    of the float columns; [objects] names the columns of dtype object other
    than [STATE]. *)

Record GeoDataFrame (N : Type) := {
  floats : DataFrame N;
  objects : list string
}.
Arguments floats {N} _.
Arguments objects {N} _.

(** [Series.describe()]: of a float column the entries count, mean, std,
    min, 25%, 50%, 75% and max, of which the script reads four; of a column
    of dtype object the entries count, unique, top and freq. *)
Inductive description (N : Type) :=
  | numeric (s : Summary N)
  | categorical.
Arguments numeric {N} _.
Arguments categorical {N}.

Section loaded.
Context {N : Type} `{Num N}.

Definition is_object (g : GeoDataFrame N) (name : string) : bool :=
  bool_decide (name = "STATE" ∨ name ∈ objects g).

(** Line 82: [merged_map[metric].describe()]. *)
Definition describe_loaded (g : GeoDataFrame N) (metric : string)
    : result (description N) :=
  match (stats metric (floats g)).2 with
  | Ok s => Ok (numeric s)
  | Raise e => if is_object g metric then Ok categorical else Raise e
  end.

(** [stats[key]]: a [KeyError] of the key when the summary has no such
    entry. *)
Definition entry (key : string) (field : Summary N → option N)
    (stats : description N) : result (option N) :=
  match stats with
  | numeric s => Ok (field s)
  | categorical => Raise (KeyError key)
  end.

(** Lines 82-91: the summary, and its entries in the order in which they are
    read. *)
Definition stats_read (g : GeoDataFrame N) (metric : string) : result (Summary N) :=
  match describe_loaded g metric with
  | Raise e => Raise e
  | Ok stats =>
      match entry "mean" s_mean stats with
      | Raise e => Raise e
      | Ok mean =>
          match entry "50%" s_p50 stats with
          | Raise e => Raise e
          | Ok median =>
              match entry "max" s_max stats with
              | Raise e => Raise e
              | Ok maximum =>
                  match entry "min" s_min stats with
                  | Raise e => Raise e
                  | Ok minimum =>
                      Ok {| s_mean := mean; s_p50 := median;
                            s_max := maximum; s_min := minimum |}
                  end
              end
          end
      end
  end.
End loaded.

(** ** The page

    What the script shows is the sequence of its calls of streamlit, and it
    stops at the first exception that no handler catches.  The services
    around the script are given: the S3 client, the decoder of the map
    document, the reader of the GeoJSON file, and the two ways in which a
    number is turned into text.  A service that raises gives the text of
    its exception, which is all that the handlers of the script read. *)

Record services (N : Type) := {
  object : Type;
  BUCKET_NAME : string;
  (** [s3.get_object(Bucket=..., Key=...)] *)
  get_object : string → string → string + object;
  (** [obj['Body'].read().decode('utf-8')] *)
  read_decode : object → string + string;
  (** [gpd.read_file(obj['Body'])] *)
  read_file : object → string + GeoDataFrame N;
  (** [.round(1).astype(str)] on a cell of a float column: its text, or
      [None] where the cell stays a missing value, as a NaN does in the
      versions of pandas that keep missing values in text columns *)
  round1_str : option N → option string;
  (** [f"{x:.1f}"] *)
  format_1f : option N → string
}.
Arguments object {N} _.
Arguments BUCKET_NAME {N} _.
Arguments get_object {N} _ _ _.
Arguments read_decode {N} _ _.
Arguments read_file {N} _ _.
Arguments round1_str {N} _ _.
Arguments format_1f {N} _ _.

Inductive event :=
  | st_set_page_config
  | st_title (text : string)
  | st_error (message : string)
  | st_columns (n : nat)
  | st_selectbox (options : list string)
  | components_html (document : string)
  | st_header (text : string)
  | st_subheader (text : string)
  | st_dataframe (rows : list (string * option string))
  | st_metric (label value : string)
  | st_markdown.

(** Subscripting [None] and rounding a column of dtype object raise
    [TypeError]; a frame raises [KeyError]. *)
Inductive uncaught :=
  | FrameError (e : exn)
  | TypeError.

Inductive step (A : Type) :=
  | Continue (a : A)
  | Stop (line : nat) (e : uncaught).
Arguments Continue {A} _.
Arguments Stop {A} _ _.

(** What has been shown, and the value or the exception. *)
Definition UI (A : Type) : Type := list event * step A.

#[export] Instance UI_ret : MRet UI := λ A a, ([], Continue a).

#[export] Instance UI_bind : MBind UI := λ A B k c,
  match c with
  | (shown, Continue a) => let (more, r) := k a in (shown ++ more, r)
  | (shown, Stop line e) => (shown, Stop line e)
  end.

Definition show (e : event) : UI unit := ([e], Continue tt).

(** Lines 45-51, in insertion order. *)
Definition metrics : list (string * string) :=
  [("OBESITY_CrudePrev", "Obesity Prevalence");
   ("DIABETES_CrudePrev", "Diabetes Prevalence");
   ("BPHIGH_CrudePrev", "High Blood Pressure");
   ("PCT_LACCESS_POP15", "Population with Low Food Access");
   ("PCT_LACCESS_SNAP15", "SNAP Recipients with Low Food Access")].

(** [if html_data:] is false for [None] and for the empty string. *)
Definition truthy (html_data : option string) : bool :=
  match html_data with
  | None | Some EmptyString => false
  | Some _ => true
  end.

(** The dictionaries of lines 141-168: the line, the label and the column of
    each item, in the order written.  The labels of one dictionary differ,
    so each item is one entry. *)
Definition food_metrics : list (nat * string * string) :=
  [(142, "Low Access Population", "PCT_LACCESS_POP15");
   (143, "SNAP Recipients", "PCT_LACCESS_SNAP15");
   (144, "Low Income Access", "PCT_LACCESS_LOWI15")].

Definition demographics : list (nat * string * string) :=
  [(152, "SNAP Recipients", "PCT_LACCESS_SNAP15");
   (153, "Low Income", "PCT_LACCESS_LOWI15");
   (154, "Seniors", "PCT_LACCESS_SENIORS15");
   (155, "White Population", "PCT_LACCESS_WHITE15");
   (156, "Black Population", "PCT_LACCESS_BLACK15");
   (157, "Hispanic Population", "PCT_LACCESS_HISP15")].

Definition health_metrics : list (nat * string * string) :=
  [(166, "Obesity Rate", "OBESITY_CrudePrev");
   (167, "Diabetes Rate", "DIABETES_CrudePrev");
   (168, "High BP Rate", "BPHIGH_CrudePrev")].

Section page.
Context {N : Type} `{Num N}.
Variable argsort : list N → list nat.
Variable env : services N.

(** Line 20: [f"maps/{metric}_map.html"]. *)
Definition map_key (metric : string) : string :=
  "maps/" +:+ metric +:+ "_map.html".

(** Lines 18-26. *)
Definition load_map_from_s3 (metric : string) : UI (option string) :=
  let key := map_key metric in
  match get_object env (BUCKET_NAME env) key with
  | inr obj =>
      match read_decode env obj with
      | inr document => mret (Some document)
      | inl e => show (st_error ("Error loading map: " +:+ e));; mret None
      end
  | inl e => show (st_error ("Error loading map: " +:+ e));; mret None
  end.

(** Lines 28-35. *)
Definition load_data_from_s3 : UI (option (GeoDataFrame N)) :=
  match get_object env (BUCKET_NAME env) "data/merged_map_extended.geojson" with
  | inr obj =>
      match read_file env obj with
      | inr gdf => mret (Some gdf)
      | inl e => show (st_error ("Error loading data: " +:+ e));; mret None
      end
  | inl e => show (st_error ("Error loading data: " +:+ e));; mret None
  end.

(** An operation on a frame, or on [None], at [line]. *)
Definition on_frame {A} (line : nat) (merged_map : option (DataFrame N))
    (operation : DataFrame N → DataFrame N * result A) : UI A :=
  match merged_map with
  | None => ([], Stop line TypeError)
  | Some frame =>
      match (operation frame).2 with
      | Ok a => mret a
      | Raise e => ([], Stop line (FrameError e))
      end
  end.

(** [merged_map[...]] at [line]: [None] cannot be subscripted. *)
Definition subscripted (line : nat) (merged_map : option (GeoDataFrame N))
    : UI (GeoDataFrame N) :=
  match merged_map with
  | None => ([], Stop line TypeError)
  | Some g => mret g
  end.

(** An exception of a frame at [line] stops the script. *)
Definition raising {A} (line : nat) (r : result A) : UI A :=
  match r with
  | Ok a => mret a
  | Raise e => ([], Stop line (FrameError e))
  end.

(** Lines 73-76 on the loaded table, for a metric of the select box: the
    ranking of a float column.  A column of dtype object is sorted as well;
    its ranking is [None] here, as line 77 fails on it. *)
Definition rankings_loaded (g : GeoDataFrame N) (metric : string)
    : result (option (DataFrame N)) :=
  match (rankings argsort metric (floats g)).2 with
  | Ok top => Ok (Some top)
  | Raise e => if bool_decide (metric ∈ objects g) then Ok None else Raise e
  end.

(** Line 77 on a float column: the text of each cell with a per cent sign,
    a missing value staying one. *)
Definition as_percent (metric : string) (rankings : DataFrame N)
    : list (string * option string) :=
  prod_map id (λ x, (λ text, text +:+ "%") <$> round1_str env x)
    <$> pairs metric rankings.

(** Line 77: [.round(1)] raises [TypeError] on a column of dtype object. *)
Definition line_77 (metric : string) (top : option (DataFrame N))
    : UI (list (string * option string)) :=
  match top with
  | Some rankings => mret (as_percent metric rankings)
  | None => ([], Stop 77 TypeError)
  end.

(** Lines 64-68. *)
Definition map_block (metric : string) : UI unit :=
  html_data ← load_map_from_s3 metric;
  if truthy html_data
  then show (components_html (default EmptyString html_data))
  else show (st_error "Unable to load map data").

(** Lines 72-91. *)
Definition statistics_block (merged_map : option (GeoDataFrame N))
    (metric : string) : UI unit :=
  show (st_header "Top 10 States");;
  g ← subscripted 73 merged_map;
  top ← raising 73 (rankings_loaded g metric);
  rows ← line_77 metric top;
  show (st_dataframe rows);;
  show (st_header "Summary Statistics");;
  stats ← raising 82 (describe_loaded g metric);
  show (st_columns 4);;
  mean ← raising 85 (entry "mean" s_mean stats);
  show (st_metric "Mean" (format_1f env mean +:+ "%"));;
  median ← raising 87 (entry "50%" s_p50 stats);
  show (st_metric "Median" (format_1f env median +:+ "%"));;
  maximum ← raising 89 (entry "max" s_max stats);
  show (st_metric "Maximum" (format_1f env maximum +:+ "%"));;
  minimum ← raising 91 (entry "min" s_min stats);
  show (st_metric "Minimum" (format_1f env minimum +:+ "%")).

(** Lines 39-91, for the metric that the select box returns. *)
Definition selected_metric_page (metric : string) : UI unit :=
  show st_set_page_config;;
  show (st_title "Health and Food Access Dashboard");;
  merged_map ← load_data_from_s3;
  show (st_columns 2);;
  show (st_selectbox metrics.*1);;
  map_block metric;;
  statistics_block merged_map metric.

(** [{label: priority_states[name].mean(), ...}]: the items are evaluated
    in the order written. *)
Fixpoint dictionary (priority_states : DataFrame N)
    (items : list (nat * string * string)) : UI (list (string * option N)) :=
  match items with
  | [] => mret []
  | (line, label, name) :: rest =>
      c ← on_frame line (Some priority_states) (getitem name);
      entries ← dictionary priority_states rest;
      mret ((label, nanmean c) :: entries)
  end.

(** [for label, value in d.items(): st.metric(label, f"{value:.1f}%")] *)
Fixpoint show_means (d : list (string * option N)) : UI unit :=
  match d with
  | [] => mret tt
  | (label, value) :: rest =>
      show (st_metric label (format_1f env value +:+ "%"));;
      show_means rest
  end.

(** The first item of a dictionary whose column the frame does not have. *)
Fixpoint first_missing (frame : DataFrame N)
    (items : list (nat * string * string)) : option (nat * string) :=
  match items with
  | [] => None
  | (line, _, name) :: rest =>
      match get_col name (cols frame) with
      | None => Some (line, name)
      | Some _ => first_missing frame rest
      end
  end.

(** The calls of [st.metric] for a dictionary of means of the cohort. *)
Definition shown_means (data : DataFrame N)
    (items : list (nat * string * string)) : list event :=
  (λ item : nat * string * string,
     st_metric item.1.2
       (format_1f env
          (nanmean (default []
             (get_col item.2 (cols (take_rows (isin_rows data) data))))) +:+ "%"))
    <$> items.

(** Lines 130-174, on the table that [merged_map_extended] stands for. *)
Definition impact_analysis (data : DataFrame N) : UI unit :=
  show st_markdown;;
  show (st_header "Program Impact Analysis");;
  show (st_columns 3);;
  show (st_subheader "Food Access Impact");;
  priority_states ← on_frame 138 (Some data) impact_cohort;
  food ← dictionary priority_states food_metrics;
  show_means food;;
  show (st_subheader "Demographic Impact");;
  groups ← dictionary priority_states demographics;
  show_means groups;;
  show (st_subheader "Current Health Status");;
  health ← dictionary priority_states health_metrics;
  show_means health;;
  show st_markdown.
End page.

(** ** Columns compared as numbers *)

(** Two columns have NaN in the same rows and equal numbers elsewhere. *)
Definition same_cells (c c' : list (option Q)) : Prop :=
  Forall2 (option_Forall2 Qeq) c c'.

(** The metric is a column that has no value, or whose least and greatest
    values are equal. *)
Definition no_range (d : DataFrame Q) (m : string) : Prop :=
  ∃ c, get_col m (cols d) = Some c ∧
       (series_min c = None ∨
        ∃ lo hi, series_min c = Some lo ∧ series_max c = Some hi ∧ (lo == hi)%Q).

(** ** Services and tables used as examples *)

(** No object can be fetched. *)
Definition offline : services Q :=
  {| object := unit;
     BUCKET_NAME := "bucket";
     get_object := λ _ _, inl "no connection";
     read_decode := λ _, inl "no connection";
     read_file := λ _, inl "no connection";
     round1_str := λ _, None;
     format_1f := λ _, "nan" |}.

(** A loaded table: one metric with a gap, and one that is null in every
    feature. *)
Definition surveyed : GeoDataFrame Q :=
  {| floats := {| STATE := ["MS"; "WV"; "LA"];
                  cols := [("OBESITY_CrudePrev", [Some 40%Q; None; Some 38%Q])] |};
     objects := ["DIABETES_CrudePrev"] |}.

(** Every key holds a map document and the data file holds [surveyed]; a
    number is shown as [x], and a NaN stays a missing value. *)
Definition stocked : services Q :=
  {| object := string;
     BUCKET_NAME := "bucket";
     get_object := λ _ key, inr key;
     read_decode := λ _, inr "<html></html>";
     read_file := λ _, inr surveyed;
     round1_str := λ x, if x is Some _ then Some "x" else None;
     format_1f := λ x, if x is Some _ then "x" else "nan" |}.

(** One state that is none of the five of line 138, with the ten columns of
    the impact analysis. *)
Definition inland : DataFrame Q :=
  {| STATE := ["KY"];
     cols := (λ name : string, (name, [Some 1%Q])) <$>
               ["PCT_LACCESS_POP15"; "PCT_LACCESS_SNAP15"; "PCT_LACCESS_LOWI15";
                "PCT_LACCESS_SENIORS15"; "PCT_LACCESS_WHITE15";
                "PCT_LACCESS_BLACK15"; "PCT_LACCESS_HISP15";
                "OBESITY_CrudePrev"; "DIABETES_CrudePrev"; "BPHIGH_CrudePrev"] |}.

(** ** Checking the names of the script *)

(** The names that an expression reads. *)
Fixpoint reads (e : expr) : list string :=
  let all :=
    fix all (es : list expr) : list string :=
      match es with
      | [] => []
      | e' :: rest => reads e' ++ all rest
      end in
  match e with
  | Name id => [id]
  | Const => []
  | Attribute value _ => reads value
  | Subscript value key => all [value; key]
  | Call func args => all (func :: args)
  | Op operands => all operands
  end.

Definition reads_bound (ns : list string) (e : expr) : bool :=
  forallb (λ id, bound id ns) (reads e).

(** A check of a statement before it runs: [None] when a name that it reads
    may be unbound, otherwise names that are bound once it has finished.
    The body of a loop may not run and one branch only of a test runs, so
    the names they bind are not counted. *)
Fixpoint check (ns : list string) (s : stmt) : option (list string) :=
  let block :=
    fix block (ns : list string) (body : list (nat * stmt)) : option (list string) :=
      match body with
      | [] => Some ns
      | (_, s') :: rest =>
          match check ns s' with
          | Some ns' => block ns' rest
          | None => None
          end
      end in
  let reading (e : expr) (k : option (list string)) : option (list string) :=
    if reads_bound ns e then k else None in
  match s with
  | Import name | Def name => Some (name :: ns)
  | Assign targets value => reading value (Some (targets ++ ns))
  | Store value target key => reading (Op [value; target; key]) (Some ns)
  | ExprStmt value => reading value (Some ns)
  | With context body => reading context (block ns body)
  | For targets iter body =>
      reading iter (if block (targets ++ ns) body is Some _ then Some ns else None)
  | If test body orelse =>
      reading test (if block ns body is Some _
                  then if block ns orelse is Some _ then Some ns else None
                  else None)
  end.

Fixpoint check_all (ns : list string) (program : list (nat * stmt))
    : option (list string) :=
  match program with
  | [] => Some ns
  | (_, s) :: rest =>
      match check ns s with
      | Some ns' => check_all ns' rest
      | None => None
      end
  end.

(** The evaluation of expressions one after the other. *)
Fixpoint eval_list (o : oracle) (ns : list string) (line : nat) (es : list expr)
    : option exception :=
  match es with
  | [] => None
  | e :: rest =>
      match eval o ns line e with
      | Some x => Some x
      | None => eval_list o ns line rest
      end
  end.

(** The rounds of a loop. *)
Fixpoint rounds (o : oracle) (targets : list string) (body : list (nat * stmt))
    (n : nat) (ns : list string) : outcome :=
  match n with
  | O => Finished ns
  | S n' =>
      match run o (targets ++ ns) body with
      | Finished ns' => rounds o targets body n' ns'
      | Raised l x => Raised l x
      end
  end.

(** An evaluation that did not stop at an unbound name. *)
Definition quiet_or_other (r : option exception) : Prop :=
  r = None ∨ r = Some OtherException.

(** Every name bound in [ns] is bound in [ns']. *)
Definition extends (ns ns' : list string) : Prop :=
  ∀ id, bound id ns = true → bound id ns' = true.

(** The run did not stop at an unbound name. *)
Definition names_resolved (r : outcome) : Prop :=
  match r with
  | Finished _ => True
  | Raised _ x => x = OtherException
  end.

(** What the check promises of a statement. *)
Definition sound (s : stmt) : Prop :=
  ∀ ns ns1, check ns s = Some ns1 →
    extends ns ns1 ∧
    ∀ o line ns', extends ns ns' →
      match exec o ns' line s with
      | Finished ns2 => extends ns1 ns2
      | Raised _ x => x = OtherException
      end.

(** The global names that the bodies of [load_map_from_s3] (lines 20-25) and
    [load_data_from_s3] (lines 30-34) and the [format_func] of line 60 read,
    which are looked up when the function is called. *)
Definition load_map_from_s3_reads : list string :=
  ["s3"; "BUCKET_NAME"; "Exception"; "st"].

Definition load_data_from_s3_reads : list string :=
  ["s3"; "BUCKET_NAME"; "gpd"; "Exception"; "st"].

Definition format_func_reads : list string := ["metrics"].

(** Induction on expressions and statements, through the lists in them. *)

Section expr_induction.
Variable P : expr → Prop.
Hypothesis HName : ∀ id, P (Name id).
Hypothesis HConst : P Const.
Hypothesis HAttribute : ∀ value attr, P value → P (Attribute value attr).
Hypothesis HSubscript : ∀ value key, P value → P key → P (Subscript value key).
Hypothesis HCall : ∀ func args, P func → Forall P args → P (Call func args).
Hypothesis HOp : ∀ operands, Forall P operands → P (Op operands).

Fixpoint expr_nested_ind (e : expr) : P e :=
  let all :=
    fix all (es : list expr) : Forall P es :=
      match es with
      | [] => Forall_nil_2 P
      | e' :: rest => Forall_cons_2 P e' rest (expr_nested_ind e') (all rest)
      end in
  match e with
  | Name id => HName id
  | Const => HConst
  | Attribute value attr => HAttribute value attr (expr_nested_ind value)
  | Subscript value key =>
      HSubscript value key (expr_nested_ind value) (expr_nested_ind key)
  | Call func args => HCall func args (expr_nested_ind func) (all args)
  | Op operands => HOp operands (all operands)
  end.
End expr_induction.

Section stmt_induction.
Variable P : stmt → Prop.
Hypothesis HImport : ∀ name, P (Import name).
Hypothesis HDef : ∀ name, P (Def name).
Hypothesis HAssign : ∀ targets value, P (Assign targets value).
Hypothesis HStore : ∀ value target key, P (Store value target key).
Hypothesis HExprStmt : ∀ value, P (ExprStmt value).
Hypothesis HWith : ∀ context body,
  Forall (λ ls, P ls.2) body → P (With context body).
Hypothesis HFor : ∀ targets iter body,
  Forall (λ ls, P ls.2) body → P (For targets iter body).
Hypothesis HIf : ∀ test body orelse,
  Forall (λ ls, P ls.2) body → Forall (λ ls, P ls.2) orelse →
  P (If test body orelse).

Fixpoint stmt_nested_ind (s : stmt) : P s :=
  let all :=
    fix all (body : list (nat * stmt)) : Forall (λ ls, P ls.2) body :=
      match body with
      | [] => Forall_nil_2 _
      | (l, s') :: rest =>
          Forall_cons_2 (λ ls, P ls.2) (l, s') rest (stmt_nested_ind s') (all rest)
      end in
  match s with
  | Import name => HImport name
  | Def name => HDef name
  | Assign targets value => HAssign targets value
  | Store value target key => HStore value target key
  | ExprStmt value => HExprStmt value
  | With context body => HWith context body (all body)
  | For targets iter body => HFor targets iter body (all body)
  | If test body orelse => HIf test body orelse (all body) (all orelse)
  end.
End stmt_induction.


(** * Properties *)

(** ** Columns *)
Section column_facts.
Context {N : Type} `{Num N}.
Implicit Types (cs ns : @columns N) (c : list (option N)) (d : DataFrame N).

Lemma get_col_set_col_eq name c cs : get_col name (set_col name c cs) = Some c.
Proof.
  induction cs as [|[k v] r IH]; simpl.
  - by rewrite String.eqb_refl.
  - destruct (String.eqb k name) eqn:E; simpl.
    + by rewrite String.eqb_refl.
    + by rewrite E.
Qed.

Lemma get_col_set_col_ne name k c cs :
  k ≠ name → get_col k (set_col name c cs) = get_col k cs.
Proof.
  intros Hne. induction cs as [|[k' v] r IH]; simpl.
  - apply String.eqb_neq in Hne. rewrite String.eqb_sym in Hne. by rewrite Hne.
  - destruct (String.eqb k' name) eqn:E; simpl.
    + apply String.eqb_eq in E as ->.
      assert (String.eqb name k = false) as ->; [|done].
      apply String.eqb_neq. congruence.
    + by rewrite IH.
Qed.

Lemma set_col_set_col name c c' cs :
  set_col name c (set_col name c' cs) = set_col name c cs.
Proof.
  induction cs as [|[k v] r IH]; simpl.
  - by rewrite String.eqb_refl.
  - destruct (String.eqb k name) eqn:E; simpl.
    + by rewrite String.eqb_refl.
    + by rewrite E, IH.
Qed.

Lemma set_col_fresh name c cs :
  get_col name cs = None → set_col name c cs = cs ++ [(name, c)].
Proof.
  induction cs as [|[k v] r IH]; simpl; [done|].
  destruct (String.eqb k name); [done|]. intros. by rewrite IH.
Qed.


Lemma get_col_elem_of name c cs : get_col name cs = Some c → (name, c) ∈ cs.
Proof.
  induction cs as [|[k v] r IH]; simpl; [done|].
  destruct (String.eqb k name) eqn:E.
  - apply String.eqb_eq in E as ->. intros [= ->]. left.
  - intros. right. auto.
Qed.

End column_facts.

(** ** Running the statements *)

Section runs.
Context {N : Type} `{Num N}.
Variable argsort : list N → list nat.
Implicit Types (cs ns : @columns N) (c : list (option N)) (d : DataFrame N).



Lemma normalize_each_state metrics ns d : (normalize_each metrics ns d).1 = d.
Proof.
  revert ns. induction metrics as [|m r IH]; intros ns; simpl; [done|].
  unfold bind, getitem. destruct (get_col m (cols d)); [apply IH|done].
Qed.

Lemma normalize_each_ok metrics ns d :
  Forall (present d) metrics →
  normalize_each metrics ns d = (d, Ok (loop_result d metrics ns)).
Proof.
  revert ns. induction metrics as [|m r IH]; intros ns Hp; simpl; [done|].
  apply Forall_cons in Hp as [[c Hc] Hr].
  unfold bind, getitem. rewrite Hc. simpl. by apply IH.
Qed.

Lemma normalize_each_raise metrics ns d :
  ¬ Forall (present d) metrics →
  ∃ m, m ∈ metrics ∧ get_col m (cols d) = None ∧
       normalize_each metrics ns d = (d, Raise (KeyError m)).
Proof.
  revert ns. induction metrics as [|m r IH]; intros ns Hp; simpl.
  - destruct Hp. constructor.
  - unfold bind, getitem. destruct (get_col m (cols d)) as [c|] eqn:Hc.
    + destruct (IH (set_col m (normalize c) ns)) as (m' & ? & ? & ?).
      { intros Hr. apply Hp. constructor; [by eexists|done]. }
      exists m'. split_and!; [by right|done..].
    + exists m. split_and!; [by left|done..].
Qed.

Lemma loop_result_fresh d metrics ns :
  NoDup metrics →
  (∀ m, m ∈ metrics → get_col m ns = None) →
  loop_result d metrics ns =
    ns ++ ((λ m, (m, normalize (default [] (get_col m (cols d))))) <$> metrics).
Proof.
  revert ns. induction metrics as [|m r IH]; intros ns Hnd Hfresh; simpl.
  - by rewrite app_nil_r.
  - apply NoDup_cons in Hnd as [Hm Hnd].
    unfold loop_result in *. simpl. rewrite IH; [|done|].
    + rewrite set_col_fresh by (apply Hfresh; left).
      by rewrite <-app_assoc.
    + intros m' Hm'. rewrite get_col_set_col_ne; [apply Hfresh; by right|].
      intros ->. done.
Qed.

Lemma top_by_state n name d : (top_by argsort n name d).1 = d.
Proof.
  unfold top_by, bind, select, lift, ret.
  destruct (get_col name (cols d)); [|done].
  unfold sort_values. simpl. by rewrite String.eqb_refl.
Qed.

Lemma stats_state metric d : (stats metric d).1 = d.
Proof. unfold stats, bind, getitem. by destruct (get_col metric (cols d)). Qed.


Lemma get_priority_states_ok metrics d :
  Forall (present d) metrics →
  get_priority_states argsort metrics d =
    top_by argsort 5 "aggregate_score" (with_scores d metrics).
Proof.
  intros Hp. unfold get_priority_states, bind at 1.
  rewrite normalize_each_ok by done. done.
Qed.

Lemma get_priority_states_raise metrics d :
  ¬ Forall (present d) metrics →
  ∃ m, m ∈ metrics ∧ get_col m (cols d) = None ∧
       get_priority_states argsort metrics d = (d, Raise (KeyError m)).
Proof.
  intros Hp. destruct (normalize_each_raise metrics [] d Hp) as (m & ? & ? & E).
  exists m. split_and!; [done..|].
  unfold get_priority_states, bind at 1. by rewrite E.
Qed.

Lemma dropna_fmap {A} (f : A → option N) (l : list A) :
  dropna (f <$> l) = omap f l.
Proof.
  unfold dropna. induction l as [|x l IH]; csimpl; [done|].
  rewrite IH. by destruct (f x).
Qed.

Lemma normalize_lookup c i :
  default None (normalize c !! i) = spec_normalized c i.
Proof.
  unfold normalize, spec_normalized, cell_at. rewrite list_lookup_fmap.
  destruct (c !! i) as [[v|]|]; simpl; [|done..].
  destruct (series_min c), (series_max c); done.
Qed.

Lemma mean_axis1_spec d metrics :
  Forall (present d) metrics →
  mean_axis1 (nrows d)
     ((λ m, (m, normalize (default [] (get_col m (cols d))))) <$> metrics)
  = spec_aggregateScore d metrics.
Proof.
  intros Hp. unfold mean_axis1, spec_aggregateScore.
  apply list_fmap_ext. intros _ i _.
  unfold nanmean, spec_score, row_values. rewrite <-list_fmap_compose, dropna_fmap.
  assert (omap (λ m, default None
                  (normalize (default [] (get_col m (cols d))) !! i)) metrics
          = spec_available d metrics i) as E.
  { unfold spec_available.
    induction Hp as [|m r [c Hc] Hr IH]; csimpl; [done|].
    rewrite <-IH, Hc. simpl. by rewrite normalize_lookup. }
  unfold compose. simpl. by rewrite E.
Qed.
End runs.

(** ** Reductions, for every instance *)

Section reductions.
Context {N : Type} `{Num N}.
Implicit Types (l r : list N) (c : list (option N)).

Lemma foldl_nmin_elem_of x r : foldl nmin x r ∈ x :: r.
Proof.
  revert x. induction r as [|y r IH]; intros x; simpl; [left|].
  unfold nmin at 2. destruct (leb y x).
  - right. apply IH.
  - specialize (IH x). apply elem_of_cons in IH as [->|?]; [left|by do 2 right].
Qed.

Lemma foldl_nmax_elem_of x r : foldl nmax x r ∈ x :: r.
Proof.
  revert x. induction r as [|y r IH]; intros x; simpl; [left|].
  unfold nmax at 2. destruct (leb x y).
  - right. apply IH.
  - specialize (IH x). apply elem_of_cons in IH as [->|?]; [left|by do 2 right].
Qed.

Lemma series_min_elem_of c lo : series_min c = Some lo → lo ∈ dropna c.
Proof.
  unfold series_min. destruct (dropna c) as [|x r]; [done|].
  intros [= <-]. apply foldl_nmin_elem_of.
Qed.

Lemma series_max_elem_of c hi : series_max c = Some hi → hi ∈ dropna c.
Proof.
  unfold series_max. destruct (dropna c) as [|x r]; [done|].
  intros [= <-]. apply foldl_nmax_elem_of.
Qed.

Lemma series_min_None c : series_min c = None ↔ dropna c = [].
Proof. unfold series_min. by destruct (dropna c). Qed.

Lemma series_max_None c : series_max c = None ↔ dropna c = [].
Proof. unfold series_max. by destruct (dropna c). Qed.

Lemma elem_of_dropna c v : v ∈ dropna c ↔ Some v ∈ c.
Proof.
  unfold dropna. rewrite list_elem_of_omap. split.
  - intros ([x|] & ? & ?); simplify_eq/=. done.
  - intros ?. by exists (Some v).
Qed.

Lemma insert_sorted_perm x l : insert_sorted x l ≡ₚ x :: l.
Proof.
  induction l as [|y l IH]; simpl; [done|].
  destruct (leb x y); [done|]. rewrite IH. apply Permutation_swap.
Qed.

Lemma sorted_values_perm l : sorted_values l ≡ₚ l.
Proof.
  unfold sorted_values. induction l as [|x l IH]; simpl; [done|].
  by rewrite insert_sorted_perm, IH.
Qed.

Lemma sorted_values_length l : length (sorted_values l) = length l.
Proof. by rewrite sorted_values_perm. Qed.
End reductions.

(** ** Reductions of exact numbers *)

Section exact_reductions.
Implicit Types (l r : list Q) (c : list (option Q)).
Local Open Scope Q_scope.

Lemma leb_exact (a b : Q) : leb a b = true ↔ a <= b.
Proof. apply Qle_bool_iff. Qed.

(** Every exact number is a number. *)
Lemma number_exact (a : Q) : number a.
Proof. apply leb_exact, Qle_refl. Qed.

Lemma Forall_number_exact l : Forall number l.
Proof. apply Forall_forall. intros a _. apply number_exact. Qed.

Lemma numbers_exact c : numbers c.
Proof. apply Forall_number_exact. Qed.

Lemma leb_exact_false (a b : Q) : leb a b = false → b <= a.
Proof.
  intros E. destruct (Qlt_le_dec b a) as [?|Hle]; [by apply Qlt_le_weak|].
  apply leb_exact in Hle. congruence.
Qed.

Lemma nmin_exact (a b : Q) : nmin a b <= a ∧ nmin a b <= b.
Proof.
  unfold nmin. destruct (leb b a) eqn:E.
  - apply leb_exact in E. split; [done|apply Qle_refl].
  - apply leb_exact_false in E. split; [apply Qle_refl|done].
Qed.

Lemma nmax_exact (a b : Q) : a <= nmax a b ∧ b <= nmax a b.
Proof.
  unfold nmax. destruct (leb a b) eqn:E.
  - apply leb_exact in E. split; [done|apply Qle_refl].
  - apply leb_exact_false in E. split; [apply Qle_refl|done].
Qed.

Lemma foldl_nmin_le x r : Forall (Qle (foldl nmin x r)) (x :: r).
Proof.
  revert x. induction r as [|y r IH]; intros x; simpl.
  - constructor; [apply Qle_refl|constructor].
  - specialize (IH (nmin x y)). apply Forall_cons in IH as [Hx Hr].
    destruct (nmin_exact x y). repeat constructor; [| |done]; eapply Qle_trans; eauto.
Qed.

Lemma foldl_nmax_ge x r : Forall (λ v, v <= foldl nmax x r) (x :: r).
Proof.
  revert x. induction r as [|y r IH]; intros x; simpl.
  - constructor; [apply Qle_refl|constructor].
  - specialize (IH (nmax x y)). apply Forall_cons in IH as [Hx Hr].
    destruct (nmax_exact x y). repeat constructor; [| |done]; eapply Qle_trans; eauto.
Qed.

Lemma series_min_le c lo :
  series_min c = Some lo → Forall (Qle lo) (dropna c).
Proof.
  unfold series_min. destruct (dropna c) as [|x r]; [done|].
  intros [= <-]. apply foldl_nmin_le.
Qed.

Lemma series_max_ge c hi :
  series_max c = Some hi → Forall (λ v, v <= hi) (dropna c).
Proof.
  unfold series_max. destruct (dropna c) as [|x r]; [done|].
  intros [= <-]. apply foldl_nmax_ge.
Qed.
End exact_reductions.

Section exact_means.
Implicit Types (l r : list Q) (c : list (option Q)).
Local Open Scope Q_scope.

Lemma of_nat_exact_pos (n : nat) : (0 < n)%nat → 0 < of_nat n.
Proof.
  intros Hn. simpl. change 0 with (inject_Z 0). rewrite <-Zlt_Qlt. lia.
Qed.

Lemma of_nat_exact_S (n : nat) : of_nat (S n) == of_nat n + 1.
Proof.
  simpl. rewrite Nat2Z.inj_succ. unfold Z.succ. rewrite inject_Z_plus. reflexivity.
Qed.

Lemma div_exact_Some (a b : Q) : ¬ b == 0 → div a b = Some (a / b).
Proof.
  intros Hb. simpl. destruct (Qeq_bool b 0) eqn:E; [|done].
  apply Qeq_bool_iff in E. done.
Qed.

Lemma div_exact_None (a b : Q) : b == 0 → div a b = None.
Proof.
  intros Hb. simpl. apply Qeq_bool_iff in Hb. by rewrite Hb.
Qed.

Lemma div_exact_inv (a b q : Q) : div a b = Some q → ¬ b == 0 ∧ q = a / b.
Proof.
  simpl. destruct (Qeq_bool b 0) eqn:E; [done|]. intros [= <-]. split; [|done].
  intros Hb. apply Qeq_bool_iff in Hb. congruence.
Qed.

Lemma foldl_add_bounds (lo hi a : Q) l :
  Forall (λ v, lo <= v ∧ v <= hi) l →
  a + of_nat (length l) * lo <= foldl add a l ∧
  foldl add a l <= a + of_nat (length l) * hi.
Proof.
  intros Hl. revert a. induction Hl as [|v l [Hlo Hhi] _ IH]; intros a.
  - cbn [foldl length]. change (of_nat 0%nat) with 0. split; lra.
  - cbn [foldl length]. destruct (IH (add a v)) as [IH1 IH2].
    rewrite of_nat_exact_S. change (add a v) with (a + v) in *.
    split; lra.
Qed.


(** The mean of numbers of an interval lies in the interval. *)
Lemma mean_bounds (lo hi : Q) l :
  l ≠ [] → Forall (λ v, lo <= v ∧ v <= hi) l →
  ∃ mu, div (nsum l) (of_nat (length l)) = Some mu ∧
        mu * of_nat (length l) == nsum l ∧ lo <= mu ∧ mu <= hi.
Proof.
  intros Hne Hl.
  assert (0 < of_nat (length l)) as Hn.
  { apply of_nat_exact_pos. destruct l; [done|simpl; lia]. }
  destruct (foldl_add_bounds lo hi 0 l Hl) as [H1 H2].
  change (foldl add 0 l) with (nsum l) in H1, H2.
  exists (nsum l / of_nat (length l)). split_and!.
  - apply div_exact_Some. lra.
  - field. lra.
  - apply Qle_shift_div_l; [done|]. lra.
  - apply Qle_shift_div_r; [done|]. lra.
Qed.

Lemma lerp_half_exact (a b : Q) : lerp_half a b == (a + b) / 2.
Proof. unfold lerp_half. simpl. field. Qed.

(** A quotient of the script by zero has a zero dividend. *)
Lemma zero_range_zero_offset c (lo hi v : Q) :
  series_min c = Some lo → series_max c = Some hi → hi - lo == 0 →
  v ∈ dropna c → v - lo == 0.
Proof.
  intros Hlo Hhi Hz Hv.
  pose proof (series_min_le c lo Hlo) as Hmin.
  pose proof (series_max_ge c hi Hhi) as Hmax.
  rewrite Forall_forall in Hmin, Hmax.
  specialize (Hmin v Hv). specialize (Hmax v Hv). simpl in Hmax. lra.
Qed.

(** A normalised value lies between 0 and 1. *)
Lemma spec_normalized_unit c i (t : Q) :
  spec_normalized c i = Some t → 0 <= t ∧ t <= 1.
Proof.
  unfold spec_normalized, cell_at.
  destruct (c !! i) as [[v|]|] eqn:Hv; simpl; [|done..].
  destruct (series_min c) as [lo|] eqn:Hlo; [|done].
  destruct (series_max c) as [hi|] eqn:Hhi; [|done].
  intros Hd. apply div_exact_inv in Hd as [Hnz ->].
  assert (v ∈ dropna c) as Hin.
  { apply elem_of_dropna. by eapply list_elem_of_lookup_2. }
  pose proof (series_min_le c lo Hlo) as Hmin.
  pose proof (series_max_ge c hi Hhi) as Hmax.
  rewrite Forall_forall in Hmin, Hmax.
  specialize (Hmin v Hin). specialize (Hmax v Hin). simpl in Hmax.
  change (sub v lo) with (v - lo) in *. change (sub hi lo) with (hi - lo) in *.
  assert (0 < hi - lo) as Hpos.
  { destruct (Qlt_le_dec 0 (hi - lo)); [done|]. destruct Hnz. lra. }
  split.
  - apply Qle_shift_div_l; [done|]. lra.
  - apply Qle_shift_div_r; [done|]. lra.
Qed.
(** The sum of the code and the sum written with [+] are the same number. *)
Lemma nsum_Qsum (l : list Q) : nsum l == Qsum l.
Proof.
  unfold nsum. change zero with 0.
  assert (∀ a, foldl add a l == a + Qsum l) as Hgen.
  { induction l as [|x l IH]; intros a; simpl.
    - unfold Qsum. simpl. lra.
    - rewrite IH. change (add a x) with (a + x). unfold Qsum. simpl. lra. }
  rewrite Hgen. lra.
Qed.
End exact_means.

(** ** Summary statistics of exact numbers *)

Section exact_describe.
Implicit Types (l r : list Q) (c : list (option Q)).
Local Open Scope Q_scope.

Lemma insert_sorted_sorted (x : Q) l :
  StronglySorted Qle l → StronglySorted Qle (insert_sorted x l).
Proof.
  induction 1 as [|y l Hl IH Hy]; simpl.
  - repeat constructor.
  - change (Qle_bool x y) with (leb x y). destruct (leb x y) eqn:E.
    + apply leb_exact in E. constructor; [by constructor|].
      constructor; [done|]. eapply Forall_impl; [exact Hy|].
      intros z Hz. simpl in Hz. eapply Qle_trans; eauto.
    + apply leb_exact_false in E. constructor; [done|].
      rewrite insert_sorted_perm. by constructor.
Qed.

Lemma sorted_values_sorted l : StronglySorted Qle (sorted_values l).
Proof.
  unfold sorted_values. induction l as [|x l IH]; simpl; [constructor|].
  by apply insert_sorted_sorted.
Qed.

(** The middle positions of [n > 0] values. *)
Lemma middle_lt (n : nat) : (0 < n)%nat → ((n - 1) / 2 < n)%nat.
Proof.
  intros Hn. apply Nat.Div0.div_lt_upper_bound. lia.
Qed.

Lemma middle_succ_lt (n : nat) :
  Nat.even n = true → (0 < n)%nat → (S ((n - 1) / 2) < n)%nat.
Proof.
  intros He Hn. apply Nat.even_spec in He as [m ->].
  destruct m as [|m]; [lia|].
  replace (2 * S m - 1)%nat with (1 + m * 2)%nat by lia.
  rewrite Nat.div_add by lia. simpl. lia.
Qed.

(** What [describe()] returns for a column with a value: the extreme values,
    the mean and the middle of the sorted values, all of the values that are
    not NaN. *)
Lemma describe_exact c :
  dropna c ≠ [] →
  ∃ mu md hi lo,
    describe c = {| s_mean := Some mu; s_p50 := Some md;
                    s_max := Some hi; s_min := Some lo |} ∧
    (lo ∈ dropna c ∧ Forall (Qle lo) (dropna c)) ∧
    (hi ∈ dropna c ∧ Forall (λ v, v <= hi) (dropna c)) ∧
    mu * of_nat (length (dropna c)) == nsum (dropna c) ∧
    (∃ s k, s ≡ₚ dropna c ∧ StronglySorted Qle s ∧ k = ((length s - 1) / 2)%nat ∧
       if Nat.even (length s)
       then ∃ a b, s !! k = Some a ∧ s !! S k = Some b ∧ md == (a + b) / 2
       else s !! k = Some md) ∧
    (lo <= md ∧ md <= hi) ∧ (lo <= mu ∧ mu <= hi).
Proof.
  intros Hne.
  destruct (series_min c) as [lo|] eqn:Hlo; [|by apply series_min_None in Hlo].
  destruct (series_max c) as [hi|] eqn:Hhi; [|by apply series_max_None in Hhi].
  pose proof (series_min_le c lo Hlo) as Hmin.
  pose proof (series_max_ge c hi Hhi) as Hmax.
  assert (Forall (λ v, lo <= v ∧ v <= hi) (dropna c)) as Hrange.
  { rewrite Forall_forall in *. intros v Hv. split; [by apply Hmin|by apply Hmax]. }
  destruct (mean_bounds lo hi (dropna c) Hne Hrange) as (mu & Hmu & Hmu' & Hmulo & Hmuhi).
  set (s := sorted_values (dropna c)).
  assert (s ≡ₚ dropna c) as Hperm by apply sorted_values_perm.
  assert (0 < length s)%nat as Hlen.
  { rewrite Hperm. destruct (dropna c); [done|simpl; lia]. }
  assert (∀ j v, s !! j = Some v → lo <= v ∧ v <= hi) as Hin.
  { intros j v Hj. rewrite Forall_forall in Hrange. apply Hrange.
    rewrite <-Hperm. by eapply list_elem_of_lookup_2. }
  assert (∃ md, quantile50 c = Some md ∧
     (if Nat.even (length s)
      then ∃ a b, s !! ((length s - 1) / 2)%nat = Some a ∧
                  s !! S ((length s - 1) / 2) = Some b ∧ md == (a + b) / 2
      else s !! ((length s - 1) / 2)%nat = Some md) ∧ lo <= md ∧ md <= hi)
    as (md & Hq & Hmid & Hmdlo & Hmdhi).
  { unfold quantile50. fold s. destruct (Nat.even (length s)) eqn:He.
    - destruct (lookup_lt_is_Some_2 s _ (middle_lt _ Hlen)) as [a Ha].
      destruct (lookup_lt_is_Some_2 s _ (middle_succ_lt _ He Hlen)) as [b Hb].
      rewrite Ha, Hb. exists (lerp_half a b).
      destruct (Hin _ _ Ha), (Hin _ _ Hb).
      pose proof (lerp_half_exact a b) as Hl.
      split_and!; [done|by exists a, b|rewrite Hl|rewrite Hl].
      + apply Qle_shift_div_l; lra.
      + apply Qle_shift_div_r; lra.
    - destruct (lookup_lt_is_Some_2 s _ (middle_lt _ Hlen)) as [a Ha].
      exists a. destruct (Hin _ _ Ha). by rewrite Ha. }
  exists mu, md, hi, lo. split_and!; try done.
  - unfold describe, nanmean. by rewrite Hmu, Hq, Hlo, Hhi.
  - by apply series_min_elem_of.
  - by apply series_max_elem_of.
  - exists s, ((length s - 1) / 2)%nat. split_and!; [done|apply sorted_values_sorted|done|done].
Qed.
End exact_describe.

(** ** Summary statistics: what [stats] returns *)

Section summaries.
Local Open Scope Q_scope.

(** C3 (as the code has it).  Lines 82-91 on the table as loaded.  They
    raise [KeyError] of the metric when it is no column of the table.  There
    is no check for a metric without a value, and what happens then depends
    on how the column is typed: a float column whose cells are all NaN gives
    a summary whose four entries are NaN, without failing; a column of dtype
    object, as a property that is null in every feature is loaded, has a
    summary without these entries, and reading [stats['mean']] at line 85
    raises [KeyError] of [mean].  For a float column with a value the
    entries are numbers computed from the values that are not NaN: the least
    and the greatest of them, their sum over their count, and the middle of
    their sorted sequence (the half sum of the two middle ones when their
    count is even).  The table is left as it was. *)
Theorem stats_cases (metric : string) (g : GeoDataFrame Q) :
  match get_col metric (cols (floats g)) with
  | Some c =>
      (stats metric (floats g)).1 = floats g ∧
      match dropna c with
      | [] => stats_read g metric =
                Ok {| s_mean := None; s_p50 := None; s_max := None; s_min := None |}
      | vs =>
          ∃ mu md hi lo,
            stats_read g metric =
              Ok {| s_mean := Some mu; s_p50 := Some md;
                    s_max := Some hi; s_min := Some lo |} ∧
            (lo ∈ vs ∧ Forall (Qle lo) vs) ∧
            (hi ∈ vs ∧ Forall (λ v, v <= hi) vs) ∧
            mu * inject_Z (Z.of_nat (length vs)) == Qsum vs ∧
            ∃ s k, s ≡ₚ vs ∧ StronglySorted Qle s ∧
                   k = ((length s - 1) / 2)%nat ∧
                   if Nat.even (length s)
                   then ∃ a b, s !! k = Some a ∧ s !! S k = Some b ∧
                               md == (a + b) / 2
                   else s !! k = Some md
      end
  | None =>
      stats_read g metric =
        Raise (KeyError (if is_object g metric then "mean" else metric))
  end.
Proof.
  destruct (get_col metric (cols (floats g))) as [c|] eqn:Hc.
  - assert (stats metric (floats g) = (floats g, Ok (describe c))) as Hd.
    { unfold stats, bind, getitem, ret. by rewrite Hc. }
    split; [by rewrite Hd|]. unfold stats_read, describe_loaded. rewrite Hd.
    cbn [snd entry].
    destruct (dropna c) as [|v vs] eqn:Hvs.
    + unfold describe, nanmean, quantile50, series_max, series_min.
      rewrite Hvs. done.
    + destruct (describe_exact c) as (mu & md & hi & lo & -> & ? & ? & Hmu & ? & _).
      { by rewrite Hvs. }
      exists mu, md, hi, lo. rewrite <-Hvs.
      split; [done|]. split; [done|]. split; [done|]. split; [|done].
      eapply Qeq_trans; [exact Hmu|apply nsum_Qsum].
  - assert (stats metric (floats g) = (floats g, Raise (KeyError metric))) as Hd.
    { unfold stats, bind, getitem, ret. by rewrite Hc. }
    unfold stats_read, describe_loaded. rewrite Hd. cbn [snd].
    by destruct (is_object g metric).
Qed.

(** C3, counterexample.  No row of [no_data] has a value for the float
    column [m1]: lines 82-91 do not fail, they read NaN for the mean, the
    median, the maximum and the minimum.  In [surveyed] the metric
    [DIABETES_CrudePrev] is null in every feature, a column of dtype object:
    the failure is the [KeyError] of the entry [mean], the exception that an
    unknown metric raises with its own name. *)
Lemma stats_no_data :
  stats_read {| floats := no_data; objects := [] |} "m1"
    = Ok {| s_mean := None; s_p50 := None; s_max := None; s_min := None |} ∧
  stats_read surveyed "DIABETES_CrudePrev" = Raise (KeyError "mean") ∧
  stats_read surveyed "BPHIGH_CrudePrev" = Raise (KeyError "BPHIGH_CrudePrev").
Proof. vm_compute. done. Qed.

(** C7 (exact numbers).  For a metric with a value in at least one row, the
    summary of [stats] has [min <= median <= max] and [min <= mean <= max]. *)
Theorem summary_order (metric : string) (d : DataFrame Q) (c : list (option Q)) :
  get_col metric (cols d) = Some c → dropna c ≠ [] →
  ∃ mu md hi lo,
    (stats metric d).2 =
      Ok {| s_mean := Some mu; s_p50 := Some md;
            s_max := Some hi; s_min := Some lo |} ∧
    lo <= md ∧ md <= hi ∧ lo <= mu ∧ mu <= hi.
Proof.
  intros Hc Hne. unfold stats, bind, getitem, ret. rewrite Hc. simpl.
  destruct (describe_exact c Hne)
    as (mu & md & hi & lo & -> & _ & _ & _ & _ & [? ?] & [? ?]).
  by exists mu, md, hi, lo.
Qed.

Lemma summary_order_witness :
  ∃ mu md hi lo,
    (stats "metric1" three_rows).2 =
      Ok {| s_mean := Some mu; s_p50 := Some md;
            s_max := Some hi; s_min := Some lo |} ∧
    lo <= md ∧ md <= hi ∧ lo <= mu ∧ mu <= hi.
Proof.
  apply (summary_order "metric1" three_rows
           [Some 10; Some 20; Some 30]); [reflexivity|discriminate].
Defined.

(** C7, counterexample.  On doubles the mean is rounded: for three rows of
    0.1 the sum is 0.30000000000000004 and the mean 0.10000000000000002,
    which is above the maximum 0.1. *)
Lemma summary_order_binary64 :
  (stats "m1" tenths).2 =
    Ok {| s_mean := Some 0x1.999999999999bp-4%float;
          s_p50 := Some 0x1.999999999999ap-4%float;
          s_max := Some 0x1.999999999999ap-4%float;
          s_min := Some 0x1.999999999999ap-4%float |} ∧
  leb 0x1.999999999999bp-4%float 0x1.999999999999ap-4%float = false ∧
  leb 0x1.999999999999ap-4%float 0x1.999999999999bp-4%float = true.
Proof. vm_compute. done. Qed.
End summaries.

Section loop_facts.
Context {N : Type} `{Num N}.
Variable argsort : list N → list nat.
Implicit Types (cs ns : @columns N) (c : list (option N)) (d : DataFrame N).

Lemma set_col_Forall (P : string * list (option N) → Prop) name c cs :
  P (name, c) → Forall P cs → Forall P (set_col name c cs).
Proof.
  intros HP. induction 1 as [|[k v] r Hk Hr IH]; simpl.
  - by constructor.
  - destruct (String.eqb k name); by constructor.
Qed.

(** Every column of [normalized_scores] is the normalised column of a metric
    of the table. *)
Lemma loop_result_columns d metrics ns :
  Forall (present d) metrics →
  Forall (λ kc, ∃ c, get_col kc.1 (cols d) = Some c ∧ kc.2 = normalize c) ns →
  Forall (λ kc, ∃ c, get_col kc.1 (cols d) = Some c ∧ kc.2 = normalize c)
         (loop_result d metrics ns).
Proof.
  intros Hp. revert ns. induction Hp as [|m r [c Hc] _ IH]; intros ns Hns; [done|].
  apply IH. apply set_col_Forall; [|done].
  exists c. by rewrite Hc.
Qed.

Lemma loop_result_other d metrics ns m :
  m ∉ metrics → get_col m (loop_result d metrics ns) = get_col m ns.
Proof.
  revert ns. induction metrics as [|m' r IH]; intros ns Hm; [done|].
  apply not_elem_of_cons in Hm as [Hne Hm].
  unfold loop_result in *. simpl. rewrite IH by done.
  by apply get_col_set_col_ne.
Qed.

Lemma loop_result_get d metrics ns m :
  m ∈ metrics →
  get_col m (loop_result d metrics ns)
    = Some (normalize (default [] (get_col m (cols d)))).
Proof.
  revert ns. induction metrics as [|m' r IH]; intros ns Hm.
  { by apply elem_of_nil in Hm. }
  destruct (decide (m ∈ r)) as [Hr|Hr].
  - by apply IH.
  - apply elem_of_cons in Hm as [->|?]; [|done].
    change (loop_result d (m' :: r) ns)
      with (loop_result d r (set_col m' (normalize (default [] (get_col m' (cols d)))) ns)).
    rewrite loop_result_other by done. apply get_col_set_col_eq.
Qed.

Lemma mean_axis1_lookup n cs i :
  i < n → mean_axis1 n cs !! i = Some (nanmean (row_values cs i)).
Proof.
  intros Hi. unfold mean_axis1. rewrite list_lookup_fmap, lookup_seq_lt by done.
  done.
Qed.

Lemma mean_axis1_length n cs : length (mean_axis1 n cs) = n.
Proof. unfold mean_axis1. by rewrite length_fmap, length_seq. Qed.

(** With every metric a column of the table, [get_priority_states] returns. *)
Lemma get_priority_states_returns metrics d :
  Forall (present d) metrics →
  ∃ r, get_priority_states argsort metrics d = (with_scores d metrics, Ok r).
Proof.
  intros Hp. rewrite get_priority_states_ok by done.
  unfold top_by, bind, select, lift, ret, with_scores. simpl.
  rewrite get_col_set_col_eq. unfold sort_values. simpl. eauto.
Qed.
End loop_facts.


(** ** The aggregate score, row by row, in exact arithmetic *)

Section exact_terms.
Implicit Types (c : list (option Q)) (d : DataFrame Q).
Local Open Scope Q_scope.

Lemma series_min_least c lo : series_min c = Some lo → least c lo.
Proof.
  intros Hlo. split.
  - by apply elem_of_dropna, series_min_elem_of.
  - intros v Hv. apply elem_of_dropna in Hv.
    pose proof (series_min_le _ _ Hlo) as Hle. rewrite Forall_forall in Hle.
    by apply Hle.
Qed.

Lemma series_max_greatest c hi : series_max c = Some hi → greatest c hi.
Proof.
  intros Hhi. split.
  - by apply elem_of_dropna, series_max_elem_of.
  - intros v Hv. apply elem_of_dropna in Hv.
    pose proof (series_max_ge _ _ Hhi) as Hle. rewrite Forall_forall in Hle.
    by apply Hle.
Qed.

Lemma least_unique c lo lo' : least c lo → least c lo' → lo == lo'.
Proof. intros [H1 H2] [H1' H2']. apply Qle_antisym; auto. Qed.

Lemma greatest_unique c hi hi' : greatest c hi → greatest c hi' → hi == hi'.
Proof. intros [H1 H2] [H1' H2']. apply Qle_antisym; auto. Qed.

Lemma series_min_Some_elem c v : Some v ∈ c → is_Some (series_min c).
Proof.
  intros Hv. destruct (series_min c) eqn:E; [done|].
  apply series_min_None in E. apply elem_of_dropna in Hv. rewrite E in Hv.
  by apply elem_of_nil in Hv.
Qed.

Lemma series_max_Some_elem c v : Some v ∈ c → is_Some (series_max c).
Proof.
  intros Hv. destruct (series_max c) eqn:E; [done|].
  apply series_max_None in E. apply elem_of_dropna in Hv. rewrite E in Hv.
  by apply elem_of_nil in Hv.
Qed.

(** A column without a value, or whose values are all equal, has no
    normalised value. *)
Lemma normalize_no_range c :
  (series_min c = None ∨ ∃ lo hi, series_min c = Some lo ∧ series_max c = Some hi ∧ lo == hi) →
  Forall (λ x, x = None) (normalize c).
Proof.
  intros Hc. unfold normalize. apply Forall_fmap, Forall_forall. intros x _. simpl.
  destruct Hc as [->|(lo & hi & -> & -> & E)]; [by destruct x|].
  destruct x as [v|]; [|done]. simpl. apply div_exact_None.
  change (sub hi lo) with (hi - lo). lra.
Qed.

(** A cell of the normalised column is the term of the row. *)
Lemma normalize_term c i x :
  c !! i = Some x → ∃ t, normalize c !! i = Some t ∧ term_of c i t.
Proof.
  intros Hx. unfold normalize. rewrite list_lookup_fmap, Hx. simpl.
  eexists. split; [done|]. destruct x as [v|]; [|by constructor].
  assert (Some v ∈ c) as Hv by by eapply list_elem_of_lookup_2.
  destruct (series_min_Some_elem c v Hv) as [lo Hlo].
  destruct (series_max_Some_elem c v Hv) as [hi Hhi].
  rewrite Hlo, Hhi. unfold cell_div, cell_sub.
  change (sub hi lo) with (hi - lo). change (sub v lo) with (v - lo).
  pose proof (series_min_least _ _ Hlo). pose proof (series_max_greatest _ _ Hhi).
  destruct (Qeq_dec lo hi) as [E|E].
  - rewrite div_exact_None by lra. by eapply term_no_range.
  - rewrite div_exact_Some by lra. by eapply term_value.
Qed.

Lemma nanmean_mean_of (terms : list (option Q)) : mean_of terms (nanmean terms).
Proof.
  unfold mean_of, nanmean. change (omap id terms) with (dropna terms).
  destruct (dropna terms) as [|t ts] eqn:E; [done|].
  assert (0 < of_nat (length (t :: ts))) as Hn by (apply of_nat_exact_pos; simpl; lia).
  eexists. split; [apply div_exact_Some; lra|].
  rewrite nsum_Qsum. reflexivity.
Qed.

Lemma normalize_least_greatest c (lo hi : Q) :
  least c lo → greatest c hi → lo == hi → normalize c = replicate (length c) None.
Proof.
  intros Hlo Hhi Heq. symmetry. apply replicate_as_Forall_2.
  { unfold normalize. by rewrite length_fmap. }
  pose proof Hlo as [Hin _].
  destruct (series_min_Some_elem c lo Hin) as [lo' Hlo'].
  destruct (series_max_Some_elem c lo Hin) as [hi' Hhi'].
  eapply Forall_impl; [apply normalize_no_range|by intros ? ->].
  right. exists lo', hi'. split; [done|]. split; [done|].
  pose proof (least_unique c lo' lo (series_min_least _ _ Hlo') Hlo).
  pose proof (greatest_unique c hi' hi (series_max_greatest _ _ Hhi') Hhi).
  lra.
Qed.

(** The rows of the local frame [normalized_scores]. *)
Lemma row_values_terms d metrics i :
  Forall (present d) metrics → well_formed d → (i < nrows d)%nat →
  terms_of d metrics i
    (row_values ((λ m, (m, normalize (default [] (get_col m (cols d))))) <$> metrics) i).
Proof.
  intros Hp Hwf Hi. unfold terms_of, row_values. rewrite <-list_fmap_compose.
  apply Forall2_fmap_r, Forall_Forall2_diag.
  eapply Forall_impl; [exact Hp|]. intros m [c Hc]. exists c. split; [done|].
  simpl. rewrite Hc. simpl.
  assert (length c = nrows d) as Hlen.
  { unfold well_formed in Hwf. rewrite Forall_forall in Hwf.
    by apply (Hwf (m, c)), get_col_elem_of. }
  destruct (lookup_lt_is_Some_2 c i) as [x Hx]; [lia|].
  destruct (normalize_term c i x Hx) as (t & -> & Ht). done.
Qed.

(** The score column that [get_priority_states] writes, row by row. *)
Lemma score_rows (argsort : list Q → list nat) d metrics :
  NoDup metrics → Forall (present d) metrics → well_formed d →
  ∃ scores,
    aggregate_score (get_priority_states argsort metrics d).1 = Some scores ∧
    length scores = nrows d ∧
    ∀ i, (i < nrows d)%nat →
      ∃ terms score,
        terms_of d metrics i terms ∧
        scores !! i = Some score ∧ mean_of terms score.
Proof.
  intros Hnd Hp Hwf.
  destruct (get_priority_states_returns argsort metrics d Hp) as [r ->].
  exists (mean_axis1 (nrows d) (loop_result d metrics [])). split_and!.
  - unfold aggregate_score, with_scores. simpl. apply get_col_set_col_eq.
  - apply mean_axis1_length.
  - intros i Hi. rewrite loop_result_fresh by done. simpl.
    eexists _, _. split_and!.
    + by apply row_values_terms.
    + by apply mean_axis1_lookup.
    + apply nanmean_mean_of.
Qed.
End exact_terms.

Section exact_divisor.
Implicit Types (c : list (option Q)) (d : DataFrame Q).
Local Open Scope Q_scope.

Lemma defined_is_Some d i m :
  is_Some (get_col m (cols d) ≫= λ c, cell_at c i) ↔ defined d i m.
Proof.
  unfold defined, cell_at. split.
  - intros [v Hv]. destruct (get_col m (cols d)) as [c|]; [|done]. simpl in Hv.
    exists c, v. split; [done|]. destruct (c !! i) as [x|]; [|done].
    simpl in Hv. by subst.
  - intros (c & v & -> & Hv). simpl. rewrite Hv. by eexists.
Qed.

Lemma term_of_Some d i m c t :
  get_col m (cols d) = Some c → term_of c i (Some t) →
  defined d i m ∧ has_range d m.
Proof.
  intros Hc Ht. inversion Ht as [v lo hi t' Hv Hlo Hhi Hne Heq| |]; subst.
  split; [by exists c, v|by exists c, lo, hi].
Qed.

Lemma term_of_None d i m c :
  get_col m (cols d) = Some c → term_of c i None →
  ¬ (defined d i m ∧ has_range d m).
Proof.
  intros Hc Ht [(c1 & v1 & Hc1 & Hv1) (c2 & lo2 & hi2 & Hc2 & Hlo2 & Hhi2 & Hne)].
  rewrite Hc in Hc1, Hc2. injection Hc1 as <-. injection Hc2 as <-.
  inversion Ht as [|Hv|v lo hi Hv Hlo Hhi Heq]; subst.
  - rewrite Hv in Hv1. discriminate.
  - apply Hne. rewrite (least_unique _ _ _ Hlo2 Hlo), (greatest_unique _ _ _ Hhi2 Hhi).
    done.
Qed.

(** The count of the terms of a row against the count of the metrics that
    the row has a value for. *)
Lemma terms_count d metrics i terms :
  terms_of d metrics i terms →
  (length (omap id terms) ≤ defined_count d metrics i)%nat ∧
  (length (omap id terms) = defined_count d metrics i ↔
   ∀ m, m ∈ metrics → defined d i m → has_range d m).
Proof.
  unfold defined_count, terms_of.
  induction 1 as [|m t metrics terms (c & Hc & Ht) _ [IH1 IH2]].
  { split; [done|]. split; [|done]. intros _ m Hm. by apply elem_of_nil in Hm. }
  rewrite filter_cons. destruct t as [t|]; csimpl.
  - destruct (term_of_Some d i m c t Hc Ht) as [Hd Hr].
    rewrite decide_True by by apply defined_is_Some. simpl.
    split; [lia|]. split.
    + intros E m' Hm' Hd'. apply elem_of_cons in Hm' as [->|Hm']; [done|].
      apply IH2; [lia|done..].
    + intros Hall. f_equal. apply IH2. intros m' Hm'. apply Hall. by right.
  - pose proof (term_of_None d i m c Hc Ht) as Hn.
    destruct (decide (is_Some (get_col m (cols d) ≫= λ c0, cell_at c0 i))) as [Hd|Hd].
    + apply defined_is_Some in Hd. simpl. split; [lia|]. split; [lia|].
      intros Hall. destruct Hn. split; [done|]. apply Hall; [left|done].
    + split; [done|]. split.
      * intros E m' Hm' Hd'. apply elem_of_cons in Hm' as [->|Hm'].
        { destruct Hd. by apply defined_is_Some. }
        by apply IH2.
      * intros Hall. apply IH2. intros m' Hm'. apply Hall. by right.
Qed.
End exact_divisor.

(** ** The aggregate score *)

Section scores.
Local Open Scope Q_scope.

(** C1 (as the code has it, in exact arithmetic).  For distinct metrics that
    are columns of a table whose columns have one cell for each row,
    [get_priority_states] writes a score for every row.  The score of a row
    is the arithmetic mean of its terms, one for each metric [m] for which
    the row has a value and whose maximum differs from its minimum: the term
    is [(value - min_m) / (max_m - min_m)], with [min_m] and [max_m] the least
    and the greatest value of the rows that have one.  A metric gives no term
    to a row without a value for it, and no term to any row when its maximum
    equals its minimum.  The divisor is the count of the terms; it is at most
    the count of the metrics that the row has a value for, and equal to it
    exactly when each of these has a range.  A row without a term has the
    score NaN. *)
Theorem score_column_is_spec_aggregateScore (argsort : list Q → list nat)
    d (metrics : list string) :
  NoDup metrics → Forall (present d) metrics → well_formed d →
  ∃ scores,
    aggregate_score (get_priority_states argsort metrics d).1 = Some scores ∧
    length scores = nrows d ∧
    ∀ i, (i < nrows d)%nat →
      ∃ terms score,
        terms_of d metrics i terms ∧
        scores !! i = Some score ∧ mean_of terms score ∧
        (length (omap id terms) ≤ defined_count d metrics i)%nat ∧
        (length (omap id terms) = defined_count d metrics i ↔
         ∀ m, m ∈ metrics → defined d i m → has_range d m).
Proof.
  intros Hnd Hp Hwf.
  destruct (score_rows argsort d metrics Hnd Hp Hwf) as (scores & Hs & Hlen & Hrows).
  exists scores. split; [done|]. split; [done|]. intros i Hi.
  destruct (Hrows i Hi) as (terms & score & Ht & Hsc & Hmean).
  exists terms, score. destruct (terms_count d metrics i terms Ht) as [Hle Heq].
  by split_and!.
Qed.

Lemma score_column_is_spec_aggregateScore_witness :
  ∃ scores,
    aggregate_score (get_priority_states stable_argsort ["m1"; "m2"] crossed).1
      = Some scores ∧
    length scores = nrows crossed ∧
    ∀ i, (i < nrows crossed)%nat →
      ∃ terms score,
        terms_of crossed ["m1"; "m2"] i terms ∧
        scores !! i = Some score ∧ mean_of terms score ∧
        (length (omap id terms) ≤ defined_count crossed ["m1"; "m2"] i)%nat ∧
        (length (omap id terms) = defined_count crossed ["m1"; "m2"] i ↔
         ∀ m, m ∈ ["m1"; "m2"] → defined crossed i m → has_range crossed m).
Proof.
  apply (score_column_is_spec_aggregateScore stable_argsort crossed ["m1"; "m2"]).
  - apply (bool_decide_unpack _). vm_compute. done.
  - repeat constructor; eexists; reflexivity.
  - repeat constructor.
Defined.

(** C1, counterexample.  Row B of [flat_metric] has a value for both metrics,
    but [m1] has the same value in every row and its normalised values are
    [0/0]: the only term of row B is the 1 of [m2], and its score is 1, the
    sum over one term, not over the two metrics the row has values for. *)
Lemma score_divisor_flat_metric :
  aggregate_score (get_priority_states stable_argsort ["m1"; "m2"] flat_metric).1
    = Some [Some 0; Some 1] ∧
  defined_count flat_metric ["m1"; "m2"] 1 = 2%nat ∧
  spec_available flat_metric ["m1"; "m2"] 1 = [1].
Proof. vm_compute. done. Qed.
End scores.

(** ** The aggregate score of exact numbers *)

Section exact_scores.
Implicit Types (c : list (option Q)) (d : DataFrame Q).
Local Open Scope Q_scope.

Lemma nanmean_bounds (lo hi : Q) c :
  dropna c ≠ [] → Forall (λ v, lo <= v ∧ v <= hi) (dropna c) →
  ∃ mu, nanmean c = Some mu ∧ lo <= mu ∧ mu <= hi.
Proof.
  intros Hne Hr. destruct (mean_bounds lo hi (dropna c) Hne Hr) as (mu & ? & _ & ? & ?).
  by exists mu.
Qed.

Lemma nanmean_no_value c : dropna c = [] → nanmean c = None.
Proof. unfold nanmean. by intros ->. Qed.

(** Every number of a row of [normalized_scores] lies between 0 and 1. *)
Lemma row_values_unit d metrics i :
  Forall (present d) metrics →
  Forall (λ t, 0 <= t ∧ t <= 1) (dropna (row_values (loop_result d metrics []) i)).
Proof.
  intros Hp. pose proof (loop_result_columns d metrics [] Hp (Forall_nil_2 _)) as Hns.
  apply Forall_forall. intros t Ht. apply elem_of_dropna in Ht.
  unfold row_values in Ht. apply list_elem_of_fmap in Ht as ([k col] & Ht & Hin).
  rewrite Forall_forall in Hns. destruct (Hns _ Hin) as (c & _ & Hcol).
  simpl in *. subst col. rewrite normalize_lookup in Ht.
  symmetry in Ht. by apply spec_normalized_unit in Ht.
Qed.

(** A metric whose maximum equals its minimum has no normalised value. *)
Lemma spec_normalized_flat c i (lo hi : Q) :
  series_min c = Some lo → series_max c = Some hi → lo == hi →
  spec_normalized c i = None.
Proof.
  intros Hlo Hhi Heq. unfold spec_normalized. rewrite Hlo, Hhi.
  destruct (cell_at c i); [|done]. apply div_exact_None.
  change (sub hi lo) with (hi - lo). lra.
Qed.

Lemma spec_normalized_defined c i (v lo hi : Q) :
  c !! i = Some (Some v) → series_min c = Some lo → series_max c = Some hi →
  ¬ lo == hi → spec_normalized c i = Some ((v - lo) / (hi - lo)).
Proof.
  intros Hv Hlo Hhi Hne. unfold spec_normalized, cell_at. rewrite Hv, Hlo, Hhi.
  simpl. apply div_exact_Some. change (sub hi lo) with (hi - lo). lra.
Qed.

(** The columns of [normalized_scores] are named by metrics. *)
Lemma loop_result_names d metrics ns :
  Forall (λ kc : string * list (option Q), kc.1 ∈ metrics ∨ kc ∈ ns)
         (loop_result d metrics ns).
Proof.
  revert ns. induction metrics as [|m metrics IH]; intros ns.
  { apply Forall_forall. intros kc Hkc. by right. }
  unfold loop_result. simpl. eapply Forall_impl; [apply IH|].
  intros kc [Hkc|Hkc]; [left; by right|].
  clear IH. revert Hkc. generalize (normalize (default [] (get_col m (cols d)))).
  intros col. induction ns as [|[k v] ns IHns]; simpl.
  - intros ->%list_elem_of_singleton. left. left.
  - destruct (String.eqb k m) eqn:E.
    + intros [->|Hkc]%elem_of_cons; [left; left|right; by right].
    + intros [->|Hkc]%elem_of_cons; [right; left|].
      destruct (IHns Hkc) as [?|?]; [by left|right; by right].
Qed.

(** C6 (as the code has it, in exact arithmetic).  With every metric a column
    of the table, [get_priority_states] writes a score column; every score
    that is a number lies in [[0, 1]]; and a row has a number for score
    exactly when it has a value for at least one requested metric whose
    maximum differs from its minimum: a row whose metrics with a value all
    have equal maximum and minimum, or which has no value at all, has the
    score NaN. *)
Theorem score_in_unit_interval (argsort : list Q → list nat) d metrics :
  Forall (present d) metrics →
  ∃ scores,
    aggregate_score (get_priority_states argsort metrics d).1 = Some scores ∧
    length scores = nrows d ∧
    (∀ i s, scores !! i = Some (Some s) → 0 <= s ∧ s <= 1) ∧
    (∀ i m c v lo hi,
       (i < nrows d)%nat → m ∈ metrics → get_col m (cols d) = Some c →
       c !! i = Some (Some v) →
       series_min c = Some lo → series_max c = Some hi → ¬ lo == hi →
       ∃ s, scores !! i = Some (Some s)) ∧
    (∀ i s, scores !! i = Some (Some s) →
       ∃ m c v lo hi,
         m ∈ metrics ∧ get_col m (cols d) = Some c ∧ c !! i = Some (Some v) ∧
         series_min c = Some lo ∧ series_max c = Some hi ∧ ¬ lo == hi).
Proof.
  intros Hp. destruct (get_priority_states_returns argsort metrics d Hp) as [r ->].
  exists (mean_axis1 (nrows d) (loop_result d metrics [])).
  split_and!.
  - unfold aggregate_score, with_scores. simpl. apply get_col_set_col_eq.
  - apply mean_axis1_length.
  - intros i s Hs.
    assert (i < nrows d)%nat as Hi.
    { apply lookup_lt_Some in Hs. by rewrite mean_axis1_length in Hs. }
    rewrite mean_axis1_lookup in Hs by done. apply (inj Some) in Hs.
    destruct (decide (dropna (row_values (loop_result d metrics []) i) = [])) as [E|E].
    { rewrite nanmean_no_value in Hs by done. discriminate. }
    destruct (nanmean_bounds 0 1 _ E (row_values_unit d metrics i Hp))
      as (mu & Hmu & ? & ?).
    rewrite Hmu in Hs. by simplify_eq.
  - intros i m c v lo hi Hi Hm Hc Hv Hlo Hhi Hne.
    rewrite mean_axis1_lookup by done.
    set (row := row_values (loop_result d metrics []) i).
    assert ((v - lo) / (hi - lo) ∈ dropna row) as Hin.
    { apply elem_of_dropna. unfold row, row_values.
      apply list_elem_of_fmap. exists (m, normalize c). split.
      - simpl. rewrite normalize_lookup. symmetry.
        by apply spec_normalized_defined.
      - apply get_col_elem_of. rewrite loop_result_get by done. by rewrite Hc. }
    destruct (nanmean_bounds 0 1 row) as (mu & Hmu & _).
    + intros E. rewrite E in Hin. by apply elem_of_nil in Hin.
    + by apply row_values_unit.
    + exists mu. by rewrite Hmu.
  - intros i s Hs.
    assert (i < nrows d)%nat as Hi.
    { apply lookup_lt_Some in Hs. by rewrite mean_axis1_length in Hs. }
    rewrite mean_axis1_lookup in Hs by done. apply (inj Some) in Hs.
    destruct (dropna (row_values (loop_result d metrics []) i)) as [|t ts] eqn:E.
    { rewrite nanmean_no_value in Hs by done. discriminate. }
    assert (Some t ∈ row_values (loop_result d metrics []) i) as Ht.
    { apply elem_of_dropna. rewrite E. left. }
    unfold row_values in Ht. apply list_elem_of_fmap in Ht as ([m col] & Ht & Hin).
    simpl in Ht.
    pose proof (loop_result_columns d metrics [] Hp (Forall_nil_2 _)) as Hcols.
    pose proof (loop_result_names d metrics []) as Hnames.
    rewrite Forall_forall in Hcols, Hnames.
    destruct (Hcols _ Hin) as (c & Hc & Hcol). simpl in Hc, Hcol. subst col.
    destruct (Hnames _ Hin) as [Hm|Hm]; [|by apply elem_of_nil in Hm]. simpl in Hm.
    rewrite normalize_lookup in Ht. unfold spec_normalized, cell_at in Ht.
    destruct (c !! i) as [[v|]|] eqn:Hv; try done. cbn [default] in Ht.
    destruct (series_min c) as [lo|] eqn:Hlo; [|done].
    destruct (series_max c) as [hi|] eqn:Hhi; [|done].
    symmetry in Ht. apply div_exact_inv in Ht as [Hne _].
    change (sub hi lo) with (hi - lo) in Hne.
    exists m, c, v, lo, hi. split_and!; try done. intros Heq. apply Hne. lra.
Qed.

Lemma score_in_unit_interval_witness :
  ∃ scores,
    aggregate_score (get_priority_states stable_argsort ["m1"; "m2"] crossed).1
      = Some scores ∧
    length scores = nrows crossed ∧
    (∀ i s, scores !! i = Some (Some s) → 0 <= s ∧ s <= 1) ∧
    (∀ i m c v lo hi,
       (i < nrows crossed)%nat → m ∈ ["m1"; "m2"] →
       get_col m (cols crossed) = Some c →
       c !! i = Some (Some v) →
       series_min c = Some lo → series_max c = Some hi → ¬ lo == hi →
       ∃ s, scores !! i = Some (Some s)) ∧
    (∀ i s, scores !! i = Some (Some s) →
       ∃ m c v lo hi,
         m ∈ ["m1"; "m2"] ∧ get_col m (cols crossed) = Some c ∧
         c !! i = Some (Some v) ∧
         series_min c = Some lo ∧ series_max c = Some hi ∧ ¬ lo == hi).
Proof.
  apply (score_in_unit_interval stable_argsort crossed ["m1"; "m2"]).
  repeat constructor; eexists; reflexivity.
Defined.

(** C6, counterexample.  Both rows of [flat_metric] have a value for [m1],
    the one requested metric, and their score is NaN, not a number of
    [[0, 1]]: the maximum of [m1] equals its minimum.  On doubles a row can
    have the score NaN although its metric has a range: in [overflowing] the
    maximum 1e308 differs from the minimum -1e308, their difference
    overflows, and the row of the maximum gets [inf / inf], NaN. *)
Lemma score_nan_flat_metric :
  get_col "m1" (cols flat_metric) = Some [Some 5; Some 5] ∧
  aggregate_score (get_priority_states stable_argsort ["m1"] flat_metric).1
    = Some [None; None] ∧
  series_min [Some (-0x1.1ccf385ebc8a0p+1023)%float;
              Some 0x1.1ccf385ebc8a0p+1023%float]
    = Some (-0x1.1ccf385ebc8a0p+1023)%float ∧
  series_max [Some (-0x1.1ccf385ebc8a0p+1023)%float;
              Some 0x1.1ccf385ebc8a0p+1023%float]
    = Some 0x1.1ccf385ebc8a0p+1023%float ∧
  leb 0x1.1ccf385ebc8a0p+1023%float (-0x1.1ccf385ebc8a0p+1023)%float = false ∧
  aggregate_score (get_priority_states stable_argsort ["m1"] overflowing).1
    = Some [Some 0%float; None].
Proof. vm_compute. done. Qed.
End exact_scores.

(** ** What the statements do to the table *)

Section effects.
Context {N : Type} `{Num N}.
Variable argsort : list N → list nat.
Implicit Types (cs ns : @columns N) (c : list (option N)) (d : DataFrame N).

Lemma loop_result_ext d d' metrics ns :
  (∀ m, m ∈ metrics → get_col m (cols d) = get_col m (cols d')) →
  loop_result d metrics ns = loop_result d' metrics ns.
Proof.
  revert ns. induction metrics as [|m r IH]; intros ns Hext; [done|].
  unfold loop_result in *. simpl. rewrite (Hext m) by left.
  apply IH. intros m' Hm'. apply Hext. by right.
Qed.

Lemma with_scores_other d metrics name :
  name ≠ "aggregate_score" →
  get_col name (cols (with_scores d metrics)) = get_col name (cols d).
Proof. intros Hne. unfold with_scores. simpl. by apply get_col_set_col_ne. Qed.

Lemma with_scores_present d metrics ms :
  "aggregate_score" ∉ ms → Forall (present d) ms →
  Forall (present (with_scores d metrics)) ms.
Proof.
  intros Hn Hp. apply Forall_forall. intros m Hm. unfold present.
  rewrite with_scores_other by (intros ->; done).
  rewrite Forall_forall in Hp. by apply Hp.
Qed.

(** Writing the scores a second time changes nothing, when no metric is the
    score column itself. *)
Lemma with_scores_twice d metrics :
  "aggregate_score" ∉ metrics →
  with_scores (with_scores d metrics) metrics = with_scores d metrics.
Proof.
  intros Hn.
  assert (loop_result (with_scores d metrics) metrics [] = loop_result d metrics [])
    as E.
  { apply loop_result_ext. intros m Hm. apply with_scores_other. intros ->. done. }
  unfold with_scores at 1. rewrite E. unfold with_scores. simpl.
  by rewrite set_col_set_col.
Qed.

Lemma omap_filter_None {A B} (f : A → option B) (P : A → Prop)
    `{∀ x, Decision (P x)} (l : list A) :
  (∀ x, x ∈ l → ¬ P x → f x = None) → omap f (filter P l) = omap f l.
Proof.
  induction l as [|x l IH]; intros Hf; [done|].
  rewrite filter_cons. csimpl. destruct (decide (P x)) as [Hx|Hx]; csimpl.
  - rewrite IH; [done|]. intros y Hy. apply Hf. by right.
  - rewrite (Hf x) by (done || left). apply IH.
    intros y Hy. apply Hf. by right.
Qed.

(** C5 (as the code has it).  [stats], [rankings] and the filter of the
    impact analysis leave the table as it was.  [get_priority_states] writes
    into the table it is given: when it returns, the table has the column
    [aggregate_score] with the scores (added, or replaced if it was there);
    the [STATE] column and every other column are as before.  When it raises
    [KeyError] the table is as it was. *)
Theorem table_after_each_operation d (metric : string) (metrics : list string) :
  (stats metric d).1 = d ∧
  (rankings argsort metric d).1 = d ∧
  (impact_cohort d).1 = d ∧
  STATE (get_priority_states argsort metrics d).1 = STATE d ∧
  (∀ name, name ≠ "aggregate_score" →
     get_col name (cols (get_priority_states argsort metrics d).1)
       = get_col name (cols d)) ∧
  match (get_priority_states argsort metrics d).2 with
  | Ok _ =>
      aggregate_score (get_priority_states argsort metrics d).1
        = Some (mean_axis1 (nrows d) (loop_result d metrics []))
  | Raise _ => (get_priority_states argsort metrics d).1 = d
  end.
Proof.
  split_and!; [apply stats_state|apply top_by_state|done|..].
  - destruct (decide (Forall (λ m, is_Some (get_col m (cols d))) metrics)) as [Hp|Hp].
    + destruct (get_priority_states_returns argsort metrics d Hp) as [r ->]. done.
    + destruct (get_priority_states_raise argsort metrics d Hp) as (m & _ & _ & ->).
      done.
  - intros name Hne.
    destruct (decide (Forall (λ m, is_Some (get_col m (cols d))) metrics)) as [Hp|Hp].
    + destruct (get_priority_states_returns argsort metrics d Hp) as [r ->].
      by apply with_scores_other.
    + destruct (get_priority_states_raise argsort metrics d Hp) as (m & _ & _ & ->).
      done.
  - destruct (decide (Forall (λ m, is_Some (get_col m (cols d))) metrics)) as [Hp|Hp].
    + destruct (get_priority_states_returns argsort metrics d Hp) as [r ->].
      simpl. apply get_col_set_col_eq.
    + destruct (get_priority_states_raise argsort metrics d Hp) as (m & _ & _ & ->).
      done.
Qed.

(** C9 (as the code has it).  A second call of [stats] or [rankings] returns
    what the first returned.  So does a second call of [get_priority_states],
    and it leaves the table as the first call left it, when the metrics do
    not name the column [aggregate_score] that the first call wrote. *)
Theorem second_call_same_result d (metric : string) (metrics : list string) :
  "aggregate_score" ∉ metrics →
  stats metric (stats metric d).1 = stats metric d ∧
  rankings argsort metric (rankings argsort metric d).1
    = rankings argsort metric d ∧
  get_priority_states argsort metrics (get_priority_states argsort metrics d).1
    = ((get_priority_states argsort metrics d).1,
       (get_priority_states argsort metrics d).2).
Proof.
  intros Hn. split_and!.
  - by rewrite stats_state.
  - unfold rankings. by rewrite top_by_state.
  - destruct (decide (Forall (λ m, is_Some (get_col m (cols d))) metrics)) as [Hp|Hp].
    + rewrite (get_priority_states_ok argsort metrics d Hp), top_by_state.
      rewrite get_priority_states_ok by by apply with_scores_present.
      rewrite with_scores_twice by done.
      pose proof (top_by_state argsort 5 "aggregate_score" (with_scores d metrics)) as E.
      destruct (top_by argsort 5 "aggregate_score" (with_scores d metrics)).
      simpl in *. by subst.
    + destruct (get_priority_states_raise argsort metrics d Hp) as (m & _ & _ & E).
      rewrite E. simpl. by rewrite E.
Qed.
End effects.

Section effects_examples.
Local Open Scope Q_scope.

(** C5, counterexample.  The table [crossed] has no column [aggregate_score];
    after [get_priority_states] it has one. *)
Lemma table_changed_crossed :
  aggregate_score crossed = None ∧
  reduced (get_priority_states stable_argsort ["m1"; "m2"] crossed).1
    = {| STATE := ["A"; "B"];
         cols := [("m1", [Some 0; Some 100]); ("m2", [Some 100; Some 0]);
                  ("aggregate_score", [Some (1 # 2); Some (1 # 2)])] |}.
Proof. vm_compute. done. Qed.

Lemma second_call_same_result_witness :
  stats "m1" (stats "m1" crossed).1 = stats "m1" crossed ∧
  rankings stable_argsort "m1" (rankings stable_argsort "m1" crossed).1
    = rankings stable_argsort "m1" crossed ∧
  get_priority_states stable_argsort ["m1"; "m2"]
      (get_priority_states stable_argsort ["m1"; "m2"] crossed).1
    = ((get_priority_states stable_argsort ["m1"; "m2"] crossed).1,
       (get_priority_states stable_argsort ["m1"; "m2"] crossed).2).
Proof.
  apply (second_call_same_result stable_argsort crossed "m1" ["m1"; "m2"]).
  apply (bool_decide_unpack _). vm_compute. done.
Defined.

(** C9, counterexample.  [rescored] has a column [aggregate_score], and the
    metrics name it: the first call overwrites the column it normalises, and
    the second call of the same function with the same arguments returns
    another ranking, C first with score 1 instead of B first with 3/4. *)
Lemma second_call_differs_rescored :
  let first := get_priority_states stable_argsort ["aggregate_score"; "m2"] rescored in
  let second := get_priority_states stable_argsort ["aggregate_score"; "m2"] first.1 in
  reduced <$> result_value first.2
    = Some {| STATE := ["B"; "C"; "A"];
              cols := [("aggregate_score", [Some (3 # 4); Some (3 # 4); Some 0])] |} ∧
  reduced <$> result_value second.2
    = Some {| STATE := ["C"; "B"; "A"];
              cols := [("aggregate_score", [Some 1; Some (3 # 4); Some 0])] |}.
Proof. vm_compute. done. Qed.
End effects_examples.

(** ** A metric with one value *)

Section zero_variance.
Implicit Types (c : list (option Q)) (d : DataFrame Q).
Local Open Scope Q_scope.

Lemma with_scores_fresh {N : Type} `{Num N} (d : DataFrame N) metrics :
  NoDup metrics → Forall (present d) metrics →
  with_scores d metrics =
    {| STATE := STATE d;
       cols := set_col "aggregate_score" (spec_aggregateScore d metrics) (cols d) |}.
Proof.
  intros Hnd Hp. unfold with_scores. rewrite loop_result_fresh by done.
  simpl. by rewrite mean_axis1_spec.
Qed.

(** C4 (as the code has it, in exact arithmetic).  A metric [m] of the list
    whose maximum equals its minimum makes [get_priority_states] neither
    fail nor ask the caller: every normalised value of [m] is NaN ([0/0]);
    the call returns, with the same table and the same ranking as the call
    without [m]; the table then has a score for every row, which is the mean
    of the terms that the other metrics give to the row, and NaN for a row
    to which no metric gives a term.  On the float columns of the table the
    function raises nothing but [KeyError], for a metric that is no column. *)
Theorem zero_variance_metric_is_skipped (argsort : list Q → list nat)
    d metrics m c (lo hi : Q) :
  NoDup metrics → Forall (present d) metrics → well_formed d → m ∈ metrics →
  get_col m (cols d) = Some c → least c lo → greatest c hi → lo == hi →
  normalize c = replicate (length c) None ∧
  (∃ d' r scores,
     get_priority_states argsort metrics d = (d', Ok r) ∧
     get_priority_states argsort (filter (λ k, k ≠ m) metrics) d = (d', Ok r) ∧
     aggregate_score d' = Some scores ∧ length scores = nrows d ∧
     (∀ i, (i < nrows d)%nat →
        ∃ terms score,
          terms_of d (filter (λ k, k ≠ m) metrics) i terms ∧
          scores !! i = Some score ∧ mean_of terms score) ∧
     (∀ i, (i < nrows d)%nat →
        (∀ k, k ∈ metrics → defined d i k → ¬ has_range d k) →
        scores !! i = Some None)) ∧
  (∀ metrics' d0,
     match (get_priority_states argsort metrics' d0).2 with
     | Ok _ => Forall (present d0) metrics'
     | Raise e => ∃ k, e = KeyError k ∧ k ∈ metrics' ∧ get_col k (cols d0) = None
     end).
Proof.
  intros Hnd Hp Hwf Hm Hc Hlo Hhi Heq.
  pose proof (normalize_least_greatest c lo hi Hlo Hhi Heq) as Hnan.
  split; [done|]. split.
  - assert (∀ i, spec_normalized c i = None) as Hflat.
    { intros i. rewrite <-normalize_lookup, Hnan.
      by destruct (replicate (length c) None !! i) as [x|] eqn:E;
        [apply lookup_replicate in E as [-> _]|]. }
    assert (NoDup (filter (λ k, k ≠ m) metrics)) as Hnd' by by apply NoDup_filter.
    assert (Forall (present d) (filter (λ k, k ≠ m) metrics)) as Hp'.
    { apply Forall_forall. intros k Hk. apply list_elem_of_filter in Hk as [_ Hk].
      rewrite Forall_forall in Hp. by apply Hp. }
    assert (with_scores d (filter (λ k, k ≠ m) metrics) = with_scores d metrics) as E.
    { rewrite !with_scores_fresh by done. do 2 f_equal.
      unfold spec_aggregateScore. apply list_fmap_ext. intros _ i _.
      unfold spec_score, spec_available.
      rewrite omap_filter_None; [done|].
      intros k _ Hk. apply dec_stable in Hk as ->. rewrite Hc. simpl. apply Hflat. }
    destruct (get_priority_states_returns argsort metrics d Hp) as [r Hr].
    assert (get_priority_states argsort (filter (λ k, k ≠ m) metrics) d
            = (with_scores d metrics, Ok r)) as Hr'.
    { rewrite get_priority_states_ok by done. rewrite E.
      by rewrite <-get_priority_states_ok. }
    destruct (score_rows argsort d _ Hnd' Hp' Hwf) as (scores & Hs & Hlen & Hrows).
    rewrite Hr' in Hs. simpl in Hs.
    exists (with_scores d metrics), r, scores. split_and!; try done.
    intros i Hi Hnone. destruct (Hrows i Hi) as (terms & score & Ht & -> & Hmean).
    f_equal. revert Hmean. unfold mean_of.
    destruct (omap id terms) as [|t ts] eqn:Et; [done|]. intros _. exfalso.
    assert (Some t ∈ terms) as Hin.
    { apply elem_of_dropna. unfold dropna. rewrite Et. left. }
    apply list_elem_of_lookup in Hin as [j Hj].
    destruct (Forall2_lookup_r _ _ _ _ _ Ht Hj) as (k & Hk & ck & Hck & Hterm).
    apply list_elem_of_lookup_2, list_elem_of_filter in Hk as [_ Hk].
    destruct (term_of_Some d i k ck t Hck Hterm) as [Hd Hr0].
    by destruct (Hnone k Hk Hd).
  - intros metrics' d0.
    destruct (decide (Forall (λ k, is_Some (get_col k (cols d0))) metrics')) as [Hp0|Hp0].
    + by destruct (get_priority_states_returns argsort metrics' d0 Hp0) as [r ->].
    + destruct (get_priority_states_raise argsort metrics' d0 Hp0) as (k & ? & ? & ->).
      by exists k.
Qed.

Lemma zero_variance_metric_is_skipped_witness :
  normalize [Some 5; Some 5] = replicate (length [Some 5; Some 5]) None ∧
  (∃ d' r scores,
     get_priority_states stable_argsort ["m1"; "m2"] flat_metric = (d', Ok r) ∧
     get_priority_states stable_argsort (filter (λ k, k ≠ "m1") ["m1"; "m2"])
       flat_metric = (d', Ok r) ∧
     aggregate_score d' = Some scores ∧ length scores = nrows flat_metric ∧
     (∀ i, (i < nrows flat_metric)%nat →
        ∃ terms score,
          terms_of flat_metric (filter (λ k, k ≠ "m1") ["m1"; "m2"]) i terms ∧
          scores !! i = Some score ∧ mean_of terms score) ∧
     (∀ i, (i < nrows flat_metric)%nat →
        (∀ k, k ∈ ["m1"; "m2"] → defined flat_metric i k → ¬ has_range flat_metric k) →
        scores !! i = Some None)) ∧
  (∀ metrics' d0,
     match (get_priority_states stable_argsort metrics' d0).2 with
     | Ok _ => Forall (present d0) metrics'
     | Raise e => ∃ k, e = KeyError k ∧ k ∈ metrics' ∧ get_col k (cols d0) = None
     end).
Proof.
  apply (zero_variance_metric_is_skipped stable_argsort flat_metric
           ["m1"; "m2"] "m1" [Some 5; Some 5] 5 5).
  - apply (bool_decide_unpack _). vm_compute. done.
  - repeat constructor; eexists; reflexivity.
  - repeat constructor.
  - apply (bool_decide_unpack _). vm_compute. done.
  - reflexivity.
  - apply series_min_least. reflexivity.
  - apply series_max_greatest. reflexivity.
  - reflexivity.
Defined.

(** C4, counterexample.  The one requested metric of [flat_metric] has the
    same value in every row; [get_priority_states] returns a ranking, with a
    NaN score for every row. *)
Lemma zero_variance_returns_nan :
  series_min [Some 5; Some 5] = Some 5 ∧
  series_max [Some 5; Some 5] = Some 5 ∧
  get_priority_states stable_argsort ["m1"] flat_metric
    = ({| STATE := ["A"; "B"];
          cols := [("m1", [Some 5; Some 5]); ("m2", [Some 0; Some 1]);
                   ("aggregate_score", [None; None])] |},
       Ok {| STATE := ["A"; "B"];
             cols := [("aggregate_score", [None; None])] |}).
Proof. vm_compute. done. Qed.
End zero_variance.

(** ** Sorting *)

Section sorted_lists.
Context {A : Type}.
Implicit Types (R : relation A) (l : list A).

Lemma StronglySorted_reverse R l :
  StronglySorted R l → StronglySorted (flip R) (reverse l).
Proof.
  induction 1 as [|x l Hl IH Hx]; [constructor|].
  rewrite reverse_cons. apply StronglySorted_app_2; [|done|by repeat constructor].
  intros y z Hy Hz. apply list_elem_of_singleton in Hz as ->.
  rewrite elem_of_reverse in Hy. rewrite Forall_forall in Hx. unfold flip. by apply Hx.
Qed.

Lemma StronglySorted_fmap_elem_of {B} (f : A → B) R (R' : relation B) l :
  (∀ x y, x ∈ l → y ∈ l → R x y → R' (f x) (f y)) →
  StronglySorted R l → StronglySorted R' (f <$> l).
Proof.
  intros Hf Hl. induction Hl as [|x l Hl IH Hx]; csimpl; [constructor|].
  constructor.
  - apply IH. intros y z Hy Hz. apply Hf; by right.
  - rewrite Forall_fmap. apply Forall_forall. intros y Hy. simpl.
    rewrite Forall_forall in Hx. apply Hf; [left|by right|by apply Hx].
Qed.

Lemma StronglySorted_lookup R l i j x y :
  StronglySorted R l → l !! i = Some x → l !! j = Some y → i < j → R x y.
Proof.
  intros Hl. revert i j. induction Hl as [|z l Hl IH Hz]; intros i j Hi Hj Hij.
  { by rewrite lookup_nil in Hi. }
  destruct j as [|j]; [lia|]. simpl in Hj. destruct i as [|i].
  - simpl in Hi. simplify_eq. rewrite Forall_forall in Hz. apply Hz.
    by eapply list_elem_of_lookup_2.
  - simpl in Hi. apply (IH i j); [done..|lia].
Qed.

Lemma StronglySorted_filter R (P : A → Prop) `{∀ x, Decision (P x)} l :
  StronglySorted R l → StronglySorted R (filter P l).
Proof.
  induction 1 as [|x l Hl IH Hx]; [constructor|].
  rewrite filter_cons. destruct (decide (P x)); [|done].
  constructor; [done|]. apply Forall_forall. intros y Hy.
  apply list_elem_of_filter in Hy as [_ Hy]. rewrite Forall_forall in Hx. by apply Hx.
Qed.

Lemma StronglySorted_seq o n : StronglySorted lt (seq o n).
Proof.
  revert o. induction n as [|n IH]; intros o; simpl; constructor; [apply IH|].
  apply Forall_forall. intros j Hj. apply elem_of_seq in Hj. lia.
Qed.

Lemma fmap_lookup_seq (d : A) l :
  (λ k, default d (l !! k)) <$> seq 0 (length l) = l.
Proof.
  apply list_eq. intros i. rewrite list_lookup_fmap.
  destruct (decide (i < length l)) as [Hi|Hi].
  - rewrite lookup_seq_lt by done. simpl.
    destruct (lookup_lt_is_Some_2 l i Hi) as [x ->]. done.
  - rewrite lookup_seq_ge by lia. by rewrite lookup_ge_None_2 by lia.
Qed.
End sorted_lists.

Section nargsort.
Context {N : Type} `{Num N}.
Variable argsort : list N → list nat.
Implicit Types (c : list (option N)) (d : DataFrame N).

Lemma filter_ext_elem_of {A} (P Q : A → Prop)
    `{∀ x, Decision (P x)} `{∀ x, Decision (Q x)} (l : list A) :
  (∀ x, x ∈ l → P x ↔ Q x) → filter P l = filter Q l.
Proof.
  induction l as [|x l IH]; intros HPQ; [done|].
  rewrite !filter_cons. rewrite IH by (intros y Hy; apply HPQ; by right).
  destruct (decide (P x)) as [HP|HP], (decide (Q x)) as [HQ|HQ]; try done.
  - apply HPQ in HP; [done|left].
  - apply HPQ in HQ; [done|left].
Qed.

Lemma cell_at_app_l c c' i : i < length c → cell_at (c ++ c') i = cell_at c i.
Proof. intros Hi. unfold cell_at. by rewrite lookup_app_l. Qed.

Lemma non_nan_rows_snoc c x :
  non_nan_rows (c ++ [x]) =
    non_nan_rows c ++ (if x is Some _ then [length c] else []).
Proof.
  unfold non_nan_rows. rewrite length_app. simpl.
  rewrite seq_app, filter_app. f_equal.
  - apply filter_ext_elem_of. intros i Hi. apply elem_of_seq in Hi.
    rewrite cell_at_app_l by lia. done.
  - simpl. rewrite filter_cons, filter_nil. unfold cell_at.
    rewrite list_lookup_middle by done. simpl.
    destruct x; [by rewrite decide_True|by rewrite decide_False by by intros []].
Qed.


(** The values that are not NaN are the cells of the rows that have one. *)
Lemma non_nan_rows_values c :
  Forall2 (λ i v, c !! i = Some (Some v)) (non_nan_rows c) (dropna c).
Proof.
  induction c as [|x c IH] using rev_ind; [constructor|].
  rewrite non_nan_rows_snoc. unfold dropna in *. rewrite omap_app.
  apply Forall2_app.
  - eapply Forall2_impl; [exact IH|]. intros i v Hi. simpl in Hi.
    by apply lookup_app_l_Some.
  - destruct x as [v|]; csimpl; repeat constructor.
    by rewrite list_lookup_middle.
Qed.

Lemma nan_rows_cells c i : i ∈ nan_rows c → cell_at c i = None.
Proof.
  unfold nan_rows. intros Hi. apply list_elem_of_filter in Hi as [Hi _].
  destruct (cell_at c i); [|done]. destruct Hi. eauto.
Qed.

Lemma rows_split c : non_nan_rows c ++ nan_rows c ≡ₚ seq 0 (length c).
Proof. apply filter_app_complement. Qed.

Lemma non_nan_rows_sorted c : StronglySorted lt (non_nan_rows c).
Proof. apply StronglySorted_filter, StronglySorted_seq. Qed.

Lemma nan_rows_sorted c : StronglySorted lt (nan_rows c).
Proof. apply StronglySorted_filter, StronglySorted_seq. Qed.

(** The row order of [sort_values]: the rows with a value, each once, their
    values in descending order, then the rows without a value in row order.
    With a stable [argsort], rows with equal values keep their order. *)
Lemma nargsort_desc_spec c :
  argsort_ok argsort → numbers c →
  ∃ ix,
    nargsort_desc argsort c = ix ++ nan_rows c ∧
    ix ≡ₚ non_nan_rows c ∧
    StronglySorted (λ i j, cell_leb (cell_at c j) (cell_at c i) = true) ix ∧
    (stable argsort →
     StronglySorted
       (λ i j, cell_leb (cell_at c i) (cell_at c j) = true → i < j) ix).
Proof.
  intros Hok Hnum. unfold nargsort_desc.
  set (l := reverse (dropna c)). set (rD := reverse (non_nan_rows c)).
  set (g := λ k : nat, default 0 (rD !! k)).
  destruct (Hok l) as [Hperm Hsorted]; [by apply Forall_reverse|].
  assert (Forall2 (λ i v, c !! i = Some (Some v)) rD l) as Hrel
    by apply Forall2_reverse, non_nan_rows_values.
  assert (length rD = length l) as Hlen by by eapply Forall2_length.
  assert (∀ p v, l !! p = Some v → cell_at c (g p) = Some v) as Hg.
  { intros p v Hp. destruct (Forall2_lookup_r _ _ _ _ _ Hrel Hp) as (i & Hi & Hc).
    unfold g, cell_at. rewrite Hi. simpl. by rewrite Hc. }
  assert (∀ p, p ∈ argsort l → is_Some (l !! p)) as Hrange.
  { intros p Hp. rewrite Hperm in Hp. apply elem_of_seq in Hp.
    apply lookup_lt_is_Some_2. lia. }
  exists (reverse (g <$> argsort l)). split_and!; [done|..].
  - rewrite reverse_Permutation, Hperm, <-Hlen.
    unfold g. rewrite fmap_lookup_seq. apply reverse_Permutation.
  - apply (StronglySorted_reverse
             (λ i j, cell_leb (cell_at c i) (cell_at c j) = true)).
    eapply StronglySorted_fmap_elem_of; [|exact Hsorted].
    intros p q Hp Hq Hpq. simpl in Hpq. unfold key_leb in Hpq.
    destruct (l !! p) as [vp|] eqn:Ep; [|done].
    destruct (l !! q) as [vq|] eqn:Eq; [|done].
    by rewrite (Hg p vp), (Hg q vq).
  - intros Hst.
    apply (StronglySorted_reverse
             (λ i j, cell_leb (cell_at c j) (cell_at c i) = true → j < i)).
    eapply StronglySorted_fmap_elem_of; [|exact (Hst l)].
    intros p q Hp Hq Hpq Hle. simpl in Hpq.
    destruct (Hrange p Hp) as [vp Ep]. destruct (Hrange q Hq) as [vq Eq].
    rewrite (Hg p vp), (Hg q vq) in Hle by done.
    assert (p < q) as Hlt.
    { apply Hpq. unfold key_leb. by rewrite Ep, Eq. }
    destruct (Forall2_lookup_r _ _ _ _ _ Hrel Ep) as (ip & Hip & _).
    destruct (Forall2_lookup_r _ _ _ _ _ Hrel Eq) as (iq & Hiq & _).
    unfold g. rewrite Hip, Hiq. simpl.
    pose proof (StronglySorted_reverse lt _ (non_nan_rows_sorted c)) as Hdec.
    by apply (StronglySorted_lookup _ _ _ _ _ _ Hdec Hip Hiq).
Qed.
End nargsort.

(** ** The insertion sort of indices *)

Section insertion.
Context {N : Type} `{Num N}.
Implicit Types (l : list N) (ix : list nat).

Lemma insert_idx_perm l i ix : insert_idx l i ix ≡ₚ i :: ix.
Proof.
  induction ix as [|j r IH]; simpl; [done|].
  destruct (key_leb l i j); [done|]. rewrite IH. apply Permutation_swap.
Qed.

Lemma foldr_insert_idx_perm l ix : foldr (insert_idx l) [] ix ≡ₚ ix.
Proof.
  induction ix as [|i r IH]; simpl; [done|]. by rewrite insert_idx_perm, IH.
Qed.

Lemma insert_idx_stable l i ix :
  Forall (lt i) ix →
  StronglySorted (λ i j, key_leb l j i = true → i < j) ix →
  StronglySorted (λ i j, key_leb l j i = true → i < j) (insert_idx l i ix).
Proof.
  intros Hi Hs. induction Hs as [|j r Hr IH Hj]; simpl.
  - repeat constructor.
  - apply Forall_cons in Hi as [Hij Hi].
    destruct (key_leb l i j) eqn:E.
    + constructor; [by constructor|]. constructor; [done|].
      eapply Forall_impl; [exact Hi|]. done.
    + constructor; [by apply IH|].
      rewrite insert_idx_perm. constructor; [|done]. congruence.
Qed.

Lemma stable_argsort_stable : stable (stable_argsort (N:=N)).
Proof.
  intros l. unfold stable_argsort. generalize 0 as o.
  induction (length l) as [|n IH]; intros o; simpl; [constructor|].
  apply insert_idx_stable; [|apply IH].
  rewrite foldr_insert_idx_perm. apply Forall_forall. intros j Hj.
  apply elem_of_seq in Hj. lia.
Qed.

Lemma stable_argsort_perm l : stable_argsort l ≡ₚ seq 0 (length l).
Proof. apply foldr_insert_idx_perm. Qed.
End insertion.

Section ordered_insertion.
Context {N : Type} `{Num N}.
Hypothesis leb_total : ∀ a b : N, number a → number b → leb a b = false → leb b a = true.
Hypothesis leb_trans : ∀ a b c : N, leb a b = true → leb b c = true → leb a c = true.
Implicit Types (l : list N) (ix : list nat).

Lemma key_leb_total l i j :
  Forall number l →
  i < length l → j < length l → key_leb l i j = false → key_leb l j i = true.
Proof.
  intros Hl Hi Hj. unfold key_leb.
  destruct (lookup_lt_is_Some_2 l i Hi) as [a Ha].
  destruct (lookup_lt_is_Some_2 l j Hj) as [b Hb]. rewrite Ha, Hb.
  rewrite Forall_forall in Hl.
  apply leb_total; apply Hl; by eapply list_elem_of_lookup_2.
Qed.

Lemma key_leb_trans l i j k :
  key_leb l i j = true → key_leb l j k = true → key_leb l i k = true.
Proof.
  unfold key_leb. destruct (l !! i), (l !! j), (l !! k); try done.
  apply leb_trans.
Qed.

Lemma insert_idx_sorted l i ix :
  Forall number l →
  i < length l → Forall (λ j, j < length l) ix →
  StronglySorted (λ i j, key_leb l i j = true) ix →
  StronglySorted (λ i j, key_leb l i j = true) (insert_idx l i ix).
Proof.
  intros Hl Hi Hix Hs. induction Hs as [|j r Hr IH Hj]; simpl.
  - repeat constructor.
  - apply Forall_cons in Hix as [Hjl Hix].
    destruct (key_leb l i j) eqn:E.
    + constructor; [by constructor|]. constructor; [done|].
      eapply Forall_impl; [exact Hj|]. intros k Hk. simpl in Hk.
      by eapply key_leb_trans.
    + constructor; [by apply IH|].
      rewrite insert_idx_perm. constructor; [|done]. by apply key_leb_total.
Qed.

(** The insertion sort sorts, where the order is total and transitive. *)
Lemma stable_argsort_sorts : argsort_ok (stable_argsort (N:=N)).
Proof.
  intros l Hl. split; [apply stable_argsort_perm|].
  unfold stable_argsort.
  assert (∀ ix, Forall (λ j, j < length l) ix →
            StronglySorted (λ i j, key_leb l i j = true)
              (foldr (insert_idx l) [] ix)) as Hgen.
  { induction 1 as [|i r Hi Hr IH]; simpl; [constructor|].
    apply insert_idx_sorted; [done|done| |done].
    by rewrite foldr_insert_idx_perm. }
  apply Hgen, Forall_forall. intros j Hj. apply elem_of_seq in Hj. lia.
Qed.
End ordered_insertion.

Section exact_insertion.
Local Open Scope Q_scope.

Lemma stable_argsort_ok : argsort_ok (stable_argsort (N:=Q)).
Proof.
  apply stable_argsort_sorts.
  - intros a b _ _ E. apply leb_exact. by apply leb_exact_false.
  - intros a b c. rewrite !leb_exact. apply Qle_trans.
Qed.
End exact_insertion.

(** ** The order of the doubles

    The comparison of IEEE-754 doubles, as the axioms of the primitive floats
    specify it, is total and transitive on the doubles that are not NaN. *)

Section binary64_order.

Lemma SFleb_total (x y : spec_float) :
  SFleb x x = true → SFleb y y = true → SFleb x y = false → SFleb y x = true.
Proof.
  unfold SFleb.
  destruct x as [sx|sx| |sx mx ex], y as [sy|sy| |sy my ey]; simpl;
    try destruct sx; try destruct sy; try done.
  all: intros _ _;
    change (PosDef.Pos.compare_cont Eq my mx) with (Pos.compare my mx);
    change (PosDef.Pos.compare_cont Eq mx my) with (Pos.compare mx my);
    rewrite (Z.compare_antisym ex ey), (Pos.compare_antisym mx my);
    destruct (ex ?= ey)%Z, (mx ?= my)%positive; done.
Qed.

Lemma SFleb_trans (x y z : spec_float) :
  SFleb x y = true → SFleb y z = true → SFleb x z = true.
Proof.
  unfold SFleb.
  destruct x as [sx|sx| |sx mx ex], y as [sy|sy| |sy my ey],
    z as [sz|sz| |sz mz ez]; simpl;
    try destruct sx; try destruct sy; try destruct sz; try done.
  all: change (PosDef.Pos.compare_cont Eq mx my) with (Pos.compare mx my);
    change (PosDef.Pos.compare_cont Eq my mz) with (Pos.compare my mz);
    change (PosDef.Pos.compare_cont Eq mx mz) with (Pos.compare mx mz);
    destruct (Z.compare_spec ex ey), (Z.compare_spec ey ez), (Z.compare_spec ex ez);
    try done; try lia;
    destruct (Pos.compare_spec mx my), (Pos.compare_spec my mz),
      (Pos.compare_spec mx mz); simpl; try done; lia.
Qed.

(** A double that is not NaN is a number. *)
Lemma number_binary64 (x : float) : PrimFloat.is_nan x = false → number x.
Proof.
  unfold number, PrimFloat.is_nan. intros E. simpl.
  rewrite FloatAxioms.eqb_spec in E. rewrite FloatAxioms.leb_spec.
  unfold SFeqb in E. unfold SFleb.
  by destruct (SFcompare (Prim2SF x) (Prim2SF x)) as [[]|].
Qed.

(** A quotient of doubles that is kept as a cell is a number. *)
Lemma div_binary64_number (a b q : float) : div a b = Some q → number q.
Proof.
  simpl. destruct (PrimFloat.is_nan (a / b)) eqn:E; [done|].
  intros [= <-]. by apply number_binary64.
Qed.

Lemma stable_argsort_ok_binary64 : argsort_ok (stable_argsort (N:=float)).
Proof.
  apply stable_argsort_sorts.
  - intros a b. unfold number. simpl. rewrite !FloatAxioms.leb_spec.
    apply SFleb_total.
  - intros a b c. simpl. rewrite !FloatAxioms.leb_spec. apply SFleb_trans.
Qed.
End binary64_order.

(** ** Rankings *)

Section rankings.
Context {N : Type} `{Num N}.
Variable argsort : list N → list nat.
Implicit Types (c : list (option N)) (d : DataFrame N).

Lemma pairs_head_take_rows name c d ix n :
  pairs name (head n (take_rows ix {| STATE := STATE d; cols := [(name, c)] |}))
    = take n (row_pair d c <$> ix).
Proof.
  unfold pairs, head, take_rows. simpl. rewrite String.eqb_refl. simpl.
  rewrite <-(zip_with_take pair), zip_with_fmap_l, zip_with_fmap_r.
  by rewrite zip_with_diag.
Qed.

(** C2 (as the code has it).  For a column [metric] of the table, [top_by n]
    (of which [rankings] is the case [n = 10]) returns the first [n]
    (state, value) pairs of this sequence of all the rows: the rows that have
    a value, each once, in descending order of value, followed by the rows
    that have none, in row order.  So it returns [min n rows] pairs, without
    failing, and a row without a value is returned when [n] exceeds the
    number of rows with one.  Rows with equal values keep their row order
    when numpy's [argsort] is stable, which the default kind does not
    promise.  The table is left as it was.  This holds for every carrier,
    the doubles among them: [argsort] is asked to sort the lists without NaN
    only, which an insertion sort does on doubles
    ([stable_argsort_ok_binary64]), and the NaN cells of the column are
    [None]. *)
Theorem top_by_ranking d (metric : string) c (n : nat) :
  argsort_ok argsort → get_col metric (cols d) = Some c → numbers c →
  ∃ r ix,
    top_by argsort n metric d = (d, Ok r) ∧
    pairs metric r = take n (row_pair d c <$> (ix ++ nan_rows c)) ∧
    length (pairs metric r) = n `min` length c ∧
    ix ≡ₚ non_nan_rows c ∧
    StronglySorted (λ i j, cell_leb (cell_at c j) (cell_at c i) = true) ix ∧
    (stable argsort →
     StronglySorted
       (λ i j, cell_leb (cell_at c i) (cell_at c j) = true → i < j) ix).
Proof.
  intros Hok Hc Hnum.
  destruct (nargsort_desc_spec argsort c Hok Hnum)
    as (ix & Hix & Hperm & Hsorted & Hstable).
  eexists _, ix. split_and!; [|by rewrite <-Hix, pairs_head_take_rows| |done..].
  - unfold top_by, bind, select, lift, ret, sort_values. rewrite Hc. simpl.
    by rewrite String.eqb_refl.
  - rewrite pairs_head_take_rows, length_take, length_fmap, Hix, Hperm.
    by rewrite rows_split, length_seq.
Qed.
End rankings.

Section rankings_examples.
Local Open Scope Q_scope.

Lemma top_by_ranking_witness :
  ∃ r ix,
    top_by stable_argsort 2 "metric1" three_doubles = (three_doubles, Ok r) ∧
    pairs "metric1" r
      = take 2 (row_pair three_doubles [Some 10; Some 20; Some 30]%float
                  <$> (ix ++ nan_rows [Some 10; Some 20; Some 30]%float)) ∧
    length (pairs "metric1" r) = 2 `min` length [Some 10; Some 20; Some 30]%float ∧
    ix ≡ₚ non_nan_rows [Some 10; Some 20; Some 30]%float ∧
    StronglySorted
      (λ i j, cell_leb (cell_at [Some 10; Some 20; Some 30]%float j)
                       (cell_at [Some 10; Some 20; Some 30]%float i) = true) ix ∧
    (stable (stable_argsort (N:=float)) →
     StronglySorted
       (λ i j, cell_leb (cell_at [Some 10; Some 20; Some 30]%float i)
                        (cell_at [Some 10; Some 20; Some 30]%float j) = true
               → (i < j)%nat)
       ix).
Proof.
  apply (top_by_ranking stable_argsort three_doubles "metric1"
           [Some 10; Some 20; Some 30]%float 2);
    [apply stable_argsort_ok_binary64|reflexivity|].
  repeat constructor.
Defined.

(** C2, counterexample.  One row of [with_gap] has a value for [m1].  The
    ranking for [n = 10] has two pairs, the second being the row without a
    value: it is not left out, and the ranking is longer than the number of
    rows with a value. *)
Lemma rankings_with_gap :
  (rankings stable_argsort "m1" with_gap).2
    = Ok {| STATE := ["A"; "B"]; cols := [("m1", [Some 1; None])] |} ∧
  pairs "m1" {| STATE := ["A"; "B"]; cols := [("m1", [Some 1; None])] |}
    = [("A", Some 1); ("B", None)] ∧
  length (non_nan_rows [Some 1; None]) = 1%nat.
Proof. vm_compute. done. Qed.
End rankings_examples.

(** ** The priority states and the states of the impact analysis *)

Section unique_order.
Implicit Types (l : list Q) (c : list (option Q)) (d : DataFrame Q).
Local Open Scope Q_scope.

Lemma distinct_keys_spec l (i j : nat) :
  distinct_keys l = true →
  key_leb l i j = true → key_leb l j i = true → i = j.
Proof.
  intros Hd Hij Hji. unfold distinct_keys in Hd.
  rewrite forallb_forall in Hd.
  assert (i < length l ∧ j < length l)%nat as [Hi Hj].
  { unfold key_leb in Hij. split; apply lookup_lt_is_Some.
    - destruct (l !! i); [eauto|done].
    - destruct (l !! i), (l !! j); eauto; done. }
  specialize (Hd i). rewrite forallb_forall in Hd.
  assert (In i (seq 0 (length l))) as Hi' by (apply in_seq; lia).
  assert (In j (seq 0 (length l))) as Hj' by (apply in_seq; lia).
  specialize (Hd Hi' j Hj'). rewrite Hij, Hji in Hd. simpl in Hd.
  rewrite orb_false_r in Hd. by apply Nat.eqb_eq in Hd.
Qed.

(** Without equal values there is one sorted order. *)
Lemma argsort_unique (argsort : list Q → list nat) l :
  argsort_ok argsort → distinct_keys l = true → argsort l = stable_argsort l.
Proof.
  intros Hok Hd. destruct (Hok l (Forall_number_exact l)) as [Hperm Hsorted].
  destruct (stable_argsort_ok l (Forall_number_exact l)) as [Hperm' Hsorted'].
  eapply StronglySorted_unique_strong; [|exact Hsorted|exact Hsorted'|].
  - intros i j _ _. by apply distinct_keys_spec.
  - by rewrite Hperm, Hperm'.
Qed.

Lemma get_priority_states_unique (argsort : list Q → list nat) d metrics :
  argsort_ok argsort → Forall (present d) metrics →
  distinct_keys
    (reverse (dropna (mean_axis1 (nrows d) (loop_result d metrics [])))) = true →
  get_priority_states argsort metrics d
    = get_priority_states stable_argsort metrics d.
Proof.
  intros Hok Hp Hd. rewrite !get_priority_states_ok by done.
  unfold top_by, bind, select, lift, ret, with_scores. simpl.
  rewrite get_col_set_col_eq. unfold sort_values. simpl.
  unfold nargsort_desc. by rewrite (argsort_unique argsort).
Qed.

(** C8.  There is a table for which the five states ranked first by
    [get_priority_states] on the metrics of the script are not the five
    states that the impact analysis selects by name: for [six_states] the
    ranking is MS, LA, WV, KY, AL, with KY, which is none of the five named
    states, and without DE, which is one of them. *)
Theorem priority_states_differ_from_impact_states :
  ∃ d : DataFrame Q,
    ∀ argsort : list Q → list nat, argsort_ok argsort →
      ∃ priority_states d',
        get_priority_states argsort metrics_list d = (d', Ok priority_states) ∧
        STATE priority_states = ["MS"; "LA"; "WV"; "KY"; "AL"] ∧
        STATE <$> result_value (snd (impact_cohort d'))
          = Some ["MS"; "WV"; "LA"; "DE"; "AL"] ∧
        "KY" ∈ STATE priority_states ∧ ("KY" ∉ impact_states) ∧
        "DE" ∈ impact_states ∧ ("DE" ∉ STATE priority_states).
Proof.
  exists six_states. intros argsort Hok.
  rewrite get_priority_states_unique; [|done|..].
  - destruct (get_priority_states stable_argsort metrics_list six_states)
      as [d' [r|e]] eqn:E; vm_compute in E; [|done].
    injection E as <- <-. eexists _, _. split; [done|].
    split_and!; try (vm_compute; done);
      apply (bool_decide_unpack _); vm_compute; done.
  - repeat constructor; eexists; reflexivity.
  - vm_compute. done.
Qed.
End unique_order.

(** ** The name [merged_map_extended] *)

Section names.

Lemma run_app o ns p q :
  run o ns (p ++ q) =
    match run o ns p with
    | Finished ns' => run o ns' q
    | Raised l x => Raised l x
    end.
Proof.
  revert ns. induction p as [|[l s] p IH]; intros ns; simpl; [done|].
  destruct (exec o ns l s); [apply IH|done].
Qed.

Lemma run_cons o ns l s q :
  run o ns ((l, s) :: q) =
    match exec o ns l s with
    | Finished ns' => run o ns' q
    | Raised l' x => Raised l' x
    end.
Proof. reflexivity. Qed.

(** Whatever the operations of lines 1-112 do, they raise or leave a
    namespace with [get_priority_states] and without [merged_map_extended]. *)
Lemma before_priority_states_outcome o :
  match run o builtins before_priority_states with
  | Finished ns =>
      bound "merged_map_extended" ns = false ∧
      bound "get_priority_states" ns = true
  | Raised l x => l < 114
  end.
Proof.
  destruct o as [f t it].
  oracle_cases f t; lazy head; first [lia | split; reflexivity].
Qed.

(** Whatever the operations of lines 130-137 do, the impact analysis raises,
    at line 138 at the latest. *)
Lemma impact_section_outcome o :
  match run o names_before_impact impact_section with
  | Finished ns => False
  | Raised l x => l ≤ 138 ∧ (l = 138 → x = NameError "merged_map_extended")
  end.
Proof.
  destruct o as [f t it].
  oracle_cases f t; lazy head; (split; [lia|first [lia|done]]).
Qed.

Lemma line_114_raises o ns :
  bound "merged_map_extended" ns = false →
  bound "get_priority_states" ns = true →
  exec o ns 114 line_114 = Raised 114 (NameError "merged_map_extended").
Proof.
  intros Hm Hg. unfold line_114. simpl. by rewrite Hg, Hm.
Qed.

Lemma line_138_raises o ns :
  bound "merged_map_extended" ns = false →
  exec o ns 138 line_138 = Raised 138 (NameError "merged_map_extended").
Proof.
  intros Hm. unfold line_138. simpl. by rewrite Hm.
Qed.

(** C10.  The table loaded by [load_data_from_s3] is bound to [merged_map]
    (line 43), and no statement of the script binds [merged_map_extended].
    Whatever the operations on the values do, hence whatever the table:
    line 114 and line 138 raise [NameError] for that name in every namespace
    that has not bound it; the script never gets past line 114, where the
    exception is that [NameError]; and the impact analysis, run in a
    namespace with every name the lines before it can bind, stops at line
    138 with that [NameError] unless an operation of lines 130-137 fails. *)
Theorem merged_map_extended_is_unbound (o : oracle) :
  before_priority_states !! 14
    = Some (43, Assign ["merged_map"] (Call (Name "load_data_from_s3") [])) ∧
  bound "merged_map_extended" (bound_names dashboard ++ builtins) = false ∧
  (∀ ns, bound "merged_map_extended" ns = false →
         bound "get_priority_states" ns = true →
         exec o ns 114 line_114 = Raised 114 (NameError "merged_map_extended")) ∧
  (∀ ns, bound "merged_map_extended" ns = false →
         exec o ns 138 line_138 = Raised 138 (NameError "merged_map_extended")) ∧
  (∃ l x, run o builtins dashboard = Raised l x ∧ l ≤ 114 ∧
          (l = 114 → x = NameError "merged_map_extended")) ∧
  (∃ l x, run o names_before_impact impact_section = Raised l x ∧ l ≤ 138 ∧
          (l = 138 → x = NameError "merged_map_extended")) ∧
  run quiet builtins dashboard = Raised 114 (NameError "merged_map_extended").
Proof.
  split_and!.
  - reflexivity.
  - vm_compute. reflexivity.
  - apply line_114_raises.
  - apply line_138_raises.
  - unfold dashboard. rewrite run_app.
    pose proof (before_priority_states_outcome o) as Hb.
    destruct (run o builtins before_priority_states) as [ns|l x].
    + destruct Hb as [Hm Hg]. cbn [app].
      rewrite run_cons, line_114_raises by done.
      eexists _, _. split_and!; [reflexivity|lia|done].
    + eexists _, _. split_and!; [reflexivity|lia|lia].
  - pose proof (impact_section_outcome o) as Hi.
    destruct (run o names_before_impact impact_section) as [ns|l x]; [done|].
    destruct Hi. by eexists _, _.
  - vm_compute. reflexivity.
Qed.
End names.

(** ** The scenarios of the specification *)

Section scenarios.
Local Open Scope Q_scope.

(** Rows 10, 20, 30: mean 20 (as 60/3), median 20, maximum 30, minimum 10. *)
Example three_rows_summary :
  (stats "metric1" three_rows).2
    = Ok {| s_mean := Some (60 # 3); s_p50 := Some 20;
            s_max := Some 30; s_min := Some 10 |}.
Proof. reflexivity. Qed.

(** The two rows with the largest values, largest first. *)
Example three_rows_top_two :
  pairs "metric1" <$> result_value (top_by stable_argsort 2 "metric1" three_rows).2
    = Some [("C", Some 30); ("B", Some 20)].
Proof. reflexivity. Qed.

(** Two metrics in opposite order: both rows score 1/2. *)
Example crossed_scores :
  aggregate_score (reduced (get_priority_states stable_argsort ["m1"; "m2"] crossed).1)
    = Some [Some (1 # 2); Some (1 # 2)].
Proof. reflexivity. Qed.

(** A metric that is no column. *)
Example nonexistent_metric :
  (stats "nonexistent" three_rows).2 = Raise (KeyError "nonexistent") ∧
  (rankings stable_argsort "nonexistent" three_rows).2
    = Raise (KeyError "nonexistent") ∧
  (get_priority_states stable_argsort ["nonexistent"] three_rows).2
    = Raise (KeyError "nonexistent").
Proof. done. Qed.

(** Equal values keep their row order under a stable sort, and the row
    without a value comes last. *)
Example ties_and_gap :
  pairs "m" <$> result_value
    (rankings stable_argsort "m"
       {| STATE := ["A"; "B"; "C"; "D"];
          cols := [("m", [Some 1; None; Some 3; Some 3])] |}).2
    = Some [("C", Some 3); ("D", Some 3); ("A", Some 1); ("B", None)].
Proof. reflexivity. Qed.
End scenarios.


(** ** The first row of the ranking and the maximum of the summary *)

Section ranking_and_summary.
Implicit Types (c : list (option Q)) (d : DataFrame Q).
Local Open Scope Q_scope.

Lemma non_nan_rows_elem_of_dropna c v :
  v ∈ dropna c → ∃ i, i ∈ non_nan_rows c ∧ cell_at c i = Some v.
Proof.
  intros Hv. pose proof (non_nan_rows_values c) as HF.
  apply list_elem_of_lookup in Hv as [k Hk].
  destruct (Forall2_lookup_r _ _ _ _ _ HF Hk) as (i & Hi & Hci).
  exists i. split; [by eapply list_elem_of_lookup_2|].
  unfold cell_at. by rewrite Hci.
Qed.

Lemma non_nan_rows_cell c i :
  i ∈ non_nan_rows c → ∃ v, cell_at c i = Some v ∧ v ∈ dropna c.
Proof.
  intros Hi. pose proof (non_nan_rows_values c) as HF.
  apply list_elem_of_lookup in Hi as [k Hk].
  destruct (Forall2_lookup_l _ _ _ _ _ HF Hk) as (v & Hv & Hci).
  exists v. split; [unfold cell_at; by rewrite Hci|by eapply list_elem_of_lookup_2].
Qed.

(** X1.  For a column that has a value, on exact numbers: the first row of
    the top-10 table of lines 73-76 holds the number that line 89 shows as
    the maximum, [stats['max']] of line 82. *)
Theorem rankings_first_is_max (argsort : list Q → list nat) d metric c :
  argsort_ok argsort → get_col metric (cols d) = Some c → dropna c ≠ [] →
  ∃ r top state v hi,
    (rankings argsort metric d).2 = Ok r ∧
    (stats metric d).2 = Ok top ∧
    pairs metric r !! 0%nat = Some (state, Some v) ∧
    s_max top = Some hi ∧ v == hi.
Proof.
  intros Hok Hc Hne.
  destruct (nargsort_desc_spec argsort c Hok (numbers_exact c))
    as (ix & Hix & Hperm & Hsorted & _).
  destruct (series_max c) as [hi|] eqn:Hhi; [|by apply series_max_None in Hhi].
  pose proof (series_max_elem_of _ _ Hhi) as Hin.
  pose proof (series_max_ge _ _ Hhi) as Hge.
  destruct (non_nan_rows_elem_of_dropna _ _ Hin) as (k & Hk & Hck).
  rewrite <-Hperm in Hk.
  destruct ix as [|i0 rest]; [by apply elem_of_nil in Hk|].
  assert (Hi0 : i0 ∈ non_nan_rows c) by (rewrite <-Hperm; left).
  destruct (non_nan_rows_cell _ _ Hi0) as (v & Hv & Hvin).
  exists (head 10 (take_rows (nargsort_desc argsort c)
                     {| STATE := STATE d; cols := [(metric, c)] |})),
    (describe c), (default EmptyString (STATE d !! i0)), v, hi.
  split_and!.
  - unfold rankings, top_by, bind, select, lift, ret, sort_values. rewrite Hc. simpl.
    by rewrite String.eqb_refl.
  - unfold stats, bind, getitem, ret. by rewrite Hc.
  - rewrite pairs_head_take_rows, Hix. simpl. unfold row_pair. by rewrite Hv.
  - done.
  - apply Qle_antisym.
    + rewrite Forall_forall in Hge. by apply Hge.
    + apply elem_of_cons in Hk as [->|Hk].
      * rewrite Hck in Hv. injection Hv as ->. apply Qle_refl.
      * apply StronglySorted_inv in Hsorted as [_ Hall].
        rewrite Forall_forall in Hall. specialize (Hall _ Hk).
        rewrite Hck, Hv in Hall. by apply leb_exact.
Qed.

Lemma rankings_first_is_max_witness :
  ∃ r top state v hi,
    (rankings stable_argsort "metric1" three_rows).2 = Ok r ∧
    (stats "metric1" three_rows).2 = Ok top ∧
    pairs "metric1" r !! 0%nat = Some (state, Some v) ∧
    s_max top = Some hi ∧ v == hi.
Proof.
  apply (rankings_first_is_max stable_argsort three_rows "metric1"
           [Some 10; Some 20; Some 30]);
    [apply stable_argsort_ok|reflexivity|discriminate].
Defined.
End ranking_and_summary.

(** ** The normalisation of line 106 *)

Section exact_normalize.
Implicit Types (c : list (option Q)).
Local Open Scope Q_scope.

Lemma range_pos c (lo hi : Q) :
  series_min c = Some lo → series_max c = Some hi → ¬ lo == hi → 0 < hi - lo.
Proof.
  intros Hlo Hhi Hne.
  pose proof (series_min_elem_of _ _ Hlo) as Hin.
  pose proof (series_max_ge _ _ Hhi) as Hge.
  rewrite Forall_forall in Hge. specialize (Hge _ Hin).
  destruct (Qlt_le_dec lo hi) as [?|Hle]; [lra|].
  destruct Hne. by apply Qle_antisym.
Qed.

Lemma normalize_cell c i (v lo hi : Q) :
  c !! i = Some (Some v) → series_min c = Some lo → series_max c = Some hi →
  ¬ lo == hi → normalize c !! i = Some (Some ((v - lo) / (hi - lo))).
Proof.
  intros Hc Hlo Hhi Hne. unfold normalize.
  rewrite list_lookup_fmap, Hc, Hlo, Hhi. simpl. f_equal.
  apply div_exact_Some. change (sub hi lo) with (hi - lo).
  pose proof (range_pos _ _ _ Hlo Hhi Hne). lra.
Qed.

Lemma scaled_le (x y r : Q) : 0 < r → x / r <= y / r ↔ x <= y.
Proof.
  intros Hr. unfold Qdiv. apply Qmult_le_r. by apply Qinv_lt_0_compat.
Qed.

(** X2.  The quotient of line 106 on a column whose least and greatest values
    differ, on exact numbers: the column keeps its length and its NaN cells;
    a value equal to the minimum becomes 0 and one equal to the maximum
    becomes 1, and some row has each; the order of the values is kept. *)
Theorem normalize_order_and_endpoints c (lo hi : Q) :
  series_min c = Some lo → series_max c = Some hi → ¬ lo == hi →
  length (normalize c) = length c ∧
  (∀ i, c !! i = Some None → normalize c !! i = Some None) ∧
  (∀ i v, c !! i = Some (Some v) →
     ∃ t, normalize c !! i = Some (Some t) ∧
          (v == lo → t == 0) ∧ (v == hi → t == 1)) ∧
  (∀ i j vi vj ti tj,
     c !! i = Some (Some vi) → c !! j = Some (Some vj) →
     normalize c !! i = Some (Some ti) → normalize c !! j = Some (Some tj) →
     vi <= vj ↔ ti <= tj) ∧
  (∃ i j t0 t1, normalize c !! i = Some (Some t0) ∧ t0 == 0 ∧
                normalize c !! j = Some (Some t1) ∧ t1 == 1).
Proof.
  intros Hlo Hhi Hne. pose proof (range_pos _ _ _ Hlo Hhi Hne) as Hr.
  assert (Hcell : ∀ i v, c !! i = Some (Some v) →
     ∃ t, normalize c !! i = Some (Some t) ∧
          (v == lo → t == 0) ∧ (v == hi → t == 1)).
  { intros i v Hc. eexists. split; [by apply normalize_cell|]. split; intros ->.
    - field. lra.
    - field. lra. }
  split_and!.
  - unfold normalize. by rewrite length_fmap.
  - intros i Hc. unfold normalize. by rewrite list_lookup_fmap, Hc.
  - done.
  - intros i j vi vj ti tj Hi Hj Hti Htj.
    rewrite (normalize_cell _ _ _ _ _ Hi Hlo Hhi Hne) in Hti.
    rewrite (normalize_cell _ _ _ _ _ Hj Hlo Hhi Hne) in Htj.
    apply (inj Some), (inj Some) in Hti, Htj. subst ti tj.
    rewrite scaled_le by done. split; intros; lra.
  - pose proof (series_min_elem_of _ _ Hlo) as Hl.
    pose proof (series_max_elem_of _ _ Hhi) as Hh.
    apply elem_of_dropna, list_elem_of_lookup in Hl as [i Hi].
    apply elem_of_dropna, list_elem_of_lookup in Hh as [j Hj].
    destruct (Hcell _ _ Hi) as (t0 & ? & H0 & _).
    destruct (Hcell _ _ Hj) as (t1 & ? & _ & H1).
    exists i, j, t0, t1. split_and!; [done|by apply H0|done|by apply H1].
Qed.

Lemma dropna_Forall2 {A B} (R : A → B → Prop) (l : list (option A)) (k : list (option B)) :
  Forall2 (option_Forall2 R) l k → Forall2 R (omap id l) (omap id k).
Proof.
  induction 1 as [|x y l k Hxy _ IH]; [constructor|].
  destruct Hxy; simpl; [by constructor|done].
Qed.

Lemma normalize_order_and_endpoints_witness :
  length (normalize [Some 10; Some 20; Some 30]) = length [Some 10; Some 20; Some 30] ∧
  (∀ i, [Some 10; Some 20; Some 30] !! i = Some None →
        normalize [Some 10; Some 20; Some 30] !! i = Some None) ∧
  (∀ i v, [Some 10; Some 20; Some 30] !! i = Some (Some v) →
     ∃ t, normalize [Some 10; Some 20; Some 30] !! i = Some (Some t) ∧
          (v == 10 → t == 0) ∧ (v == 30 → t == 1)) ∧
  (∀ i j vi vj ti tj,
     [Some 10; Some 20; Some 30] !! i = Some (Some vi) →
     [Some 10; Some 20; Some 30] !! j = Some (Some vj) →
     normalize [Some 10; Some 20; Some 30] !! i = Some (Some ti) →
     normalize [Some 10; Some 20; Some 30] !! j = Some (Some tj) →
     vi <= vj ↔ ti <= tj) ∧
  (∃ i j t0 t1, normalize [Some 10; Some 20; Some 30] !! i = Some (Some t0) ∧ t0 == 0 ∧
                normalize [Some 10; Some 20; Some 30] !! j = Some (Some t1) ∧ t1 == 1).
Proof.
  apply (normalize_order_and_endpoints [Some 10; Some 20; Some 30] 10 30);
    [reflexivity|reflexivity|discriminate].
Defined.

(** The least and the greatest value of a column follow a rescaling. *)
Lemma series_min_affine c c' (a b lo : Q) :
  0 < a → Forall2 (option_Forall2 (λ v' v, v' == a * v + b)) c' c →
  series_min c = Some lo → ∃ lo', series_min c' = Some lo' ∧ lo' == a * lo + b.
Proof.
  intros Ha HF Hlo. apply dropna_Forall2 in HF.
  change (Forall2 (λ v' v, v' == a * v + b) (dropna c') (dropna c)) in HF.
  destruct (series_min c') as [lo'|] eqn:Hlo'.
  - exists lo'. split; [done|].
    pose proof (series_min_elem_of _ _ Hlo) as Hin.
    pose proof (series_min_le _ _ Hlo) as Hle.
    pose proof (series_min_elem_of _ _ Hlo') as Hin'.
    pose proof (series_min_le _ _ Hlo') as Hle'.
    rewrite Forall_forall in Hle, Hle'.
    apply list_elem_of_lookup in Hin as [i Hi], Hin' as [j Hj].
    destruct (Forall2_lookup_r _ _ _ _ _ HF Hi) as (v' & Hv' & E1).
    destruct (Forall2_lookup_l _ _ _ _ _ HF Hj) as (v & Hv & E2).
    apply list_elem_of_lookup_2 in Hv', Hv.
    specialize (Hle _ Hv). specialize (Hle' _ Hv').
    apply Qle_antisym; [lra|]. rewrite E2. nra.
  - apply series_min_None in Hlo'. rewrite Hlo' in HF.
    apply Forall2_nil_inv_l in HF. apply series_min_elem_of in Hlo.
    rewrite HF in Hlo. by apply elem_of_nil in Hlo.
Qed.

Lemma series_max_affine c c' (a b hi : Q) :
  0 < a → Forall2 (option_Forall2 (λ v' v, v' == a * v + b)) c' c →
  series_max c = Some hi → ∃ hi', series_max c' = Some hi' ∧ hi' == a * hi + b.
Proof.
  intros Ha HF Hhi. apply dropna_Forall2 in HF.
  change (Forall2 (λ v' v, v' == a * v + b) (dropna c') (dropna c)) in HF.
  destruct (series_max c') as [hi'|] eqn:Hhi'.
  - exists hi'. split; [done|].
    pose proof (series_max_elem_of _ _ Hhi) as Hin.
    pose proof (series_max_ge _ _ Hhi) as Hle.
    pose proof (series_max_elem_of _ _ Hhi') as Hin'.
    pose proof (series_max_ge _ _ Hhi') as Hle'.
    rewrite Forall_forall in Hle, Hle'.
    apply list_elem_of_lookup in Hin as [i Hi], Hin' as [j Hj].
    destruct (Forall2_lookup_r _ _ _ _ _ HF Hi) as (v' & Hv' & E1).
    destruct (Forall2_lookup_l _ _ _ _ _ HF Hj) as (v & Hv & E2).
    apply list_elem_of_lookup_2 in Hv', Hv.
    specialize (Hle _ Hv). specialize (Hle' _ Hv').
    apply Qle_antisym; [|lra]. rewrite E2. nra.
  - apply series_max_None in Hhi'. rewrite Hhi' in HF.
    apply Forall2_nil_inv_l in HF. apply series_max_elem_of in Hhi.
    rewrite HF in Hhi. by apply elem_of_nil in Hhi.
Qed.
End exact_normalize.

Section normalize_twice.
Implicit Types (c : list (option Q)).
Local Open Scope Q_scope.

Lemma normalize_all_nan c : Forall (λ x, x = None) c → normalize c = c.
Proof.
  intros Hc. assert (dropna c = []) as Hd.
  { induction Hc as [|x l -> _ IH]; [done|]. by simpl. }
  apply series_min_None in Hd. unfold normalize. rewrite Hd.
  generalize (series_max c). intros hi.
  induction Hc as [|x l -> _ IH]; [done|]. csimpl. by rewrite IH.
Qed.

Lemma normalize_affine_cells c c' (a b : Q) :
  0 < a → Forall2 (option_Forall2 (λ v' v, v' == a * v + b)) c' c →
  same_cells (normalize c') (normalize c).
Proof.
  intros Ha HF. unfold same_cells, normalize. apply Forall2_fmap.
  eapply Forall2_impl; [exact HF|]. intros x' x Hx. simpl.
  destruct Hx as [v' v E|]; [|constructor].
  destruct (series_min c) as [lo|] eqn:Hlo.
  - destruct (series_max c) as [hi|] eqn:Hhi.
    2:{ apply series_max_None in Hhi. apply series_min_elem_of in Hlo.
        rewrite Hhi in Hlo. by apply elem_of_nil in Hlo. }
    destruct (series_min_affine _ _ _ _ _ Ha HF Hlo) as (lo' & -> & El).
    destruct (series_max_affine _ _ _ _ _ Ha HF Hhi) as (hi' & -> & Eh).
    unfold cell_div, cell_sub.
    change (sub hi' lo') with (hi' - lo'). change (sub hi lo) with (hi - lo).
    change (sub v' lo') with (v' - lo'). change (sub v lo) with (v - lo).
    destruct (Qeq_dec (hi - lo) 0) as [E0|E0].
    + rewrite (div_exact_None (v - lo) (hi - lo) E0).
      rewrite (div_exact_None (v' - lo') (hi' - lo')); [constructor|].
      rewrite Eh, El. nra.
    + assert (¬ hi' - lo' == 0) as E0'.
      { rewrite Eh, El. intros E'. apply E0. nra. }
      rewrite (div_exact_Some (v - lo) (hi - lo) E0).
      rewrite (div_exact_Some (v' - lo') (hi' - lo') E0'). constructor.
      rewrite E, Eh, El. field. split; lra.
  - apply series_min_None in Hlo.
    assert (series_min c' = None) as ->; [|constructor].
    apply series_min_None. apply dropna_Forall2 in HF.
    change (omap id c) with (dropna c) in HF. rewrite Hlo in HF.
    by apply Forall2_nil_inv_r in HF.
Qed.

(** X3.  The normalised column of line 106 does not depend on the unit of the
    metric: multiplying every value by a positive number and adding a
    constant gives the same normalised cells, on exact numbers. *)
Theorem normalize_unit_free c (a b : Q) :
  0 < a →
  same_cells (normalize ((λ x : option Q, (λ v, a * v + b) <$> x) <$> c))
             (normalize c).
Proof.
  intros Ha. apply (normalize_affine_cells _ _ a b Ha).
  apply Forall2_fmap_l, Forall_Forall2_diag, Forall_forall. intros [v|] _; constructor.
  reflexivity.
Qed.

(** X4.  Normalising a normalised column changes nothing: line 106 applied to
    its own result gives the same cells, on exact numbers, also when the
    column has no range and every cell of the result is NaN. *)
Theorem normalize_idempotent c :
  same_cells (normalize (normalize c)) (normalize c).
Proof.
  assert (Hnan : Forall (λ x, x = None) (normalize c) →
                 same_cells (normalize (normalize c)) (normalize c)).
  { intros Hn. rewrite (normalize_all_nan _ Hn).
    apply Forall_Forall2_diag. eapply Forall_impl; [exact Hn|].
    intros ? ->. constructor. }
  destruct (series_min c) as [lo|] eqn:Hlo; [|apply Hnan, normalize_no_range; by left].
  destruct (series_max c) as [hi|] eqn:Hhi.
  2:{ apply series_max_None in Hhi. apply series_min_elem_of in Hlo.
      rewrite Hhi in Hlo. by apply elem_of_nil in Hlo. }
  destruct (Qeq_dec lo hi) as [E|E].
  { apply Hnan, normalize_no_range. right. by exists lo, hi. }
  pose proof (range_pos _ _ _ Hlo Hhi E) as Hr.
  apply (normalize_affine_cells _ _ (/ (hi - lo)) (- lo / (hi - lo))).
  { by apply Qinv_lt_0_compat. }
  unfold normalize at 1. apply Forall2_fmap_l, Forall_Forall2_diag, Forall_forall.
  intros [v|] _; rewrite Hlo, Hhi; unfold compose, cell_div, cell_sub; [|constructor].
  change (sub hi lo) with (hi - lo). change (sub v lo) with (v - lo).
  rewrite (div_exact_Some (v - lo) (hi - lo)) by lra.
  constructor. field. lra.
Qed.

Lemma normalize_unit_free_witness :
  same_cells
    (normalize ((λ x : option Q, (λ v, 100 * v + 0) <$> x) <$> [Some (1 # 2); None; Some (1 # 4)]))
    (normalize [Some (1 # 2); None; Some (1 # 4)]).
Proof.
  apply (normalize_unit_free [Some (1 # 2); None; Some (1 # 4)] 100 0). reflexivity.
Defined.
End normalize_twice.

(** ** A metric that is not a column, and the cohort of line 138 *)

Section missing_metric.
Context {N : Type} `{Num N}.
Variable argsort : list N → list nat.
Implicit Types (d : DataFrame N).

Lemma normalize_each_first_missing pre m post ns d :
  Forall (present d) pre → get_col m (cols d) = None →
  normalize_each (pre ++ m :: post) ns d = (d, Raise (KeyError m)).
Proof.
  intros Hpre Hm. revert ns.
  induction Hpre as [|k pre [c Hk] _ IH]; intros ns; simpl.
  - unfold bind, getitem. by rewrite Hm.
  - unfold bind, getitem at 1. rewrite Hk. apply IH.
Qed.

(** X5.  [get_priority_states] raises [KeyError] for the first metric of the
    list that is not a column, whatever follows it in the list, and the table
    is as it was: line 107 has not run. *)
Theorem get_priority_states_first_missing pre m post d :
  Forall (present d) pre → get_col m (cols d) = None →
  get_priority_states argsort (pre ++ m :: post) d = (d, Raise (KeyError m)).
Proof.
  intros Hpre Hm. unfold get_priority_states, bind.
  by rewrite (normalize_each_first_missing pre m post [] d Hpre Hm).
Qed.
End missing_metric.

Lemma get_priority_states_first_missing_witness :
  get_priority_states stable_argsort (["metric1"] ++ "obesity" :: ["diabetes"]) three_rows
    = (three_rows, Raise (KeyError "obesity")).
Proof.
  apply (get_priority_states_first_missing stable_argsort ["metric1"] "obesity"
           ["diabetes"] three_rows); [|reflexivity].
  constructor; [|constructor]. by eexists.
Defined.

Section cohort.
Context {N : Type} `{Num N}.
Implicit Types (d : DataFrame N).

Lemma take_filter_rows {A B} (P : A → Prop) `{∀ x, Decision (P x)}
    (a0 : A) (b0 : B) (s : list A) (c : list B) :
  length c = length s →
  (λ i, default b0 (c !! i)) <$> filter (λ i, P (default a0 (s !! i))) (seq 0 (length s))
    = (filter (λ sc, P sc.1) (zip s c)).*2.
Proof.
  revert c. induction s as [|x s IH] using rev_ind; intros c Hlen.
  { done. }
  rewrite length_app in Hlen. simpl in Hlen.
  destruct c as [|y c _] using rev_ind; [simpl in Hlen; lia|].
  rewrite length_app in Hlen. simpl in Hlen.
  assert (length c = length s) as Hcs by lia.
  rewrite length_app, seq_app, filter_app, fmap_app. simpl.
  rewrite zip_with_app by (symmetry; exact Hcs). rewrite filter_app, fmap_app. f_equal.
  - rewrite <-(IH c Hcs).
    rewrite (filter_ext_elem_of (λ i, P (default a0 ((s ++ [x]) !! i)))
               (λ i, P (default a0 (s !! i)))).
    2:{ intros i Hi. apply elem_of_seq in Hi. by rewrite lookup_app_l by lia. }
    apply list_fmap_ext. intros k i Hk.
    apply list_elem_of_lookup_2, list_elem_of_filter in Hk as [_ Hi].
    apply elem_of_seq in Hi. by rewrite lookup_app_l by lia.
  - simpl. rewrite !filter_cons, !filter_nil. simpl.
    rewrite list_lookup_middle by done. simpl.
    destruct (decide (P x)); [|done]. simpl.
    by rewrite list_lookup_middle.
Qed.

Lemma filter_zip_diag {A} (P : A → Prop) `{∀ x, Decision (P x)} (s : list A) :
  (filter (λ sc, P sc.1) (zip s s)).*2 = filter P s.
Proof.
  induction s as [|x s IH]; [done|].
  change (zip (x :: s) (x :: s)) with ((x, x) :: zip s s).
  rewrite !filter_cons. cbn [fst].
  destruct (decide (P x)); csimpl; by rewrite IH.
Qed.

Lemma get_col_take_rows name ix d :
  get_col name (cols (take_rows ix d))
    = (λ c, (λ i, default None (c !! i)) <$> ix) <$> get_col name (cols d).
Proof.
  unfold take_rows. simpl. induction (cols d) as [|[k c] cs IH]; [done|].
  simpl. by destruct (String.eqb k name).
Qed.

Lemma filter_isin_length (l : list string) (s : list string) :
  NoDup s → length (filter (λ x, x ∈ l) s) ≤ length l.
Proof.
  intros Hs. apply submseteq_length, NoDup_submseteq.
  - by apply NoDup_filter.
  - intros x Hx. by apply list_elem_of_filter in Hx as [? _].
Qed.

(** X6.  Line 138: the cohort is the rows whose [STATE] is one of the five
    codes, in table order, with every column cut to these rows, and the table
    is unchanged; a table in which no state is repeated has at most five
    such rows. *)
Theorem impact_cohort_rows d :
  ∃ cohort,
    impact_cohort d = (d, Ok cohort) ∧
    STATE cohort = filter (λ s, s ∈ impact_states) (STATE d) ∧
    (∀ name c, get_col name (cols d) = Some c → length c = nrows d →
       get_col name (cols cohort)
         = Some (filter (λ sc, sc.1 ∈ impact_states) (zip (STATE d) c)).*2) ∧
    (∀ name, get_col name (cols d) = None → get_col name (cols cohort) = None) ∧
    (NoDup (STATE d) → nrows cohort ≤ 5).
Proof.
  exists (take_rows (isin_rows d) d).
  assert (STATE (take_rows (isin_rows d) d)
          = filter (λ s, s ∈ impact_states) (STATE d)) as HS.
  { etrans; [exact (take_filter_rows (λ s, s ∈ impact_states) EmptyString
                      EmptyString (STATE d) (STATE d) eq_refl)|].
    apply filter_zip_diag. }
  split_and!.
  - done.
  - done.
  - intros name c Hc Hlen. rewrite get_col_take_rows, Hc. simpl. f_equal.
    exact (take_filter_rows (λ s, s ∈ impact_states) EmptyString None
             (STATE d) c Hlen).
  - intros name Hc. by rewrite get_col_take_rows, Hc.
  - intros Hnd. unfold nrows. rewrite HS.
    by apply (filter_isin_length impact_states).
Qed.
End cohort.

(** ** The page *)

Section page_facts.
Context {N : Type} `{Num N}.
Variable argsort : list N → list nat.
Variable env : services N.
Implicit Types (metric : string) (frame : DataFrame N).

Lemma UI_bind_Continue {A B} (k : A → UI B) shown a :
  ((shown, Continue a) : UI A) ≫= k = (shown ++ (k a).1, (k a).2).
Proof. unfold mbind, UI_bind. by destruct (k a). Qed.

Lemma UI_bind_Stop {A B} (k : A → UI B) shown line e :
  ((shown, Stop line e) : UI A) ≫= k = (shown, Stop line e).
Proof. done. Qed.

Lemma UI_bind_show {B} (k : unit → UI B) e :
  show e ≫= k = (e :: (k tt).1, (k tt).2).
Proof. unfold show. by rewrite UI_bind_Continue. Qed.

Lemma map_block_continues metric : (map_block env metric).2 = Continue tt.
Proof.
  unfold map_block, load_map_from_s3.
  destruct (get_object env (BUCKET_NAME env) (map_key metric)) as [e|obj]; [done|].
  destruct (read_decode env obj) as [e|[|a document]]; done.
Qed.

(** X7.  Lines 64-68 never stop the script, whatever S3 and the decoder do.
    The map is shown exactly when the object of the key
    [maps/<metric>_map.html] was fetched and decoded to a document that is
    not empty; an empty document shows "Unable to load map data" alone; a
    failure shows the message of [load_map_from_s3] and then "Unable to load
    map data". *)
Theorem map_block_shows metric :
  (map_block env metric).2 = Continue tt ∧
  (map_block env metric).1 =
    match
      match get_object env (BUCKET_NAME env) (map_key metric) with
      | inr obj => read_decode env obj
      | inl e => inl e
      end
    with
    | inr EmptyString => [st_error "Unable to load map data"]
    | inr document => [components_html document]
    | inl e => [st_error ("Error loading map: " +:+ e);
                st_error "Unable to load map data"]
    end.
Proof.
  unfold map_block, load_map_from_s3.
  destruct (get_object env (BUCKET_NAME env) (map_key metric)) as [e|obj]; [done|].
  destruct (read_decode env obj) as [e|[|a document]]; done.
Qed.

Lemma load_data_from_s3_returns :
  ∃ shown merged_map,
    load_data_from_s3 env = (shown, Continue merged_map) ∧
    match merged_map with
    | Some _ => shown = []
    | None => ∃ e, shown = [st_error ("Error loading data: " +:+ e)]
    end.
Proof.
  unfold load_data_from_s3.
  destruct (get_object env _ _) as [e|obj]; [by eexists _, None; eauto|].
  destruct (read_file env obj) as [e|gdf]; [by eexists _, None; eauto|].
  by eexists _, (Some gdf).
Qed.

Lemma map_block_eq metric :
  map_block env metric = ((map_block env metric).1, Continue tt).
Proof.
  pose proof (map_block_continues metric) as E.
  destruct (map_block env metric). simpl in *. by subst.
Qed.

(** X8.  When the data file cannot be loaded, [load_data_from_s3] returns
    [None] and the script goes on: it shows the title, the message of the
    failure, the select box, the map block and the header "Top 10 States",
    and stops at line 73 with [TypeError], [None] being subscripted.  No table
    and no statistic is shown. *)
Theorem page_without_data metric :
  (load_data_from_s3 env).2 = Continue None →
  selected_metric_page argsort env metric =
    ([st_set_page_config; st_title "Health and Food Access Dashboard"]
       ++ (load_data_from_s3 env).1
       ++ [st_columns 2; st_selectbox metrics.*1]
       ++ (map_block env metric).1
       ++ [st_header "Top 10 States"],
     Stop 73 TypeError).
Proof.
  intros Hload. pose proof (map_block_continues metric) as Hm.
  unfold selected_metric_page.
  destruct (load_data_from_s3 env) as [shown r]. simpl in Hload. subst r.
  destruct (map_block env metric) as [ev r]. simpl in Hm. by subst r.
Qed.

(** X9.  When the data file is loaded and the select box returns one of its
    five metrics: if the metric is a float column, lines 39-91 run to the
    end and show, after the map block, the ranking as text (the rows of
    [rankings], [min 10 rows] of them when [argsort] is a sort and the column
    holds no NaN as a number; a cell that stays a missing value stays one)
    and the four statistics in the order Mean, Median, Maximum, Minimum; if
    the metric is a column of dtype object, as a property that is null in
    every feature is, the script stops at line 77 with [TypeError], after
    the header "Top 10 States"; if it is no column at all, the script stops
    at line 73 with [KeyError]. *)
Theorem page_with_data metric g :
  (load_data_from_s3 env).2 = Continue (Some g) → metric ∈ metrics.*1 →
  let before :=
    [st_set_page_config; st_title "Health and Food Access Dashboard";
     st_columns 2; st_selectbox metrics.*1]
      ++ (map_block env metric).1 ++ [st_header "Top 10 States"] in
  match get_col metric (cols (floats g)) with
  | Some c =>
      ∃ top,
        (rankings argsort metric (floats g)).2 = Ok top ∧
        (argsort_ok argsort → numbers c →
         length (as_percent env metric top) = 10 `min` length c) ∧
        selected_metric_page argsort env metric
          = (before ++
               [st_dataframe (as_percent env metric top);
                st_header "Summary Statistics";
                st_columns 4;
                st_metric "Mean" (format_1f env (nanmean c) +:+ "%");
                st_metric "Median" (format_1f env (quantile50 c) +:+ "%");
                st_metric "Maximum" (format_1f env (series_max c) +:+ "%");
                st_metric "Minimum" (format_1f env (series_min c) +:+ "%")],
             Continue tt)
  | None =>
      selected_metric_page argsort env metric
        = (before,
           if bool_decide (metric ∈ objects g)
           then Stop 77 TypeError
           else Stop 73 (FrameError (KeyError metric)))
  end.
Proof.
  intros Hload _ before. subst before.
  pose proof (map_block_continues metric) as Hm.
  destruct load_data_from_s3_returns as (shown & merged_map & Hl & Hs).
  rewrite Hl in Hload. simpl in Hload. injection Hload as ->.
  subst shown. unfold selected_metric_page. rewrite Hl.
  destruct (map_block env metric) as [ev r]. simpl in Hm. subst r.
  destruct (get_col metric (cols (floats g))) as [c|] eqn:Hc.
  - exists (head 10 (take_rows (nargsort_desc argsort c)
                       {| STATE := STATE (floats g); cols := [(metric, c)] |})).
    assert ((rankings argsort metric (floats g)).2
            = Ok (head 10 (take_rows (nargsort_desc argsort c)
                             {| STATE := STATE (floats g);
                                cols := [(metric, c)] |}))) as Hr.
    { unfold rankings, top_by, bind, select, lift, ret, sort_values. rewrite Hc. simpl.
      by rewrite String.eqb_refl. }
    split_and!; [done| |].
    + intros Hok Hnum. unfold as_percent.
      rewrite length_fmap, pairs_head_take_rows, length_take, length_fmap.
      destruct (nargsort_desc_spec argsort c Hok Hnum) as (ix & -> & Hperm & _).
      by rewrite Hperm, rows_split, length_seq.
    + assert ((stats metric (floats g)).2 = Ok (describe c)) as Hd.
      { unfold stats, bind, getitem, ret. by rewrite Hc. }
      unfold statistics_block, subscripted, raising, rankings_loaded, line_77,
        describe_loaded, entry, mbind, UI_bind, show, mret, UI_ret.
      cbv beta iota. rewrite Hr. cbv beta iota. rewrite Hd. cbv beta iota.
      simpl. by rewrite <-!app_assoc.
  - assert ((rankings argsort metric (floats g)).2 = Raise (KeyError metric)) as Hr.
    { unfold rankings, top_by, bind, select. by rewrite Hc. }
    unfold statistics_block, subscripted, raising, rankings_loaded, line_77,
      mbind, UI_bind, show, mret, UI_ret.
    cbv beta iota. rewrite Hr. cbv beta iota.
    destruct (bool_decide (metric ∈ objects g)); simpl; by rewrite <-?app_assoc.
Qed.

Lemma dictionary_spec frame items :
  dictionary frame items =
    ([], match first_missing frame items with
         | Some (line, name) => Stop line (FrameError (KeyError name))
         | None =>
             Continue ((λ item : nat * string * string,
                          (item.1.2, nanmean (default [] (get_col item.2 (cols frame)))))
                         <$> items)
         end).
Proof.
  induction items as [|[[line label] name] rest IH]; [done|].
  simpl. unfold on_frame, getitem.
  destruct (get_col name (cols frame)) as [c|]; [|done]. simpl.
  rewrite IH. by destruct (first_missing frame rest) as [[? ?]|].
Qed.

Lemma show_means_spec (d : list (string * option N)) :
  show_means env d
    = ((λ kv, st_metric kv.1 (format_1f env kv.2 +:+ "%")) <$> d, Continue tt).
Proof.
  induction d as [|[label value] rest IH]; [done|].
  simpl. by rewrite IH.
Qed.

Lemma first_missing_take_rows ix frame items :
  first_missing (take_rows ix frame) items = first_missing frame items.
Proof.
  induction items as [|[[line label] name] rest IH]; [done|].
  cbn [first_missing]. rewrite get_col_take_rows, IH.
  by destruct (get_col name (cols frame)).
Qed.


(** X10.  Lines 130-174 on a table: a dictionary is shown only when all its
    columns are present.  The script stops with [KeyError] at the first item,
    in the order written, whose column is missing, the dictionaries before it
    having been shown; with the ten columns present it shows the twelve
    means of the cohort and finishes. *)
Theorem impact_analysis_outcome data :
  impact_analysis env data =
    let opening :=
      [st_markdown; st_header "Program Impact Analysis"; st_columns 3;
       st_subheader "Food Access Impact"] in
    match first_missing data food_metrics with
    | Some (line, name) => (opening, Stop line (FrameError (KeyError name)))
    | None =>
        match first_missing data demographics with
        | Some (line, name) =>
            (opening ++ shown_means env data food_metrics
               ++ [st_subheader "Demographic Impact"],
             Stop line (FrameError (KeyError name)))
        | None =>
            match first_missing data health_metrics with
            | Some (line, name) =>
                (opening ++ shown_means env data food_metrics
                   ++ [st_subheader "Demographic Impact"]
                   ++ shown_means env data demographics
                   ++ [st_subheader "Current Health Status"],
                 Stop line (FrameError (KeyError name)))
            | None =>
                (opening ++ shown_means env data food_metrics
                   ++ [st_subheader "Demographic Impact"]
                   ++ shown_means env data demographics
                   ++ [st_subheader "Current Health Status"]
                   ++ shown_means env data health_metrics
                   ++ [st_markdown],
                 Continue tt)
            end
        end
    end.
Proof.
  unfold impact_analysis.
  change (on_frame 138 (Some data) impact_cohort)
    with (mret (take_rows (isin_rows data) data) : UI _).
  unfold mbind, UI_bind, show, mret, UI_ret. cbv beta iota zeta.
  rewrite !dictionary_spec, !first_missing_take_rows.
  destruct (first_missing data food_metrics) as [[? ?]|]; [done|].
  cbv beta iota. rewrite show_means_spec. cbv beta iota.
  destruct (first_missing data demographics) as [[? ?]|].
  { cbv beta iota. unfold shown_means. rewrite <-list_fmap_compose. done. }
  cbv beta iota. rewrite show_means_spec. cbv beta iota.
  destruct (first_missing data health_metrics) as [[? ?]|].
  { cbv beta iota. unfold shown_means. rewrite <-!list_fmap_compose. done. }
  cbv beta iota. rewrite show_means_spec. cbv beta iota.
  unfold shown_means. rewrite <-!list_fmap_compose. done.
Qed.
End page_facts.

Lemma page_without_data_witness :
  selected_metric_page stable_argsort offline "OBESITY_CrudePrev" =
    ([st_set_page_config; st_title "Health and Food Access Dashboard"]
       ++ (load_data_from_s3 offline).1
       ++ [st_columns 2; st_selectbox metrics.*1]
       ++ (map_block offline "OBESITY_CrudePrev").1
       ++ [st_header "Top 10 States"],
     Stop 73 TypeError).
Proof.
  apply (page_without_data stable_argsort offline "OBESITY_CrudePrev"). reflexivity.
Defined.

Lemma page_with_data_witness :
  ∃ top,
    (rankings stable_argsort "OBESITY_CrudePrev" (floats surveyed)).2 = Ok top ∧
    (argsort_ok (stable_argsort (N:=Q)) → numbers [Some 40%Q; None; Some 38%Q] →
     length (as_percent stocked "OBESITY_CrudePrev" top) = 10 `min` 3) ∧
    selected_metric_page stable_argsort stocked "OBESITY_CrudePrev"
      = (([st_set_page_config; st_title "Health and Food Access Dashboard";
           st_columns 2; st_selectbox metrics.*1]
            ++ (map_block stocked "OBESITY_CrudePrev").1
            ++ [st_header "Top 10 States"])
           ++ [st_dataframe (as_percent stocked "OBESITY_CrudePrev" top);
               st_header "Summary Statistics";
               st_columns 4;
               st_metric "Mean"
                 (format_1f stocked (nanmean [Some 40%Q; None; Some 38%Q]) +:+ "%");
               st_metric "Median"
                 (format_1f stocked (quantile50 [Some 40%Q; None; Some 38%Q]) +:+ "%");
               st_metric "Maximum"
                 (format_1f stocked (series_max [Some 40%Q; None; Some 38%Q]) +:+ "%");
               st_metric "Minimum"
                 (format_1f stocked (series_min [Some 40%Q; None; Some 38%Q]) +:+ "%")],
         Continue tt).
Proof.
  apply (page_with_data stable_argsort stocked "OBESITY_CrudePrev" surveyed);
    [reflexivity|].
  apply (bool_decide_unpack _). reflexivity.
Defined.

Section empty_cohort.
Context {N : Type} `{Num N}.
Variable env : services N.
Implicit Types (data : DataFrame N).

Lemma isin_rows_nil data :
  Forall (λ s, s ∉ impact_states) (STATE data) → isin_rows data = [].
Proof.
  intros Hs. unfold isin_rows, nrows.
  destruct (filter _ _) as [|i r] eqn:E; [done|].
  assert (i ∈ i :: r) as Hi by left. rewrite <-E in Hi.
  apply list_elem_of_filter in Hi as [Hin Hi]. apply elem_of_seq in Hi.
  destruct (lookup_lt_is_Some_2 (STATE data) i) as [s Hsi]; [lia|].
  rewrite Hsi in Hin. simpl in Hin.
  rewrite Forall_forall in Hs. destruct (Hs s); [by eapply list_elem_of_lookup_2|done].
Qed.

Lemma shown_means_empty data items :
  isin_rows data = [] →
  shown_means env data items
    = (λ item : nat * string * string,
         st_metric item.1.2 (format_1f env (nanmean []) +:+ "%")) <$> items.
Proof.
  intros E. unfold shown_means. apply list_fmap_ext. intros _ [[line label] name] _.
  cbn [fst snd]. rewrite get_col_take_rows, E.
  by destruct (get_col name (cols data)).
Qed.

Lemma first_missing_app data items items' :
  first_missing data (items ++ items') =
    match first_missing data items with
    | Some found => Some found
    | None => first_missing data items'
    end.
Proof.
  induction items as [|[[line label] name] rest IH]; [done|].
  cbn [app first_missing]. by destruct (get_col name (cols data)).
Qed.

(** X11.  When no row of the table has one of the five states of line 138 and
    the ten columns are present, the impact analysis does not fail: the
    cohort is empty and each of its twelve figures is the text of the mean
    of an empty column, which is NaN. *)
Theorem impact_analysis_empty_cohort data :
  Forall (λ s, s ∉ impact_states) (STATE data) →
  first_missing data (food_metrics ++ demographics ++ health_metrics) = None →
  let nan := format_1f env (nanmean []) +:+ "%" in
  impact_analysis env data =
    ([st_markdown; st_header "Program Impact Analysis"; st_columns 3;
      st_subheader "Food Access Impact";
      st_metric "Low Access Population" nan;
      st_metric "SNAP Recipients" nan;
      st_metric "Low Income Access" nan;
      st_subheader "Demographic Impact";
      st_metric "SNAP Recipients" nan;
      st_metric "Low Income" nan;
      st_metric "Seniors" nan;
      st_metric "White Population" nan;
      st_metric "Black Population" nan;
      st_metric "Hispanic Population" nan;
      st_subheader "Current Health Status";
      st_metric "Obesity Rate" nan;
      st_metric "Diabetes Rate" nan;
      st_metric "High BP Rate" nan;
      st_markdown],
     Continue tt).
Proof.
  intros Hs Hm nan. apply isin_rows_nil in Hs.
  rewrite !first_missing_app in Hm.
  destruct (first_missing data food_metrics) as [?|] eqn:E1; [done|].
  destruct (first_missing data demographics) as [?|] eqn:E2; [done|].
  unfold impact_analysis.
  change (on_frame 138 (Some data) impact_cohort)
    with (mret (take_rows (isin_rows data) data) : UI _).
  unfold mbind, UI_bind, show, mret, UI_ret. cbv beta iota.
  rewrite !dictionary_spec, !first_missing_take_rows, E1, E2, Hm.
  cbv beta iota. rewrite !show_means_spec. cbv beta iota.
  rewrite <-!list_fmap_compose.
  pose proof (shown_means_empty data food_metrics Hs) as F1.
  pose proof (shown_means_empty data demographics Hs) as F2.
  pose proof (shown_means_empty data health_metrics Hs) as F3.
  unfold shown_means in F1, F2, F3.
  unfold compose. cbn [fst snd]. rewrite F1, F2, F3. done.
Qed.
End empty_cohort.

Lemma impact_analysis_empty_cohort_witness :
  nanmean (N:=Q) [] = None ∧ nanmean (N:=float) [] = None ∧
  let nan := format_1f stocked (nanmean []) +:+ "%" in
  impact_analysis stocked inland =
    ([st_markdown; st_header "Program Impact Analysis"; st_columns 3;
      st_subheader "Food Access Impact";
      st_metric "Low Access Population" nan;
      st_metric "SNAP Recipients" nan;
      st_metric "Low Income Access" nan;
      st_subheader "Demographic Impact";
      st_metric "SNAP Recipients" nan;
      st_metric "Low Income" nan;
      st_metric "Seniors" nan;
      st_metric "White Population" nan;
      st_metric "Black Population" nan;
      st_metric "Hispanic Population" nan;
      st_subheader "Current Health Status";
      st_metric "Obesity Rate" nan;
      st_metric "Diabetes Rate" nan;
      st_metric "High BP Rate" nan;
      st_markdown],
     Continue tt).
Proof.
  split; [reflexivity|]. split; [reflexivity|].
  apply (impact_analysis_empty_cohort stocked inland); [|reflexivity].
  constructor; [|constructor]. apply (bool_decide_unpack _). reflexivity.
Defined.

(** ** Metrics without a range *)

Section without_range.
Implicit Types (c : list (option Q)) (d : DataFrame Q).
Local Open Scope Q_scope.

Lemma loop_result_no_range d metrics ns :
  Forall (no_range d) metrics →
  Forall (λ kc, Forall (λ x, x = None) kc.2) ns →
  Forall (λ kc, Forall (λ x, x = None) kc.2) (loop_result d metrics ns).
Proof.
  intros Hm. revert ns. induction Hm as [|m metrics (c & Hc & Hr) _ IH]; intros ns Hns.
  { done. }
  unfold loop_result. simpl. apply IH, set_col_Forall; [|done].
  rewrite Hc. simpl. by apply normalize_no_range.
Qed.

Lemma nan_rows_all c :
  Forall (λ x, x = None) c → nan_rows c = seq 0 (length c) ∧ non_nan_rows c = [].
Proof.
  intros Hc.
  assert (∀ i, cell_at c i = None) as Hcell.
  { intros i. unfold cell_at. destruct (c !! i) as [x|] eqn:E; [|done].
    rewrite Forall_forall in Hc. simpl. eapply Hc. by eapply list_elem_of_lookup_2. }
  unfold nan_rows, non_nan_rows. split.
  - induction (seq 0 (length c)) as [|i l IH]; [done|].
    rewrite filter_cons, IH, Hcell. destruct (decide _) as [E|E]; [done|].
    exfalso. apply E, is_Some_None.
  - induction (seq 0 (length c)) as [|i l IH]; [done|].
    rewrite filter_cons, IH, Hcell. destruct (decide _) as [E|E]; [|done].
    by apply is_Some_None in E.
Qed.

Lemma mean_axis1_no_values n (cs : list (string * list (option Q))) :
  Forall (λ kc, Forall (λ x, x = None) kc.2) cs →
  mean_axis1 n cs = replicate n None.
Proof.
  intros Hcs. symmetry. apply replicate_as_Forall_2; [apply mean_axis1_length|].
  unfold mean_axis1. apply Forall_fmap, Forall_forall. intros i _. simpl.
  symmetry. apply nanmean_no_value. unfold row_values.
  induction Hcs as [|[k c] cs Hc _ IH]; [done|]. csimpl.
  destruct (c !! i) as [x|] eqn:E; simpl; [|done].
  rewrite Forall_forall in Hc. simpl in Hc.
  by rewrite (Hc x) by (by eapply list_elem_of_lookup_2).
Qed.

(** X12.  When none of the metrics has a range (each has no value, or equal
    least and greatest values; the empty list of metrics is a case), every
    aggregate score is NaN and [get_priority_states] returns the first five
    rows of the table in table order, on exact numbers and for any sort. *)
Theorem no_range_ranking_is_row_order (argsort : list Q → list nat) d metrics :
  argsort_ok argsort → Forall (no_range d) metrics →
  ∃ r,
    (get_priority_states argsort metrics d).2 = Ok r ∧
    STATE r = take 5 (STATE d) ∧
    aggregate_score r = Some (replicate (5 `min` nrows d) None).
Proof.
  intros Hok Hm.
  assert (Forall (present d) metrics) as Hp.
  { eapply Forall_impl; [exact Hm|]. intros m (c & Hc & _). by exists c. }
  rewrite (get_priority_states_ok argsort metrics d Hp).
  pose proof (mean_axis1_no_values (nrows d) _
                (loop_result_no_range d metrics [] Hm (Forall_nil_2 _))) as Hs.
  unfold top_by, bind, select, with_scores. cbn [cols STATE].
  rewrite get_col_set_col_eq, Hs. unfold lift, sort_values. cbn [cols].
  simpl get_col. cbn [ret snd].
  destruct (nargsort_desc_spec argsort (replicate (nrows d) None) Hok
              (numbers_exact _)) as (ix & -> & Hperm & _).
  destruct (nan_rows_all (replicate (nrows d) (@None Q))) as [-> Hn].
  { by apply Forall_replicate. }
  rewrite Hn in Hperm. apply Permutation_nil_r in Hperm. subst ix.
  rewrite length_replicate.
  assert ((λ i, default EmptyString (STATE d !! i)) <$> seq 0 (nrows d) = STATE d)
    as A1 by apply fmap_lookup_seq.
  assert ((λ i, default None (replicate (nrows d) (@None Q) !! i)) <$> seq 0 (nrows d)
          = replicate (nrows d) None) as A2.
  { pose proof (fmap_lookup_seq None (replicate (nrows d) (@None Q))) as E.
    by rewrite length_replicate in E. }
  eexists. split; [done|]. unfold head, take_rows, aggregate_score.
  cbn [STATE cols app fmap list_fmap fst snd]. rewrite A1, A2, take_replicate.
  by simpl.
Qed.
End without_range.

Lemma no_range_ranking_is_row_order_witness :
  ∃ r,
    (get_priority_states stable_argsort ["m1"] flat_metric).2 = Ok r ∧
    STATE r = take 5 (STATE flat_metric) ∧
    aggregate_score r = Some (replicate (5 `min` nrows flat_metric) None).
Proof.
  apply (no_range_ranking_is_row_order stable_argsort flat_metric ["m1"]);
    [apply stable_argsort_ok|].
  constructor; [|constructor]. exists [Some 5%Q; Some 5%Q]. split; [reflexivity|].
  right. exists 5%Q, 5%Q. split; [reflexivity|]. split; reflexivity.
Defined.

(** ** The check of the names is sound *)

Section name_check_equations.
Implicit Types (o : oracle) (ns : list string) (e : expr) (s : stmt).

Lemma eval_list_eq o ns line (f : list expr → option exception) :
  (∀ es, f es = match es with
                | [] => None
                | e' :: rest =>
                    match eval o ns line e' with
                    | Some x => Some x
                    | None => f rest
                    end
                end) →
  ∀ es, f es = eval_list o ns line es.
Proof.
  intros Hf es. induction es as [|e' rest IH]; rewrite Hf; [done|].
  simpl. by rewrite IH.
Qed.

Lemma eval_Op o ns line es :
  eval o ns line (Op es) =
    match eval_list o ns line es with
    | Some x => Some x
    | None => if fails o line (Op es) then Some OtherException else None
    end.
Proof.
  simpl.
  match goal with |- match ?f es with _ => _ end = _ =>
    rewrite (eval_list_eq o ns line f) by (by intros [|??]) end.
  done.
Qed.

Lemma eval_Call o ns line func args :
  eval o ns line (Call func args) =
    match eval_list o ns line (func :: args) with
    | Some x => Some x
    | None => if fails o line (Call func args) then Some OtherException else None
    end.
Proof.
  simpl. destruct (eval o ns line func); [done|].
  match goal with |- match ?f args with _ => _ end = _ =>
    rewrite (eval_list_eq o ns line f) by (by intros [|??]) end.
  done.
Qed.

Lemma reads_Op es : reads (Op es) = concat (reads <$> es).
Proof.
  simpl. induction es as [|e' rest IH]; [done|]. simpl. by rewrite IH.
Qed.

Lemma reads_Call func args :
  reads (Call func args) = reads func ++ concat (reads <$> args).
Proof.
  simpl. f_equal. induction args as [|e' rest IH]; [done|]. simpl. by rewrite IH.
Qed.

Lemma forallb_app_true {A} (f : A → bool) l k :
  forallb f (l ++ k) = true ↔ forallb f l = true ∧ forallb f k = true.
Proof. rewrite forallb_app. apply andb_true_iff. Qed.

Lemma eval_list_reads o ns ns' line es :
  Forall (λ e, reads_bound ns e = true → quiet_or_other (eval o ns' line e)) es →
  forallb (λ id, bound id ns) (concat (reads <$> es)) = true →
  quiet_or_other (eval_list o ns' line es).
Proof.
  induction 1 as [|e' rest He _ IH]; intros Hb; [by left|].
  simpl in Hb. apply forallb_app_true in Hb as [Hb1 Hb2]. simpl.
  destruct (He Hb1) as [->| ->]; [by apply IH|by right].
Qed.

Lemma eval_reads o ns ns' line e :
  extends ns ns' → reads_bound ns e = true → quiet_or_other (eval o ns' line e).
Proof.
  intros Hext. induction e as [id| |value attr IH|value key IHv IHk
    |func args IHf IHa|operands IH] using expr_nested_ind; intros Hb.
  - unfold reads_bound in Hb. simpl in Hb. rewrite andb_true_r in Hb.
    simpl. rewrite (Hext _ Hb). by left.
  - by left.
  - simpl. destruct (IH Hb) as [->| ->]; [|by right].
    destruct (fails o line _); [by right|by left].
  - change (Subscript value key) with (Subscript value key) in *.
    unfold reads_bound in Hb. simpl in Hb. rewrite app_nil_r in Hb.
    apply forallb_app_true in Hb as [Hb1 Hb2]. simpl.
    destruct (IHv Hb1) as [->| ->]; [|by right].
    destruct (IHk Hb2) as [->| ->]; [|by right].
    destruct (fails o line _); [by right|by left].
  - unfold reads_bound in Hb. rewrite reads_Call in Hb. rewrite eval_Call.
    destruct (eval_list_reads o ns ns' line (func :: args)) as [->| ->].
    + by constructor.
    + done.
    + destruct (fails o line _); [by right|by left].
    + by right.
  - unfold reads_bound in Hb. rewrite reads_Op in Hb. rewrite eval_Op.
    destruct (eval_list_reads o ns ns' line operands IH Hb) as [->| ->]; [|by right].
    destruct (fails o line _); [by right|by left].
Qed.

Lemma run_eq o (f : list string → list (nat * stmt) → outcome) :
  (∀ ns body, f ns body = match body with
                          | [] => Finished ns
                          | (l, s') :: rest =>
                              match exec o ns l s' with
                              | Finished ns' => f ns' rest
                              | Raised l' x => Raised l' x
                              end
                          end) →
  ∀ ns body, f ns body = run o ns body.
Proof.
  intros Hf ns body. revert ns.
  induction body as [|[l s'] rest IH]; intros ns; rewrite Hf; [done|].
  simpl. destruct (exec o ns l s'); [apply IH|done].
Qed.

Lemma check_all_eq (f : list string → list (nat * stmt) → option (list string)) :
  (∀ ns body, f ns body = match body with
                          | [] => Some ns
                          | (_, s') :: rest =>
                              match check ns s' with
                              | Some ns' => f ns' rest
                              | None => None
                              end
                          end) →
  ∀ ns body, f ns body = check_all ns body.
Proof.
  intros Hf ns body. revert ns.
  induction body as [|[l s'] rest IH]; intros ns; rewrite Hf; [done|].
  simpl. destruct (check ns s'); [apply IH|done].
Qed.

Lemma exec_With o ns line context body :
  exec o ns line (With context body) =
    match eval o ns line (Op [context]) with
    | Some x => Raised line x
    | None => run o ns body
    end.
Proof.
  cbn [exec]. destruct (eval o ns line (Op [context])); [done|].
  apply run_eq. by intros ? [|[??]?].
Qed.

Lemma exec_If o ns line test body orelse :
  exec o ns line (If test body orelse) =
    match eval o ns line (Op [test]) with
    | Some x => Raised line x
    | None => if truth o line test then run o ns body else run o ns orelse
    end.
Proof.
  cbn [exec]. destruct (eval o ns line (Op [test])); [done|].
  destruct (truth o line test); apply run_eq; by intros ? [|[??]?].
Qed.

Lemma exec_For o ns line targets iter body :
  exec o ns line (For targets iter body) =
    match eval o ns line (Op [iter]) with
    | Some x => Raised line x
    | None => rounds o targets body (iterations o line iter) ns
    end.
Proof.
  cbn [exec]. destruct (eval o ns line (Op [iter])); [done|].
  generalize (iterations o line iter). intros n. revert ns.
  induction n as [|n IH]; intros ns; [done|].
  cbn [rounds].
  match goal with |- match ?f _ body with _ => _ end = _ =>
    rewrite (run_eq o f) by (by intros ? [|[??]?]) end.
  destruct (run o (targets ++ ns) body); [apply IH|done].
Qed.

Lemma check_With ns context body :
  check ns (With context body) =
    if reads_bound ns context then check_all ns body else None.
Proof.
  cbn [check]. destruct (reads_bound ns context); [|done].
  apply check_all_eq. by intros ? [|[??]?].
Qed.

Lemma check_For ns targets iter body :
  check ns (For targets iter body) =
    if reads_bound ns iter
    then if check_all (targets ++ ns) body is Some _ then Some ns else None
    else None.
Proof.
  cbn [check]. destruct (reads_bound ns iter); [|done].
  match goal with |- match ?f _ body with _ => _ end = _ =>
    rewrite (check_all_eq f) by (by intros ? [|[??]?]) end.
  done.
Qed.

Lemma check_If ns test body orelse :
  check ns (If test body orelse) =
    if reads_bound ns test
    then if check_all ns body is Some _
         then if check_all ns orelse is Some _ then Some ns else None
         else None
    else None.
Proof.
  cbn [check]. destruct (reads_bound ns test); [|done].
  match goal with |- match ?f _ body with _ => _ end = _ =>
    rewrite !(check_all_eq f) by (by intros ? [|[??]?]) end.
  done.
Qed.
End name_check_equations.

Section check_sound.
Implicit Types (o : oracle) (ns : list string) (e : expr) (s : stmt).

Lemma bound_app id l k : bound id (l ++ k) = bound id l || bound id k.
Proof. apply existsb_app. Qed.

Lemma extends_refl ns : extends ns ns.
Proof. by intros id. Qed.

Lemma extends_trans ns1 ns2 ns3 :
  extends ns1 ns2 → extends ns2 ns3 → extends ns1 ns3.
Proof. intros H1 H2 id Hb. by apply H2, H1. Qed.

Lemma extends_app l ns ns' : extends ns ns' → extends (l ++ ns) (l ++ ns').
Proof.
  intros Hext id. rewrite !bound_app. intros [->|Hb]%orb_true_iff; [done|].
  rewrite (Hext _ Hb). apply orb_true_r.
Qed.

Lemma extends_app_r l ns : extends ns (l ++ ns).
Proof. intros id Hb. rewrite bound_app, Hb. apply orb_true_r. Qed.

Lemma after_reads o ns ns' line e (k : outcome) (P : outcome → Prop) :
  extends ns ns' → reads_bound ns e = true →
  P k → (∀ l, P (Raised l OtherException)) →
  P match eval o ns' line e with
    | Some x => Raised line x
    | None => k
    end.
Proof.
  intros Hext Hb Hk Hr. by destruct (eval_reads o ns ns' line e Hext Hb) as [->| ->].
Qed.

Lemma reads_bound_Op ns es :
  reads_bound ns (Op es) = forallb (reads_bound ns) es.
Proof.
  unfold reads_bound. rewrite reads_Op.
  induction es as [|e' rest IH]; [done|].
  rewrite fmap_cons. cbn [concat forallb]. by rewrite forallb_app, IH.
Qed.

Lemma check_all_sound body :
  Forall (λ ls, sound ls.2) body →
  ∀ ns ns1, check_all ns body = Some ns1 →
    extends ns ns1 ∧
    ∀ o ns', extends ns ns' →
      match run o ns' body with
      | Finished ns2 => extends ns1 ns2
      | Raised _ x => x = OtherException
      end.
Proof.
  induction 1 as [|[l s] rest Hs _ IH]; intros ns ns1 Hc.
  { simpl in Hc. injection Hc as <-. split; [apply extends_refl|].
    intros o ns' Hext. simpl. exact Hext. }
  simpl in Hc, Hs. destruct (check ns s) as [nsa|] eqn:Hcs; [|done].
  destruct (Hs ns nsa Hcs) as [Ha Hexec]. destruct (IH nsa ns1 Hc) as [Hb Hrun].
  split; [by eapply extends_trans|]. intros o ns' Hext. simpl.
  specialize (Hexec o l ns' Hext). revert Hexec.
  destruct (exec o ns' l s); intros Hexec; [|exact Hexec].
  by apply Hrun.
Qed.

Lemma check_sound s : sound s.
Proof.
  induction s as [name|name|targets value|value target key|value
    |context body IH|targets iter body IH|test body orelse IHb IHo]
    using stmt_nested_ind; intros ns ns1 Hc.
  - injection Hc as <-. split; [apply (extends_app_r [name])|].
    intros o line ns' Hext. simpl. destruct (fails o line Const); [done|].
    by apply (extends_app [name]).
  - injection Hc as <-. split; [apply (extends_app_r [name])|].
    intros o line ns' Hext. by apply (extends_app [name]).
  - cbn [check] in Hc. destruct (reads_bound ns value) eqn:Hb; [|done].
    injection Hc as <-. split; [apply extends_app_r|].
    intros o line ns' Hext. cbn [exec].
    apply (after_reads o ns ns' line _ _
             (λ r, match r with
                   | Finished ns2 => extends (targets ++ ns) ns2
                   | Raised _ x => x = OtherException
                   end) Hext); [|by apply extends_app|done].
    destruct targets as [|? [|??]]; simpl; rewrite ?reads_bound_Op; simpl;
      by rewrite ?Hb.
  - cbn [check] in Hc. destruct (reads_bound ns (Op [value; target; key])) eqn:Hb; [|done].
    injection Hc as <-. split; [apply extends_refl|].
    intros o line ns' Hext. cbn [exec].
    by apply (after_reads o ns ns' line _ _
                (λ r, match r with
                      | Finished ns2 => extends ns ns2
                      | Raised _ x => x = OtherException
                      end) Hext).
  - cbn [check] in Hc. destruct (reads_bound ns value) eqn:Hb; [|done].
    injection Hc as <-. split; [apply extends_refl|].
    intros o line ns' Hext. cbn [exec].
    by apply (after_reads o ns ns' line _ _
                (λ r, match r with
                      | Finished ns2 => extends ns ns2
                      | Raised _ x => x = OtherException
                      end) Hext).
  - rewrite check_With in Hc. destruct (reads_bound ns context) eqn:Hb; [|done].
    destruct (check_all_sound body IH ns ns1 Hc) as [Ha Hrun].
    split; [done|]. intros o line ns' Hext. rewrite exec_With.
    apply (after_reads o ns ns' line _ _
             (λ r, match r with
                   | Finished ns2 => extends ns1 ns2
                   | Raised _ x => x = OtherException
                   end) Hext); [|by apply Hrun|done].
    rewrite reads_bound_Op. simpl. by rewrite Hb.
  - rewrite check_For in Hc. destruct (reads_bound ns iter) eqn:Hb; [|done].
    destruct (check_all (targets ++ ns) body) as [nsb|] eqn:Hcb; [|done].
    injection Hc as <-. split; [apply extends_refl|].
    destruct (check_all_sound body IH _ _ Hcb) as [Ha Hrun].
    intros o line ns' Hext. rewrite exec_For.
    apply (after_reads o ns ns' line _ _
             (λ r, match r with
                   | Finished ns2 => extends ns ns2
                   | Raised _ x => x = OtherException
                   end) Hext); [| |done].
    { rewrite reads_bound_Op. simpl. by rewrite Hb. }
    generalize (iterations o line iter). intros n. revert ns' Hext.
    induction n as [|n IHn]; intros ns' Hext; [done|].
    cbn [rounds]. specialize (Hrun o (targets ++ ns') (extends_app _ _ _ Hext)).
    revert Hrun. destruct (run o (targets ++ ns') body) as [ns2|]; intros Hrun; [|exact Hrun].
    apply IHn. eapply extends_trans; [|exact Hrun].
    eapply extends_trans; [apply (extends_app_r targets)|exact Ha].
  - rewrite check_If in Hc. destruct (reads_bound ns test) eqn:Hb; [|done].
    destruct (check_all ns body) as [nsb|] eqn:Hcb; [|done].
    destruct (check_all ns orelse) as [nso|] eqn:Hco; [|done].
    injection Hc as <-. split; [apply extends_refl|].
    destruct (check_all_sound body IHb _ _ Hcb) as [Ha Hrun].
    destruct (check_all_sound orelse IHo _ _ Hco) as [Ha' Hrun'].
    intros o line ns' Hext. rewrite exec_If.
    apply (after_reads o ns ns' line _ _
             (λ r, match r with
                   | Finished ns2 => extends ns ns2
                   | Raised _ x => x = OtherException
                   end) Hext); [| |done].
    { rewrite reads_bound_Op. simpl. by rewrite Hb. }
    destruct (truth o line test).
    + specialize (Hrun o ns' Hext). revert Hrun.
      destruct (run o ns' body); intros Hrun; [|exact Hrun].
      eapply extends_trans; [exact Ha|exact Hrun].
    + specialize (Hrun' o ns' Hext). revert Hrun'.
      destruct (run o ns' orelse); intros Hrun'; [|exact Hrun'].
      eapply extends_trans; [exact Ha'|exact Hrun'].
Qed.

Lemma check_all_run o ns ns1 program :
  check_all ns program = Some ns1 →
  match run o ns program with
  | Finished ns2 => extends ns1 ns2
  | Raised _ x => x = OtherException
  end.
Proof.
  intros Hc.
  assert (Forall (λ ls : nat * stmt, sound ls.2) program) as Hall.
  { apply Forall_forall. intros [l s] _. apply check_sound. }
  destruct (check_all_sound program Hall ns ns1 Hc) as [_ Hrun].
  apply Hrun, extends_refl.
Qed.

(** X13.  Whatever the operations do, no statement of lines 1-112 reads a name
    that is not bound: the run of these lines finishes or stops at an
    exception of an operation, never at [NameError]. *)
Theorem names_resolve_before_line_114 (o : oracle) :
  names_resolved (run o builtins before_priority_states).
Proof.
  destruct (check_all builtins before_priority_states) as [ns1|] eqn:Hc;
    [|by vm_compute in Hc].
  pose proof (check_all_run o _ _ _ Hc) as Hrun. unfold names_resolved.
  by destruct (run o builtins before_priority_states).
Qed.

(** X14.  [merged_map_extended] is the only name of the script that is read
    without being bound: the check refuses the script as it is, and with
    that one name bound no statement of the whole script, the bodies of its
    loops and blocks included, stops at [NameError], whatever the operations
    do, whichever branch is taken and however long the loops run. *)
Theorem names_resolve_with_merged_map_extended (o : oracle) :
  check_all builtins dashboard = None ∧
  names_resolved (run o ("merged_map_extended" :: builtins) dashboard).
Proof.
  split; [by vm_compute|].
  destruct (check_all ("merged_map_extended" :: builtins) dashboard) as [ns1|] eqn:Hc;
    [|by vm_compute in Hc].
  pose proof (check_all_run o _ _ _ Hc) as Hrun. unfold names_resolved.
  by destruct (run o ("merged_map_extended" :: builtins) dashboard).
Qed.

(** X15.  The global names that the bodies of [load_data_from_s3] and
    [load_map_from_s3] and the [format_func] of the select box read are bound
    when these functions are called: at line 43, and inside the block of
    line 56, whenever the run reaches them. *)
Theorem functions_find_their_globals (o : oracle) :
  before_priority_states !! 14
    = Some (43, Assign ["merged_map"] (Call (Name "load_data_from_s3") [])) ∧
  match run o builtins (take 14 before_priority_states) with
  | Finished ns => forallb (λ id, bound id ns) load_data_from_s3_reads = true
  | Raised _ _ => True
  end ∧
  (∃ context body, before_priority_states !! 17 = Some (56, With context body)) ∧
  match run o builtins (take 17 before_priority_states) with
  | Finished ns =>
      forallb (λ id, bound id ns) (format_func_reads ++ load_map_from_s3_reads) = true
  | Raised _ _ => True
  end.
Proof.
  split; [reflexivity|]. split; [|split; [by eexists _, _|]].
  - destruct (check_all builtins (take 14 before_priority_states)) as [ns1|] eqn:Hc;
      [|by vm_compute in Hc].
    pose proof (check_all_run o _ _ _ Hc) as Hrun. revert Hrun.
    destruct (run o builtins (take 14 before_priority_states)); intros Hrun; [|done].
    vm_compute in Hc. injection Hc as <-.
    apply forallb_forall. intros id Hin. apply Hrun. revert id Hin.
    by apply forallb_forall.
  - destruct (check_all builtins (take 17 before_priority_states)) as [ns1|] eqn:Hc;
      [|by vm_compute in Hc].
    pose proof (check_all_run o _ _ _ Hc) as Hrun. revert Hrun.
    destruct (run o builtins (take 17 before_priority_states)); intros Hrun; [|done].
    vm_compute in Hc. injection Hc as <-.
    apply forallb_forall. intros id Hin. apply Hrun. revert id Hin.
    by apply forallb_forall.
Qed.
End check_sound.

(** ** The impact analysis after the scores are written *)

Section impact_after_scores.
Context {N : Type} `{Num N}.
Variable argsort : list N → list nat.
Variable env : services N.
Implicit Types (d data : DataFrame N).

Lemma first_missing_ext d d' items :
  (∀ item, item ∈ items → get_col item.2 (cols d) = get_col item.2 (cols d')) →
  first_missing d items = first_missing d' items.
Proof.
  induction items as [|[[line label] name] rest IH]; intros Hg; [done|].
  cbn [first_missing]. pose proof (Hg (line, label, name)) as E. cbn [snd] in E.
  rewrite <-E by left.
  rewrite IH; [done|]. intros item Hi. apply Hg. by right.
Qed.

Lemma dictionary_ext d d' items :
  STATE d = STATE d' →
  (∀ item, item ∈ items → get_col item.2 (cols d) = get_col item.2 (cols d')) →
  dictionary (take_rows (isin_rows d) d) items
    = dictionary (take_rows (isin_rows d') d') items.
Proof.
  intros Hs Hg. rewrite !dictionary_spec, !first_missing_take_rows.
  rewrite (first_missing_ext d d' items Hg).
  assert (isin_rows d = isin_rows d') as Hr.
  { unfold isin_rows, nrows. by rewrite Hs. }
  destruct (first_missing d' items) as [[? ?]|]; [done|].
  do 2 f_equal. apply list_fmap_ext. intros _ item Hi%list_elem_of_lookup_2.
  by rewrite !get_col_take_rows, Hr, (Hg item Hi).
Qed.

Lemma impact_analysis_ext d d' :
  STATE d = STATE d' →
  (∀ item, item ∈ food_metrics ++ demographics ++ health_metrics →
           get_col item.2 (cols d) = get_col item.2 (cols d')) →
  impact_analysis env d = impact_analysis env d'.
Proof.
  intros Hs Hg. unfold impact_analysis.
  change (on_frame 138 (Some d) impact_cohort)
    with (mret (take_rows (isin_rows d) d) : UI _).
  change (on_frame 138 (Some d') impact_cohort)
    with (mret (take_rows (isin_rows d') d') : UI _).
  unfold mbind, UI_bind, show, mret, UI_ret. cbv beta iota.
  rewrite (dictionary_ext d d' food_metrics Hs),
    (dictionary_ext d d' demographics Hs), (dictionary_ext d d' health_metrics Hs);
    [done|intros item Hi; apply Hg; rewrite !elem_of_app; auto..].
Qed.

(** X16.  The column [aggregate_score] that [get_priority_states] writes into
    the table does not change the impact analysis: lines 130-174 show the
    same and stop at the same place on the table as [get_priority_states]
    leaves it and on the table as it was loaded. *)
Theorem impact_analysis_after_scores metrics d :
  impact_analysis env (get_priority_states argsort metrics d).1
    = impact_analysis env d.
Proof.
  destruct (decide (Forall (λ m, is_Some (get_col m (cols d))) metrics)) as [Hp|Hp].
  - destruct (get_priority_states_returns argsort metrics d Hp) as [r ->].
    apply impact_analysis_ext; [done|]. intros item Hi. cbn [fst].
    unfold food_metrics, demographics, health_metrics in Hi. simpl in Hi.
    repeat (apply elem_of_cons in Hi as [->|Hi];
            [cbn [snd]; by apply with_scores_other|]).
    by apply elem_of_nil in Hi.
  - by destruct (get_priority_states_raise argsort metrics d Hp) as (m & _ & _ & ->).
Qed.
End impact_after_scores.
